(** * The file-upload middleware and the API client of monday-graphql-api

    A shallow embedding of
    - [packages/api/lib/api-client/middleware/file-upload.ts]
      ([isFile], [hasFiles], [extractFiles], [createMultipartFormData],
      [createFileUploadMiddleware]),
    - the earlier copy of that middleware, the standalone module and the
      private methods of the earlier [api-client.ts], where it differs, and
    - [packages/api/lib/api-client/api-client.ts]
      ([isValidApiVersion], [requestOptionsSchema], the [ApiClient]
      constructor, [createClient], [createAbortController],
      [executeRequest], [request], [rawRequest]),
    together with the parts of the JavaScript runtime these functions call
    ([JSON.parse], [JSON.stringify], [String.prototype.toLowerCase],
    property assignment and deletion, [FormData.append], [RegExp.test]). *)

From Stdlib Require Import String Ascii List NArith ZArith Lia Bool QArith.
From Stdlib Require Import DecimalString DecimalNat.
Import ListNotations.

Local Close Scope Q_scope.
Local Open Scope string_scope.
Local Open Scope list_scope.

Infix "+++" := String.append (at level 60, right associativity).

(** ** JavaScript values

    The model covers the values a variables tree is made of (arrays, plain
    objects, scalars, [File] and [Blob] instances) and dense arrays.  Outside
    it are class instances other than [File] and [Blob], sparse arrays,
    accessor properties of the values themselves and cyclic values.  An
    object is taken as the sequence of entries that [Object.entries] returns
    for it, its own properties in own-property order: the keys that are array
    indices first, in ascending order, then the other keys in the order of
    their creation. *)

Module JS.

(** A number is [NaN], an infinity or a finite decimal [m * 10^e].  Finite
    numbers are kept normalised ([m] is not a multiple of ten, and zero is
    [Dec 0 0]); rounding to binary64 is outside the model. *)
Inductive number :=
| Dec (m e : Z)
| NaN
| PosInfinity
| NegInfinity.

(** A [File] or [Blob] instance: opaque binary data with a content type (and,
    for a [File], a name). *)
Record Blob := {
  blob_name : option string;
  blob_type : string;
  blob_bytes : list Byte.byte
}.

(** The values a variables tree or a parsed JSON text is made of.  An object
    is the sequence of its own enumerable string-keyed properties in the order
    in which [Object.entries], [Object.keys], [Object.values] and
    [JSON.stringify] enumerate them. *)
#[local] Unset Elimination Schemes.
Inductive value :=
| VUndefined
| VNull
| VBool (b : bool)
| VNum (n : number)
| VStr (s : string)
| VFile (f : Blob)
| VArr (items : list value)
| VObj (props : list (string * value)).
#[local] Set Elimination Schemes.

(** [ToBoolean], as used by [!variables]. *)
Definition truthy (v : value) : bool :=
  match v with
  | VUndefined | VNull => false
  | VBool b => b
  | VNum (Dec m _) => negb (m =? 0)%Z
  | VNum NaN => false
  | VNum _ => true
  | VStr s => negb (s =? "")
  | VFile _ | VArr _ | VObj _ => true
  end.

(** *** Objects as ordered property lists *)

Section Objects.
Context {A : Type}.

(** [o[key]]: the own property [key], if there is one. *)
Fixpoint obj_get (key : string) (o : list (string * A)) : option A :=
  match o with
  | [] => None
  | (k, v) :: o' => if k =? key then Some v else obj_get key o'
  end.

(** The own property [key] takes the value [v]: an existing property keeps
    its place, a new one is created after the others. *)
Fixpoint obj_set (key : string) (v : A) (o : list (string * A)) : list (string * A) :=
  match o with
  | [] => [(key, v)]
  | (k, x) :: o' =>
      if k =? key then (k, v) :: o' else (k, x) :: obj_set key v o'
  end.

(** [o[key] = v] on an object that was made by [{}] and is filled key by
    key.  The key [__proto__] is the accessor that such an object inherits
    from [Object.prototype]: the assignment runs its setter and creates no
    own property.  Any other key is written as [obj_set] does; a new key is
    then the last, which is its place in own-property order when the keys
    arrive in that order, as those of [Object.entries] do. *)
Definition obj_assign (key : string) (v : A) (o : list (string * A)) : list (string * A) :=
  if key =? "__proto__" then o else obj_set key v o.

(** [delete o[key]] *)
Definition obj_delete (key : string) (o : list (string * A)) : list (string * A) :=
  filter (fun kv => negb (fst kv =? key)) o.

(** [Object.keys(o)] *)
Definition obj_keys (o : list (string * A)) : list string := map fst o.

(** Keys of an object are pairwise distinct. *)
Fixpoint distinct_keys (o : list (string * A)) : bool :=
  match o with
  | [] => true
  | (k, _) :: o' =>
      negb (existsb (fun kv => fst kv =? k) o') && distinct_keys o'
  end.
End Objects.

(** Every object of the tree has pairwise distinct keys: the invariant of
    the representation of objects by property lists. *)
Fixpoint well_formed (v : value) : bool :=
  match v with
  | VArr items => forallb well_formed items
  | VObj props =>
      distinct_keys props && forallb (fun kv => well_formed (snd kv)) props
  | _ => true
  end.

(** [String(n)] and [`${n}`] for an array index [n]: its decimal numeral. *)
Definition String_of_index (n : nat) : string :=
  NilEmpty.string_of_uint (Nat.to_uint n).


(** *** Strings

    A string is the sequence of the bytes of its UTF-8 encoding. *)

Definition is_digit (c : ascii) : bool :=
  let n := N_of_ascii c in ((48 <=? n) && (n <=? 57))%N.

Definition is_upper (c : ascii) : bool :=
  let n := N_of_ascii c in ((65 <=? n) && (n <=? 90))%N.

Definition lower_char (c : ascii) : ascii :=
  if is_upper c then ascii_of_N (N_of_ascii c + 32) else c.

(** [s.toLowerCase()] on the ASCII letters.  The letters outside ASCII that
    the runtime also converts have lower-case forms outside ASCII, so the
    comparison of the result with an ASCII literal is not affected. *)
Fixpoint toLowerCase (s : string) : string :=
  match s with
  | EmptyString => EmptyString
  | String c s' => String (lower_char c) (toLowerCase s')
  end.

(** A code unit that is a surrogate without its partner has no UTF-8
    encoding; it is written as the three bytes that the scheme of UTF-8 gives
    for its value: 237, a byte from 160 to 191, and a continuation byte.  A
    high surrogate followed at once by a low one is a pair, the two halves
    of a supplementary character. *)
Definition is_continuation (c : ascii) : bool :=
  let n := N_of_ascii c in ((128 <=? n) && (n <=? 191))%N.

Definition high_surrogate_bytes (a b c : ascii) : bool :=
  let n := N_of_ascii b in
  ((N_of_ascii a =? 237) && (160 <=? n) && (n <=? 175))%N && is_continuation c.

Definition low_surrogate_bytes (a b c : ascii) : bool :=
  let n := N_of_ascii b in
  ((N_of_ascii a =? 237) && (176 <=? n) && (n <=? 191))%N && is_continuation c.

(** The code unit written by the bytes 237, [b], [c]. *)
Definition code_unit (b c : ascii) : N :=
  (53248 + (N_of_ascii b - 128) * 64 + (N_of_ascii c - 128))%N.

(** U+FFFD, the replacement character. *)
Definition replacement : string :=
  String (ascii_of_N 239) (String (ascii_of_N 191) (String (ascii_of_N 189) "")).

(** The conversion to a [USVString]: every surrogate without partner is
    replaced by U+FFFD. *)
Fixpoint USVString (s : string) : string :=
  match s with
  | EmptyString => ""
  | String a s1 =>
      match s1 with
      | String b (String c s3) =>
          if high_surrogate_bytes a b c then
            match s3 with
            | String a' (String b' (String c' s6)) =>
                if low_surrogate_bytes a' b' c' then
                  String a (String b (String c
                    (String a' (String b' (String c' (USVString s6))))))
                else replacement +++ USVString s3
            | _ => replacement +++ USVString s3
            end
          else if low_surrogate_bytes a b c then replacement +++ USVString s3
          else String a (USVString s1)
      | _ => String a (USVString s1)
      end
  end.

Definition digits_of_N (n : N) : string :=
  NilEmpty.string_of_uint (N.to_uint n).

(** The array index a property key denotes: the key is the decimal numeral
    of a number below 2^32 - 1. *)
Definition array_index (key : string) : option N :=
  match NilEmpty.uint_of_string key with
  | Some d =>
      let n := N.of_uint d in
      if (digits_of_N n =? key) && (n <? 4294967295)%N then Some n else None
  | None => None
  end.

(** [key] comes before [k] in own-property order wherever the two were
    created: an array index before a larger one and before any other key. *)
Definition key_precedes (key k : string) : bool :=
  match array_index key, array_index k with
  | Some i, Some j => (i <? j)%N
  | Some _, None => true
  | None, _ => false
  end.

(** The creation of the own property [key] of an object that does not have
    it: before the first key it precedes, or last. *)
Fixpoint obj_insert {A : Type} (key : string) (v : A) (o : list (string * A))
    : list (string * A) :=
  match o with
  | [] => [(key, v)]
  | (k, x) :: o' =>
      if key_precedes key k then (key, v) :: o
      else (k, x) :: obj_insert key v o'
  end.

(** The definition of the own property [key], as an object literal and
    [JSON.parse] do it, whatever the key is: an existing property keeps its
    place and takes the value, a new one gets its place in own-property
    order. *)
Definition obj_define {A : Type} (key : string) (v : A) (o : list (string * A))
    : list (string * A) :=
  if existsb (fun kv => fst kv =? key) o then obj_set key v o
  else obj_insert key v o.

(** The object that the literal with computed keys
    [{[k1]: v1, ..., [kn]: vn}] evaluates to. *)
Definition object_literal {A : Type} (members : list (string * A))
    : list (string * A) :=
  fold_left (fun o '(k, v) => obj_define k v o) members [].

Fixpoint zeros (n : nat) : string :=
  match n with
  | O => ""
  | S n' => String "0" (zeros n')
  end.

(** [Number::toString(x)] in radix 10 for a finite [x = m * 10^e]. *)
Definition Number_toString (m e : Z) : string :=
  if (m =? 0)%Z then "0"
  else
    let sign := if (m <? 0)%Z then "-" else "" in
    let ds := digits_of_N (Z.abs_N m) in
    let k := Z.of_nat (String.length ds) in
    let n := (k + e)%Z in
    sign +++
    (if ((k <=? n) && (n <=? 21))%Z then
       ds +++ zeros (Z.to_nat (n - k))
     else if ((0 <? n) && (n <=? 21))%Z then
       substring 0 (Z.to_nat n) ds +++ "." +++
       substring (Z.to_nat n) (Z.to_nat (k - n)) ds
     else if ((-6 <? n) && (n <=? 0))%Z then
       "0." +++ zeros (Z.to_nat (- n)) +++ ds
     else
       let x := (n - 1)%Z in
       let exp := (if (x <? 0)%Z then "-" else "+") +++ digits_of_N (Z.abs_N x) in
       if (k =? 1)%Z then ds +++ "e" +++ exp
       else substring 0 1 ds +++ "." +++
            substring 1 (Z.to_nat (k - 1)) ds +++ "e" +++ exp).

(** *** JSON.stringify *)

(** The double quote and the backslash. *)
Definition dquote : ascii := ascii_of_N 34.
Definition backslash : ascii := ascii_of_N 92.

Definition hex_digit (n : N) : ascii :=
  if (n <? 10)%N then ascii_of_N (48 + n) else ascii_of_N (87 + n).

(** The escape of one character inside a JSON string. *)
Definition quote_char (c : ascii) : string :=
  let n := N_of_ascii c in
  if (n =? 34)%N then String backslash (String dquote "")
  else if (n =? 92)%N then "\\"
  else if (n =? 8)%N then "\b"
  else if (n =? 9)%N then "\t"
  else if (n =? 10)%N then "\n"
  else if (n =? 12)%N then "\f"
  else if (n =? 13)%N then "\r"
  else if (n <? 32)%N then
    "\u00" +++ String (hex_digit (n / 16)) (String (hex_digit (n mod 16)) "")
  else String c "".

(** The escape [\uXXXX] of a code unit, in lower-case hexadecimal. *)
Definition escape_unit (u : N) : string :=
  "\u" +++
  String (hex_digit (u / 4096))
    (String (hex_digit ((u / 256) mod 16))
       (String (hex_digit ((u / 16) mod 16))
          (String (hex_digit (u mod 16)) ""))).

(** The characters of a string between the quotes: a surrogate without
    partner is escaped, a pair is written as it is. *)
Fixpoint quote_chars (s : string) : string :=
  match s with
  | EmptyString => ""
  | String a s1 =>
      match s1 with
      | String b (String c s3) =>
          if high_surrogate_bytes a b c then
            match s3 with
            | String a' (String b' (String c' s6)) =>
                if low_surrogate_bytes a' b' c' then
                  String a (String b (String c
                    (String a' (String b' (String c' (quote_chars s6))))))
                else escape_unit (code_unit b c) +++ quote_chars s3
            | _ => escape_unit (code_unit b c) +++ quote_chars s3
            end
          else if low_surrogate_bytes a b c then
            escape_unit (code_unit b c) +++ quote_chars s3
          else quote_char a +++ quote_chars s1
      | _ => quote_char a +++ quote_chars s1
      end
  end.

Definition QuoteJSONString (s : string) : string :=
  String dquote (quote_chars s +++ String dquote "").

(** [SerializeJSONProperty]: [None] stands for [undefined].  A [Blob] has no
    enumerable own property and no [toJSON], and is serialised as an empty
    object. *)
Fixpoint SerializeJSONProperty (v : value) : option string :=
  match v with
  | VUndefined => None
  | VNull => Some "null"
  | VBool b => Some (if b then "true" else "false")
  | VNum (Dec m e) => Some (Number_toString m e)
  | VNum _ => Some "null"
  | VStr s => Some (QuoteJSONString s)
  | VFile _ => Some "{}"
  | VArr items =>
      Some ("[" +++
            String.concat ","
              (map (fun x => match SerializeJSONProperty x with
                             | Some t => t
                             | None => "null"
                             end) items) +++ "]")
  | VObj props =>
      Some ("{" +++
            String.concat ","
              (flat_map (fun kv => match SerializeJSONProperty (snd kv) with
                                   | Some t => [QuoteJSONString (fst kv) +++ ":" +++ t]
                                   | None => []
                                   end) props) +++ "}")
  end.

(** [JSON.stringify(v)] *)
Definition JSON_stringify (v : value) : value :=
  match SerializeJSONProperty v with
  | Some t => VStr t
  | None => VUndefined
  end.


(** *** JSON.parse *)

Definition is_ws (c : ascii) : bool :=
  let n := N_of_ascii c in
  ((n =? 32) || (n =? 9) || (n =? 10) || (n =? 13))%N.

Fixpoint skip_ws (s : string) : string :=
  match s with
  | String c s' => if is_ws c then skip_ws s' else s
  | EmptyString => s
  end.

(** The longest prefix of decimal digits, and what follows it. *)
Fixpoint span_digits (s : string) : list ascii * string :=
  match s with
  | String c s' =>
      if is_digit c then
        let '(ds, rest) := span_digits s' in (c :: ds, rest)
      else ([], s)
  | EmptyString => ([], s)
  end.

Definition digits_value (ds : list ascii) : Z :=
  fold_left (fun acc c => acc * 10 + (Z.of_N (N_of_ascii c) - 48))%Z ds 0%Z.

Fixpoint drop_zeros (ds : list ascii) : list ascii * nat :=
  match ds with
  | c :: ds' =>
      if (N_of_ascii c =? 48)%N then
        let '(r, z) := drop_zeros ds' in (r, S z)
      else (ds, O)
  | [] => ([], O)
  end.

(** The number denoted by sign, integer digits, fraction digits and exponent. *)
Definition make_number (neg : bool) (int frac : list ascii) (exp : Z) : number :=
  let '(r, z) := drop_zeros (rev (int ++ frac)) in
  let m := digits_value (rev r) in
  if (m =? 0)%Z then Dec 0 0
  else Dec (if neg then - m else m)
           (exp - Z.of_nat (length frac) + Z.of_nat z).

(** The rest of [s] after the character [c], when [s] starts with it. *)
Definition next_is (c : ascii) (s : string) : option string :=
  match s with
  | String a rest => if Ascii.eqb a c then Some rest else None
  | EmptyString => None
  end.

(** A JSON number: an optional minus sign; the integer part, a single zero or
    digits that do not start with zero; an optional fraction, a point and at
    least one digit; an optional exponent, [e] or [E], an optional sign and at
    least one digit. *)
Definition parse_number (s : string) : option (number * string) :=
  let '(neg, s1) :=
    match next_is "-" s with
    | Some s' => (true, s')
    | None => (false, s)
    end in
  let '(int, s2) := span_digits s1 in
  match int with
  | [] => None
  | d :: ds =>
      if (N_of_ascii d =? 48)%N && negb (Nat.eqb (length ds) 0) then None
      else
        let frac_part :=
          match next_is "." s2 with
          | Some s' =>
              let '(frac, s3) := span_digits s' in
              match frac with
              | [] => None
              | _ => Some (frac, s3)
              end
          | None => Some ([], s2)
          end in
        match frac_part with
        | None => None
        | Some (frac, s3) =>
            let exponent_part :=
              match next_is "e" s3 with
              | Some s' => Some s'
              | None => next_is "E" s3
              end in
            match exponent_part with
            | None => Some (make_number neg int frac 0, s3)
            | Some s' =>
                let '(eneg, s4) :=
                  match next_is "-" s' with
                  | Some s'' => (true, s'')
                  | None =>
                      match next_is "+" s' with
                      | Some s'' => (false, s'')
                      | None => (false, s')
                      end
                  end in
                let '(eds, s5) := span_digits s4 in
                match eds with
                | [] => None
                | _ =>
                    let x := digits_value eds in
                    Some (make_number neg int frac (if eneg then - x else x), s5)
                end
            end
        end
  end.

Definition hex_value (c : ascii) : option N :=
  let n := N_of_ascii c in
  if ((48 <=? n) && (n <=? 57))%N then Some (n - 48)%N
  else if ((97 <=? n) && (n <=? 102))%N then Some (n - 87)%N
  else if ((65 <=? n) && (n <=? 70))%N then Some (n - 55)%N
  else None.

Definition hex4 (a b c d : ascii) : option N :=
  match hex_value a, hex_value b, hex_value c, hex_value d with
  | Some x, Some y, Some z, Some w => Some (((x * 16 + y) * 16 + z) * 16 + w)%N
  | _, _, _, _ => None
  end.

(** The characters of a string literal: bytes taken as they are, and the
    UTF-16 code units written as [\uXXXX]. *)
Inductive str_item :=
| Raw (c : ascii)
| Unit16 (u : N).

(** The items between the opening quote (already read) and the closing one. *)
Fixpoint parse_string_items (s : string) : option (list str_item * string) :=
  match s with
  | EmptyString => None
  | String c s' =>
      let n := N_of_ascii c in
      if (n =? 34)%N then Some ([], s')
      else if (n =? 92)%N then
        match s' with
        | EmptyString => None
        | String e s'' =>
            let escaped (i : str_item) :=
              match parse_string_items s'' with
              | Some (items, rest) => Some (i :: items, rest)
              | None => None
              end in
            let m := N_of_ascii e in
            if (m =? 34)%N || (m =? 92)%N || (m =? 47)%N then escaped (Raw e)
            else if (m =? 98)%N then escaped (Raw (ascii_of_N 8))
            else if (m =? 102)%N then escaped (Raw (ascii_of_N 12))
            else if (m =? 110)%N then escaped (Raw (ascii_of_N 10))
            else if (m =? 114)%N then escaped (Raw (ascii_of_N 13))
            else if (m =? 116)%N then escaped (Raw (ascii_of_N 9))
            else if (m =? 117)%N then
              match s'' with
              | String h1 (String h2 (String h3 (String h4 s3))) =>
                  match hex4 h1 h2 h3 h4, parse_string_items s3 with
                  | Some u, Some (items, rest) => Some (Unit16 u :: items, rest)
                  | _, _ => None
                  end
              | _ => None
              end
            else None
        end
      else if (n <? 32)%N then None
      else
        match parse_string_items s' with
        | Some (items, rest) => Some (Raw c :: items, rest)
        | None => None
        end
  end.

(** The UTF-8 encoding of a code point. *)
Definition utf8_encode (cp : N) : string :=
  let byte (n : N) := ascii_of_N n in
  let cont (n : N) := ascii_of_N (128 + n mod 64) in
  (if cp <? 128 then String (byte cp) ""
   else if cp <? 2048 then
     String (byte (192 + cp / 64)) (String (cont cp) "")
   else if cp <? 65536 then
     String (byte (224 + cp / 4096))
       (String (cont (cp / 64)) (String (cont cp) ""))
   else
     String (byte (240 + cp / 262144))
       (String (cont (cp / 4096))
          (String (cont (cp / 64)) (String (cont cp) ""))))%N.

Definition is_high_surrogate (u : N) : bool := ((55296 <=? u) && (u <=? 56319))%N.
Definition is_low_surrogate (u : N) : bool := ((56320 <=? u) && (u <=? 57343))%N.

Fixpoint decode_items (items : list str_item) : string :=
  match items with
  | [] => ""
  | Raw c :: r => String c (decode_items r)
  | Unit16 hi :: r =>
      match r with
      | Unit16 lo :: r' =>
          if is_high_surrogate hi && is_low_surrogate lo then
            utf8_encode (65536 + (hi - 55296) * 1024 + (lo - 56320)) +++
            decode_items r'
          else utf8_encode hi +++ decode_items r
      | _ => utf8_encode hi +++ decode_items r
      end
  end.

Definition parse_string (s : string) : option (string * string) :=
  match parse_string_items s with
  | Some (items, rest) => Some (decode_items items, rest)
  | None => None
  end.

(** The literal [lit] at the head of [s]. *)
Fixpoint expect (lit s : string) : option string :=
  match lit, s with
  | EmptyString, _ => Some s
  | String a lit', String b s' => if Ascii.eqb a b then expect lit' s' else None
  | String _ _, EmptyString => None
  end.

Inductive parsed :=
| Parsed (v : value) (rest : string)
| SyntaxError
| OutOfFuel.

(** Recursive descent over the JSON grammar.  [fuel] bounds the depth of the
    calls; [parse_fuel] below is enough for every text.  A member whose key is
    already there replaces the value and keeps the place of the first.  The
    members are kept in the order of the text, which is the own-property
    order of the object when the text lists the array indices first and in
    ascending order, as the texts of [JSON.stringify] do. *)
Fixpoint parse_value (fuel : nat) (s : string) {struct fuel} : parsed :=
  match fuel with
  | O => OutOfFuel
  | S fuel =>
      match skip_ws s with
      | EmptyString => SyntaxError
      | String c r as s0 =>
          let n := N_of_ascii c in
          if (n =? 34)%N then
            match parse_string r with
            | Some (str, rest) => Parsed (VStr str) rest
            | None => SyntaxError
            end
          else if (n =? 91)%N then
            match next_is "]" (skip_ws r) with
            | Some rest => Parsed (VArr []) rest
            | None => parse_elements fuel r []
            end
          else if (n =? 123)%N then
            match next_is "}" (skip_ws r) with
            | Some rest => Parsed (VObj []) rest
            | None => parse_members fuel r []
            end
          else if (n =? 45)%N || is_digit c then
            match parse_number s0 with
            | Some (x, rest) => Parsed (VNum x) rest
            | None => SyntaxError
            end
          else
            match expect "null" s0, expect "true" s0, expect "false" s0 with
            | Some rest, _, _ => Parsed VNull rest
            | _, Some rest, _ => Parsed (VBool true) rest
            | _, _, Some rest => Parsed (VBool false) rest
            | _, _, _ => SyntaxError
            end
      end
  end
with parse_elements (fuel : nat) (s : string) (acc : list value) {struct fuel} : parsed :=
  match fuel with
  | O => OutOfFuel
  | S fuel =>
      match parse_value fuel s with
      | Parsed v r =>
          match next_is "," (skip_ws r), next_is "]" (skip_ws r) with
          | Some rest, _ => parse_elements fuel rest (v :: acc)
          | None, Some rest => Parsed (VArr (rev (v :: acc))) rest
          | None, None => SyntaxError
          end
      | failure => failure
      end
  end
with parse_members (fuel : nat) (s : string) (acc : list (string * value)) {struct fuel} : parsed :=
  match fuel with
  | O => OutOfFuel
  | S fuel =>
      match next_is dquote (skip_ws s) with
      | Some r =>
          match parse_string r with
          | Some (key, r1) =>
              match next_is ":" (skip_ws r1) with
              | Some r2 =>
                  match parse_value fuel r2 with
                  | Parsed v r3 =>
                      match next_is "," (skip_ws r3), next_is "}" (skip_ws r3) with
                      | Some rest, _ =>
                          parse_members fuel rest (obj_set key v acc)
                      | None, Some rest =>
                          Parsed (VObj (obj_set key v acc)) rest
                      | None, None => SyntaxError
                      end
                  | failure => failure
                  end
              | None => SyntaxError
              end
          | None => SyntaxError
          end
      | None => SyntaxError
      end
  end.

Definition parse_fuel (text : string) : nat := 2 * String.length text + 1.

(** [JSON.parse(text)]; [None] stands for the [SyntaxError] it throws. *)
Definition JSON_parse (text : string) : option value :=
  match parse_value (parse_fuel text) text with
  | Parsed v rest => if skip_ws rest =? "" then Some v else None
  | _ => None
  end.

(** A text written with apostrophes where JSON has double quotes. *)
Fixpoint quoted (s : string) : string :=
  match s with
  | EmptyString => EmptyString
  | String c s' =>
      String (if (N_of_ascii c =? 39)%N then dquote else c) (quoted s')
  end.


(** *** ToString and FormData *)

(** [String(v)], the conversion applied by template literals and by
    [FormData.append] to a value that is not a [Blob]. *)
Fixpoint ToString (v : value) : string :=
  match v with
  | VUndefined => "undefined"
  | VNull => "null"
  | VBool b => if b then "true" else "false"
  | VNum (Dec m e) => Number_toString m e
  | VNum NaN => "NaN"
  | VNum PosInfinity => "Infinity"
  | VNum NegInfinity => "-Infinity"
  | VStr s => s
  | VFile f =>
      match blob_name f with
      | Some _ => "[object File]"
      | None => "[object Blob]"
      end
  | VArr items =>
      String.concat ","
        (map (fun x => match x with
                       | VUndefined | VNull => ""
                       | _ => ToString x
                       end) items)
  | VObj _ => "[object Object]"
  end.

Inductive FormDataEntryValue :=
| Text (s : string)
| Binary (f : Blob).

(** A [FormData] object is its entry list. *)
Definition FormData := list (string * FormDataEntryValue).

(** What a [FormData] keeps of a [Blob]: a [File] as it is, and for a
    [Blob] that is not a [File] a new [File] of the same bytes and type whose
    name is [blob]. *)
Definition File_of (f : Blob) : Blob :=
  match blob_name f with
  | Some _ => f
  | None => {| blob_name := Some "blob";
               blob_type := blob_type f;
               blob_bytes := blob_bytes f |}
  end.

(** The entry value [FormData.append] stores for [v]: the [File] of a
    [Blob], and anything else converted to a string and then to a
    [USVString]. *)
Definition entry_value (v : value) : FormDataEntryValue :=
  match v with
  | VFile f => Binary (File_of f)
  | _ => Text (USVString (ToString v))
  end.

(** [formData.append(name, v)]; the name is converted to a [USVString]
    too. *)
Definition FormData_append (formData : FormData) (name : string) (v : value) : FormData :=
  formData ++ [(USVString name, entry_value v)].

(** [formData.get(name)]: the first value of that name. *)
Definition FormData_get (formData : FormData) (name : string) : option FormDataEntryValue :=
  obj_get name formData.

(** [Object.entries(a)] for an array [a]: the indices as decimal strings,
    in ascending order, with the elements. *)
Definition Array_entries {A : Type} (a : list A) : list (string * A) :=
  combine (map String_of_index (seq 0 (length a))) a.

End JS.

(** ** middleware/file-upload.ts: detection and extraction *)

Module FileUpload.
Import JS.

Record FileEntry := {
  path : string;
  file : Blob
}.

(** [value instanceof File || value instanceof Blob], in an environment that
    defines [Blob]. *)
Definition isFile (value : value) : bool :=
  match value with VFile _ => true | _ => false end.

(** The local function [check] of [hasFiles]. *)
Fixpoint check (value : value) : bool :=
  if isFile value then true
  else match value with
       | VArr items => existsb check items
       | VObj props => existsb (fun kv => check (snd kv)) props
       | _ => false
       end.

Definition hasFiles (variables : value) : bool :=
  if negb (truthy variables) then false else check variables.

(** The local function [processValue] of [extractFiles].  The array [files]
    it pushes to is threaded through as the state. *)
Fixpoint processValue (value : value) (currentPath : string)
    (files : list FileEntry) {struct value} : JS.value * list FileEntry :=
  match value with
  | VFile f =>
      (VNull, files ++ [{| path := currentPath; file := f |}])
  | VArr items =>
      let fix map_items (l : list JS.value) (index : nat) (files : list FileEntry)
          : list JS.value * list FileEntry :=
        match l with
        | [] => ([], files)
        | item :: l' =>
            let '(item', files) :=
              processValue item (currentPath +++ "." +++ String_of_index index) files in
            let '(rest, files) := map_items l' (S index) files in
            (item' :: rest, files)
        end in
      let '(items', files) := map_items items 0 files in
      (VArr items', files)
  | VObj props =>
      let fix for_entries (entries : list (string * JS.value))
          (result : list (string * JS.value)) (files : list FileEntry)
          : list (string * JS.value) * list FileEntry :=
        match entries with
        | [] => (result, files)
        | (key, val) :: entries' =>
            let '(val', files) :=
              processValue val (currentPath +++ "." +++ key) files in
            for_entries entries' (obj_assign key val' result) files
        end in
      let '(result, files) := for_entries props [] files in
      (VObj result, files)
  | _ => (value, files)
  end.

Record Extracted := {
  cleanedVariables : value;
  files : list FileEntry
}.

(** [extractFiles(variables, path = 'variables')] *)
Definition extractFiles (variables : value) (path : string) : Extracted :=
  let '(cleaned, files) := processValue variables path [] in
  {| cleanedVariables := cleaned; files := files |}.


(** [createMultipartFormData(query, variables, files)].  The parameter
    [query] is declared a string; what reaches it is the property [query] of
    the parsed body, whatever its type. *)
Definition createMultipartFormData (query : value) (variables : value)
    (files : list FileEntry) : FormData :=
  let formData := [] in
  let formData := FormData_append formData "query" query in
  let formData := FormData_append formData "variables" (JSON_stringify variables) in
  let map :=
    fold_left (fun map '(index, entry) => obj_assign index (VArr [VStr (path entry)]) map)
              (Array_entries files) [] in
  let formData := FormData_append formData "map" (JSON_stringify (VObj map)) in
  fold_left (fun formData '(index, entry) => FormData_append formData index (VFile (file entry)))
            (Array_entries files) formData.

(** The body of a request: a JavaScript value (a string, when the request
    layer has serialised it) or a [FormData] object. *)
Inductive Body :=
| BodyValue (v : value)
| BodyFormData (formData : FormData).

(** The request handed to a request middleware: the fetch options, with the
    url, the operation name and the variables. *)
Record Request := {
  url : string;
  method : string;
  operationName : option string;
  variables : value;
  headers : option (list (string * string));
  body : Body;
  fetchOptions : list (string * value)
}.

(** The settled state of a promise. *)
Inductive Promise (A : Type) :=
| Resolved (a : A)
| Rejected (reason : value).
Arguments Resolved {A} a.
Arguments Rejected {A} reason.

Definition RequestMiddleware := Request -> Promise Request.

(** The [try] block: [JSON.parse(body).query].  [None] when it throws, a
    [SyntaxError] from the parser or a [TypeError] from reading a property of
    [null]. *)
Definition parsed_query (body : string) : option value :=
  match JSON_parse body with
  | None => None
  | Some VNull | Some VUndefined => None
  | Some (VObj props) =>
      match obj_get "query" props with
      | Some q => Some q
      | None => Some VUndefined
      end
  | Some _ => Some VUndefined
  end.

(** The loop over [Object.keys(headers)] that deletes the content-type keys. *)
Definition strip_content_type (headers : list (string * string)) : list (string * string) :=
  fold_left (fun headers key =>
               if toLowerCase key =? "content-type" then obj_delete key headers
               else headers)
            (obj_keys headers) headers.

Definition createFileUploadMiddleware (existingMiddleware : option RequestMiddleware)
    : RequestMiddleware :=
  fun request =>
    match (match existingMiddleware with
           | Some middleware => middleware request
           | None => Resolved request
           end) with
    | Rejected reason => Rejected reason
    | Resolved processedRequest =>
        let variables := variables processedRequest in
        let body := body processedRequest in
        if negb (truthy variables) || negb (hasFiles variables) then
          Resolved processedRequest
        else
          match body with
          | BodyValue (VStr body) =>
              match parsed_query body with
              | None => Resolved processedRequest
              | Some query =>
                  let extracted := extractFiles variables "variables" in
                  let formData :=
                    createMultipartFormData query (cleanedVariables extracted)
                                            (files extracted) in
                  let headers :=
                    match headers processedRequest with
                    | Some h => h
                    | None => []
                    end in
                  let headers := strip_content_type headers in
                  Resolved {| url := url processedRequest;
                              method := method processedRequest;
                              operationName := operationName processedRequest;
                              variables := variables;
                              headers := Some headers;
                              body := BodyFormData formData;
                              fetchOptions := fetchOptions processedRequest |}
              end
          | _ => Resolved processedRequest
          end
    end.

End FileUpload.

(** ** middleware/file-upload.ts, the earlier copy

    The earlier copy of the middleware, as a module of its own and as private
    methods of the earlier [api-client.ts], differs from the one above in two
    places: the content-type header is deleted under the two spellings
    [Content-Type] and [content-type] only, and the map and the parts are
    built with [files.forEach]. *)

Module Legacy.
Import JS FileUpload.

Definition createMultipartFormData (query : value) (variables : value)
    (files : list FileEntry) : FormData :=
  let formData := [] in
  let formData := FormData_append formData "query" query in
  let formData := FormData_append formData "variables" (JSON_stringify variables) in
  let indexed := combine (seq 0 (length files)) files in
  let map :=
    fold_left (fun map '(index, entry) =>
                 obj_assign (String_of_index index) (VArr [VStr (path entry)]) map)
              indexed [] in
  let formData := FormData_append formData "map" (JSON_stringify (VObj map)) in
  fold_left (fun formData '(index, entry) =>
               FormData_append formData (String_of_index index) (VFile (file entry)))
            indexed formData.

Definition createFileUploadMiddleware (existingMiddleware : option RequestMiddleware)
    : RequestMiddleware :=
  fun request =>
    match (match existingMiddleware with
           | Some middleware => middleware request
           | None => Resolved request
           end) with
    | Rejected reason => Rejected reason
    | Resolved processedRequest =>
        let variables := variables processedRequest in
        let body := body processedRequest in
        if truthy variables && hasFiles variables then
          match body with
          | BodyValue (VStr body) =>
              match parsed_query body with
              | None => Resolved processedRequest
              | Some query =>
                  let extracted := extractFiles variables "variables" in
                  let formData :=
                    createMultipartFormData query (cleanedVariables extracted)
                                            (files extracted) in
                  let headers :=
                    match headers processedRequest with
                    | Some h => h
                    | None => []
                    end in
                  let headers := obj_delete "Content-Type" headers in
                  let headers := obj_delete "content-type" headers in
                  Resolved {| url := url processedRequest;
                              method := method processedRequest;
                              operationName := operationName processedRequest;
                              variables := variables;
                              headers := Some headers;
                              body := BodyFormData formData;
                              fetchOptions := fetchOptions processedRequest |}
              end
          | _ => Resolved processedRequest
          end
        else Resolved processedRequest
    end.

End Legacy.

(** ** api-client.ts *)

Module ApiClient.
Import JS FileUpload.

(** *** Regular expressions

    The fragment the version pattern is written in: characters, the class
    [\d], concatenation and alternation. *)
Inductive regex :=
| RChar (c : ascii)
| RDigit
| REmpty
| RSeq (r1 r2 : regex)
| RAlt (r1 r2 : regex).

(** Backtracking matcher: [r] matches a prefix of [s] and [k] accepts the
    rest. *)
Fixpoint accept (r : regex) (s : string) (k : string -> bool) : bool :=
  match r with
  | RChar c =>
      match s with
      | String a s' => Ascii.eqb a c && k s'
      | EmptyString => false
      end
  | RDigit =>
      match s with
      | String a s' => is_digit a && k s'
      | EmptyString => false
      end
  | REmpty => k s
  | RSeq r1 r2 => accept r1 s (fun s' => accept r2 s' k)
  | RAlt r1 r2 => accept r1 s k || accept r2 s k
  end.

(** [/^r$/.test(s)]: without the [m] flag the anchors are the two ends of
    the input. *)
Definition RegExp_test (r : regex) (s : string) : bool :=
  accept r s (fun rest => rest =? "").

Fixpoint RLit (s : string) : regex :=
  match s with
  | EmptyString => REmpty
  | String c s' => RSeq (RChar c) (RLit s')
  end.

Fixpoint RRepeat (n : nat) (r : regex) : regex :=
  match n with
  | O => REmpty
  | S n' => RSeq r (RRepeat n' r)
  end.

(** The pattern between the anchors of [/^\d{4}-(01|04|07|10)$/]. *)
Definition version_regex : regex :=
  RSeq (RRepeat 4 RDigit)
       (RSeq (RChar "-")
             (RAlt (RLit "01") (RAlt (RLit "04") (RAlt (RLit "07") (RLit "10"))))).

Definition isValidApiVersion (version : string) : bool :=
  (version =? "dev") || RegExp_test version_regex version.

Definition INVALID_VERSION_MESSAGE : string :=
  "Invalid API version format. Expected format is 'yyyy-mm' with month as one of '01', '04', '07', or '10'.".

(** *** The request options schema *)

Record RequestOptions := {
  versionOverride : option string;
  timeout : option number
}.

Inductive ZodIssue :=
| invalid_type
| too_small
| too_big
| custom (message : string).

(** The value of a finite number. *)
Definition number_value (m e : Z) : Q :=
  if (0 <=? e)%Z then inject_Z (m * 10 ^ e)
  else Qmake m (Z.to_pos (10 ^ (- e))).

(** [x > 0] and [x <= bound] on numbers. *)
Definition number_positive (x : number) : bool :=
  match x with
  | Dec m e => negb (Qle_bool (number_value m e) 0)
  | PosInfinity => true
  | NaN | NegInfinity => false
  end.

Definition number_at_most (x : number) (bound : Z) : bool :=
  match x with
  | Dec m e => Qle_bool (number_value m e) (inject_Z bound)
  | NegInfinity => true
  | NaN | PosInfinity => false
  end.

(** [z.string().nonempty().optional().refine(version => !version ||
    isValidApiVersion(version), { message })] *)
Definition versionOverride_issues (v : option string) : list ZodIssue :=
  match v with
  | None => []
  | Some version =>
      (if version =? "" then [too_small] else []) ++
      (if (version =? "") || isValidApiVersion version then []
       else [custom INVALID_VERSION_MESSAGE])
  end.

(** [z.number().positive().max(60_000).optional()] *)
Definition timeout_issues (t : option number) : list ZodIssue :=
  match t with
  | None => []
  | Some NaN => [invalid_type]
  | Some x =>
      (if number_positive x then [] else [too_small]) ++
      (if number_at_most x 60000 then [] else [too_big])
  end.

Inductive Exception :=
| Error (message : string)
| ZodError (issues : list ZodIssue)
| Failure (reason : value).

(** [requestOptionsSchema.parse(options)] *)
Definition requestOptionsSchema_parse (options : RequestOptions)
    : Exception + RequestOptions :=
  match versionOverride_issues (versionOverride options) ++
        timeout_issues (timeout options) with
  | [] => inr options
  | issues => inl (ZodError issues)
  end.

(** *** The client *)

Record RequestConfig := {
  config_headers : option (list (string * string));
  config_requestMiddleware : option RequestMiddleware
}.

Record ApiClientConfig := {
  config_token : string;
  config_apiVersion : option string;
  config_endpoint : option string;
  config_requestConfig : option RequestConfig
}.

Record GraphQLClient := {
  client_endpoint : string;
  client_headers : list (string * string);
  client_requestMiddleware : RequestMiddleware
}.

Record ApiClient := {
  token : string;
  defaultApiVersion : string;
  defaultEndpoint : option string;
  requestConfig : RequestConfig;
  operations : GraphQLClient
}.

(** What a call does besides computing its result, in order. *)
Inductive Event :=
| NewGraphQLClient (client : GraphQLClient)
| SetTimeout (ms : number)
| Send (raw : bool) (client : GraphQLClient) (query : string) (variables : value)
       (signal : bool)
| ClearTimeout.

Section Client.
(** Constants and helpers of the package that the class imports. *)
Variable DEFAULT_VERSION : string.
Variable pkg_version : string.
Variable getApiEndpoint : option string -> string.

(** The transport: what [client.request] and [client.rawRequest] of
    graphql-request settle with. *)
Variable GraphQLClient_request :
  GraphQLClient -> string -> value -> bool -> Exception + value.
Variable GraphQLClient_rawRequest :
  GraphQLClient -> string -> value -> bool -> Exception + value.

(** [createClient(options)], from the fields of [this] it reads. *)
Definition createClient (token defaultApiVersion : string)
    (defaultEndpoint : option string) (requestConfig : RequestConfig)
    (options : option RequestOptions) : GraphQLClient :=
  let versionOverride :=
    match options with
    | Some o => versionOverride o
    | None => None
    end in
  let apiVersionToUse :=
    match versionOverride with
    | Some v => v
    | None => defaultApiVersion
    end in
  let endpoint := getApiEndpoint defaultEndpoint in
  let defaultHeaders :=
    [("Content-Type", "application/json");
     ("Authorization", token);
     ("API-Version", apiVersionToUse);
     ("Api-Sdk-Version", pkg_version)] in
  let mergedHeaders :=
    fold_left (fun merged '(k, v) => obj_set k v merged)
              (match config_headers requestConfig with
               | Some h => h
               | None => []
               end)
              defaultHeaders in
  {| client_endpoint := endpoint;
     client_headers := mergedHeaders;
     client_requestMiddleware :=
       createFileUploadMiddleware (config_requestMiddleware requestConfig) |}.

(** [new ApiClient(config)]: the events, and the instance or the exception
    thrown. *)
Definition constructor (config : ApiClientConfig)
    : list Event * (Exception + ApiClient) :=
  let token := config_token config in
  let apiVersion :=
    match config_apiVersion config with
    | Some v => v
    | None => DEFAULT_VERSION
    end in
  let endpoint := config_endpoint config in
  let requestConfig :=
    match config_requestConfig config with
    | Some c => c
    | None => {| config_headers := None; config_requestMiddleware := None |}
    end in
  if negb (isValidApiVersion apiVersion) then
    ([], inl (Error INVALID_VERSION_MESSAGE))
  else
    let defaultClient := createClient token apiVersion endpoint requestConfig None in
    ([NewGraphQLClient defaultClient],
     inr {| token := token;
            defaultApiVersion := apiVersion;
            defaultEndpoint := endpoint;
            requestConfig := requestConfig;
            operations := defaultClient |}).

(** [createAbortController(timeout)]: the timer armed, if any. *)
Definition createAbortController (timeout : option number) : option number :=
  match timeout with
  | None => None
  | Some (Dec 0 _) | Some NaN => None
  | Some t => Some t
  end.

(** [executeRequest(options, executor)] *)
Definition executeRequest (this : ApiClient) (options : option RequestOptions)
    (executor : GraphQLClient -> bool -> list Event * (Exception + value))
    : list Event * (Exception + value) :=
  match (match options with
         | Some o =>
             match requestOptionsSchema_parse o with
             | inl e => inl e
             | inr o' => inr (Some o')
             end
         | None => inr None
         end) with
  | inl e => ([], inl e)
  | inr validatedOptions =>
      let client :=
        createClient (token this) (defaultApiVersion this) (defaultEndpoint this)
                     (requestConfig this) validatedOptions in
      let timer :=
        createAbortController
          (match validatedOptions with
           | Some o => timeout o
           | None => None
           end) in
      let '(sent, result) :=
        executor client (match timer with Some _ => true | None => false end) in
      (NewGraphQLClient client ::
       match timer with
       | Some ms => SetTimeout ms :: sent ++ [ClearTimeout]
       | None => sent
       end,
       result)
  end.

(** [request(query, variables, options)] and
    [rawRequest(query, variables, options)] *)
Definition request (this : ApiClient) (query : string) (variables : value)
    (options : option RequestOptions) : list Event * (Exception + value) :=
  executeRequest this options
    (fun client signal =>
       ([Send false client query variables signal],
        GraphQLClient_request client query variables signal)).

Definition rawRequest (this : ApiClient) (query : string) (variables : value)
    (options : option RequestOptions) : list Event * (Exception + value) :=
  executeRequest this options
    (fun client signal =>
       ([Send true client query variables signal],
        GraphQLClient_rawRequest client query variables signal)).
End Client.

End ApiClient.

(** * Specification-side definitions *)

Module Spec.
Import JS FileUpload.

(** A step down a variables tree: into the property [k] of an object or
    into the element [i] of an array. *)
Inductive step :=
| Key (k : string)
| Index (i : nat).

(** What a step appends to a dotted path: [.key], or [.index] with the
    decimal numeral of the 0-based index. *)
Definition segment (s : step) : string :=
  match s with
  | Key k => "." +++ k
  | Index i => "." +++ String_of_index i
  end.

(** The dotted path: the root token with the segment of each step appended,
    from the first step down to the last. *)
Definition dotted (root : string) (steps : list step) : string :=
  fold_left (fun p s => p +++ segment s) steps root.

(** [leaf_at v steps f]: following [steps] from [v] leads to the binary
    payload leaf [f]. *)
Inductive leaf_at : value -> list step -> Blob -> Prop :=
| leaf_here f : leaf_at (VFile f) [] f
| leaf_item items i x steps f :
    nth_error items i = Some x -> leaf_at x steps f ->
    leaf_at (VArr items) (Index i :: steps) f
| leaf_prop props k x steps f :
    In (k, x) props -> leaf_at x steps f ->
    leaf_at (VObj props) (Key k :: steps) f.

(** At least one node of the tree is a binary payload leaf. *)
Definition contains_file (v : value) : Prop :=
  exists steps f, leaf_at v steps f.

(** The depth-first traversal of the specification: the leaves under [v]
    with their paths, array elements by ascending index and object entries
    in the order of the object. *)
Fixpoint leaves (v : value) (p : string) : list FileEntry :=
  match v with
  | VFile f => [{| path := p; file := f |}]
  | VArr items =>
      (fix elements (l : list value) (i : nat) : list FileEntry :=
         match l with
         | [] => []
         | x :: l' => leaves x (p +++ "." +++ String_of_index i) ++ elements l' (S i)
         end) items 0
  | VObj props =>
      (fix entries (l : list (string * value)) : list FileEntry :=
         match l with
         | [] => []
         | (k, x) :: l' => leaves x (p +++ "." +++ k) ++ entries l'
         end) props
  | _ => []
  end.

(** A scalar of a variables tree. *)
Definition scalar (v : value) : Prop :=
  match v with
  | VUndefined | VNull | VBool _ | VNum _ | VStr _ => True
  | VFile _ | VArr _ | VObj _ => False
  end.

(** [cleaned v v']: [v'] has the shape of [v], the same scalars, and [null]
    where [v] has a binary payload leaf. *)
#[local] Unset Elimination Schemes.
Inductive cleaned : value -> value -> Prop :=
| cleaned_leaf f : cleaned (VFile f) VNull
| cleaned_scalar v : scalar v -> cleaned v v
| cleaned_array items items' :
    Forall2 cleaned items items' -> cleaned (VArr items) (VArr items')
| cleaned_object props props' :
    Forall2 (fun kv kv' => fst kv = fst kv' /\ cleaned (snd kv) (snd kv'))
            props props' ->
    cleaned (VObj props) (VObj props').
#[local] Set Elimination Schemes.

(** The extraction map of the specification: entry [i] of the list under
    the decimal string of [i], as the one-element list of its path. *)
Definition extraction_map (files : list FileEntry) : list (string * value) :=
  map (fun ie => (String_of_index (fst ie), VArr [VStr (path (snd ie))]))
      (combine (seq 0 (length files)) files).

(** Two header names are equal up to the case of their letters. *)
Fixpoint same_name (a b : string) : Prop :=
  match a, b with
  | EmptyString, EmptyString => True
  | String x a', String y b' =>
      (x = y \/
       (is_upper x = true /\ N_of_ascii y = (N_of_ascii x + 32)%N) \/
       (is_upper y = true /\ N_of_ascii x = (N_of_ascii y + 32)%N)) /\
      same_name a' b'
  | _, _ => False
  end.

(** The version format [yyyy-mm] with the month one of 01, 04, 07, 10. *)
Definition version_format (s : string) : Prop :=
  exists y1 y2 y3 y4 mm,
    is_digit y1 = true /\ is_digit y2 = true /\
    is_digit y3 = true /\ is_digit y4 = true /\
    In mm ["01"; "04"; "07"; "10"] /\
    s = String y1 (String y2 (String y3 (String y4 ("-" +++ mm)))).

(** The middleware transforms the request it processes: the variables hold
    a file, and the body is a string from which a query can be read. *)
Definition transforms (r : Request) : bool :=
  truthy (variables r) && hasFiles (variables r) &&
  match body r with
  | BodyValue (VStr b) =>
      match parsed_query b with
      | Some _ => true
      | None => false
      end
  | _ => false
  end.

End Spec.

(** * Definitions used in the statements and the proofs *)

Import JS FileUpload Spec ApiClient.

(** Induction over values, with the induction hypothesis for every element
    of an array and every property value of an object. *)
Section ValueInduction.
Variable P : value -> Prop.
Hypothesis Hundefined : P VUndefined.
Hypothesis Hnull : P VNull.
Hypothesis Hbool : forall b, P (VBool b).
Hypothesis Hnum : forall n, P (VNum n).
Hypothesis Hstr : forall s, P (VStr s).
Hypothesis Hfile : forall f, P (VFile f).
Hypothesis Harr : forall items, Forall P items -> P (VArr items).
Hypothesis Hobj :
  forall props, Forall (fun kv => P (snd kv)) props -> P (VObj props).

Fixpoint value_ind (v : value) : P v :=
  match v with
  | VUndefined => Hundefined
  | VNull => Hnull
  | VBool b => Hbool b
  | VNum n => Hnum n
  | VStr s => Hstr s
  | VFile f => Hfile f
  | VArr items =>
      Harr items
        ((fix all (l : list value) : Forall P l :=
            match l with
            | [] => Forall_nil P
            | x :: l' => Forall_cons x (value_ind x) (all l')
            end) items)
  | VObj props =>
      Hobj props
        ((fix all (l : list (string * value)) : Forall (fun kv => P (snd kv)) l :=
            match l with
            | [] => Forall_nil _
            | kv :: l' => Forall_cons kv (value_ind (snd kv)) (all l')
            end) props)
  end.
End ValueInduction.

(** The two loops of [processValue], by name. *)
Section Loops.
Variable p : string.

Fixpoint process_items (l : list value) (index : nat)
    (fs : list FileEntry) : list value * list FileEntry :=
  match l with
  | [] => ([], fs)
  | item :: l' =>
      let '(item', fs) :=
        processValue item (p +++ "." +++ String_of_index index) fs in
      let '(rest, fs) := process_items l' (S index) fs in
      (item' :: rest, fs)
  end.

Fixpoint process_entries (entries : list (string * value))
    (result : list (string * value)) (fs : list FileEntry)
    : list (string * value) * list FileEntry :=
  match entries with
  | [] => (result, fs)
  | (key, val) :: entries' =>
      let '(val', fs) := processValue val (p +++ "." +++ key) fs in
      process_entries entries' (obj_assign key val' result) fs
  end.

Fixpoint leaves_items (l : list value) (i : nat) : list FileEntry :=
  match l with
  | [] => []
  | x :: l' => leaves x (p +++ "." +++ String_of_index i) ++ leaves_items l' (S i)
  end.

Fixpoint leaves_entries (l : list (string * value)) : list FileEntry :=
  match l with
  | [] => []
  | (k, x) :: l' => leaves x (p +++ "." +++ k) ++ leaves_entries l'
  end.
End Loops.

(** The tree with [null] at each binary payload leaf. *)
Fixpoint nullify (v : value) : value :=
  match v with
  | VFile _ => VNull
  | VArr items => VArr (map nullify items)
  | VObj props => VObj (map (fun kv => (fst kv, nullify (snd kv))) props)
  | _ => v
  end.

(** No object of the tree has an own property named [__proto__]. *)
Fixpoint plain_keys (v : value) : bool :=
  match v with
  | VArr items => forallb plain_keys items
  | VObj props =>
      forallb (fun kv => negb (fst kv =? "__proto__") && plain_keys (snd kv)) props
  | _ => true
  end.

(** Two trees that show every kind of node. *)
Definition fileA : Blob :=
  {| blob_name := Some "a.txt"; blob_type := "text/plain"; blob_bytes := [] |}.

Definition fileB : Blob :=
  {| blob_name := None; blob_type := "image/png"; blob_bytes := [] |}.

(** A tree with an own property named [__proto__], as [JSON.parse] and a
    literal with a computed key make them. *)
Definition proto_tree : value :=
  VObj [("__proto__", VObj [("doc", VFile fileA)]);
        ("title", VStr "report")].

Definition mixed_tree : value :=
  VObj [("title", VStr "report");
        ("files", VArr [VFile fileA; VNum (Dec 7 0); VFile fileB]);
        ("input", VObj [("attachment", VObj [("file", VFile fileA);
                                            ("keep", VBool true)]);
                        ("note", VNull)])].

Definition plain_tree : value :=
  VObj [("ids", VArr [VNum (Dec 1 0); VNum (Dec 2 0)]);
        ("filter", VObj [("name", VStr "x"); ("active", VBool false)])].

(** The local variable [map] of [createMultipartFormData]. *)
Definition encoder_map (files : list FileEntry) : list (string * value) :=
  fold_left (fun map '(index, entry) => obj_assign index (VArr [VStr (path entry)]) map)
            (Array_entries files) [].

Definition indexed {A : Type} (a : nat) (l : list A) : list (nat * A) :=
  combine (seq a (length l)) l.

(** The binary parts of the form: entry [i] under the decimal string of
    [i], holding the [File] of its leaf. *)
Definition binary_parts (files : list FileEntry) : FormData :=
  map (fun ie => (String_of_index (fst ie), Binary (File_of (file (snd ie)))))
      (indexed 0 files).

Definition is_binary (entry : string * FormDataEntryValue) : bool :=
  match snd entry with
  | Binary _ => true
  | Text _ => false
  end.

Definition is_content_type (key : string) : bool :=
  toLowerCase key =? "content-type".

(** The request the middleware works on: the result of the chained
    middleware, or the request itself. *)
Definition run_existing (existingMiddleware : option RequestMiddleware)
    (request : Request) : Promise Request :=
  match existingMiddleware with
  | Some middleware => middleware request
  | None => Resolved request
  end.

(** [request.headers[name]] *)
Definition header (r : Request) (name : string) : option string :=
  match headers r with
  | Some h => obj_get name h
  | None => None
  end.

(** The request returned in the Transformed state. *)
Definition multipart_request (processed : Request) (query : value) : Request :=
  let extracted := extractFiles (variables processed) "variables" in
  {| url := url processed;
     method := method processed;
     operationName := operationName processed;
     variables := variables processed;
     headers := Some (strip_content_type
                        (match headers processed with
                         | Some h => h
                         | None => []
                         end));
     body := BodyFormData
               (createMultipartFormData query (cleanedVariables extracted)
                                        (files extracted));
     fetchOptions := fetchOptions processed |}.

(** The value parsed from the body has no property [query]. *)
Definition no_query_field (parsed : value) : Prop :=
  match parsed with
  | VObj props => obj_get "query" props = None
  | _ => True
  end.

Definition upload_request (b : Body) : Request :=
  {| url := "https://api.monday.com/v2";
     method := "POST";
     operationName := None;
     variables := VObj [("file", VFile fileA)];
     headers := Some [("Content-Type", "application/json");
                      ("Authorization", "token");
                      ("API-Version", "2024-10")];
     body := b;
     fetchOptions := [] |}.

Definition json_body : Body :=
  BodyValue (VStr (quoted "{'query':'mutation ($file: File!) { add_file (file: $file) { id } }','variables':{'file':null}}")).

Definition upper_case_request : Request :=
  {| url := "https://api.monday.com/v2";
     method := "POST";
     operationName := None;
     variables := VObj [("file", VFile fileA)];
     headers := Some [("CONTENT-TYPE", "application/json");
                      ("Authorization", "token")];
     body := json_body;
     fetchOptions := [] |}.

Definition is_Send (ev : Event) : bool :=
  match ev with
  | Send _ _ _ _ _ => true
  | _ => false
  end.



(** ** Own-property order *)

(** The key of the entry is an array index. *)
Definition index_key {A : Type} (kv : string * A) : bool :=
  match array_index (fst kv) with
  | Some _ => true
  | None => false
  end.

(** The keys are in own-property order: none of them precedes a key that
    is before it in the list, so the array indices come first, in ascending
    order. *)
Fixpoint own_order (keys : list string) : bool :=
  match keys with
  | [] => true
  | k :: keys' =>
      forallb (fun k' => negb (key_precedes k' k)) keys' && own_order keys'
  end.

(** ** Strings without a lone surrogate *)

(** Every byte of the string is below 128. *)
Fixpoint seven_bit (s : string) : bool :=
  match s with
  | EmptyString => true
  | String c s' => (N_of_ascii c <? 128)%N && seven_bit s'
  end.

(** The string has no surrogate without partner. *)
Fixpoint lone_free (s : string) : bool :=
  match s with
  | EmptyString => true
  | String a s1 =>
      match s1 with
      | String b (String c s3) =>
          if high_surrogate_bytes a b c then
            match s3 with
            | String a' (String b' (String c' s6)) =>
                low_surrogate_bytes a' b' c' && lone_free s6
            | _ => false
            end
          else negb (low_surrogate_bytes a b c) && lone_free s1
      | _ => lone_free s1
      end
  end.

(** A high surrogate without partner, as a string. *)
Definition lone_surrogate : string :=
  String (ascii_of_N 237) (String (ascii_of_N 160) (String (ascii_of_N 128) "")).

(** The conversion to a [USVString] leaves the text [t] as it is, whatever
    follows it. *)
Definition usv_stable (t : string) : Prop :=
  forall r, USVString (t +++ r) = t +++ USVString r.

(** The string starts with the bytes of a surrogate, of a low surrogate. *)
Definition starts_surrogate (s : string) : bool :=
  match s with
  | String a (String b (String c _)) =>
      high_surrogate_bytes a b c || low_surrogate_bytes a b c
  | _ => false
  end.

Definition starts_low (s : string) : bool :=
  match s with
  | String a (String b (String c _)) => low_surrogate_bytes a b c
  | _ => false
  end.

(** The first item of a string literal is a low surrogate. *)
Definition head_low (items : list str_item) : bool :=
  match items with
  | Unit16 u :: _ => is_low_surrogate u
  | _ => false
  end.

(** What the bytes 237, [nb], [nc] of a surrogate have to do with its code
    unit [u]: the escape of [u] is made of bytes below 128 and is read back
    as [u], the encoding of [u] is the three bytes, and [u] is a high
    surrogate for [nb] up to 175 and a low one above. *)
Definition surrogate_check (nb nc : N) : bool :=
  let u := (53248 + (nb - 128) * 64 + (nc - 128))%N in
  seven_bit (escape_unit u) &&
  match escape_unit u with
  | String e0 (String e1 (String h1 (String h2 (String h3 (String h4 EmptyString))))) =>
      Ascii.eqb e0 backslash && Ascii.eqb e1 "u" &&
      match hex4 h1 h2 h3 h4 with
      | Some u' => (u' =? u)%N
      | None => false
      end
  | _ => false
  end &&
  (utf8_encode u =?
   String (ascii_of_N 237) (String (ascii_of_N nb) (String (ascii_of_N nc) ""))) &&
  Bool.eqb (is_high_surrogate u) (nb <=? 175)%N &&
  Bool.eqb (is_low_surrogate u) (176 <=? nb)%N.

Definition byte_range (first : nat) (count : nat) : list N :=
  map N.of_nat (seq first count).

(** * Definitions used in the further properties *)

(** A key without a dot, and a tree none of whose object keys has one. *)
Fixpoint dot_free_string (s : string) : bool :=
  match s with
  | EmptyString => true
  | String c s' => negb (Ascii.eqb c ".") && dot_free_string s'
  end.

Fixpoint dot_free (v : value) : bool :=
  match v with
  | VArr items => forallb dot_free items
  | VObj props =>
      forallb (fun kv => dot_free_string (fst kv) && dot_free (snd kv)) props
  | _ => true
  end.

(** Nothing, or something that starts with a dot: what follows a node's own
    path in the path of a leaf below it. *)
Definition dotted_tail (t : string) : Prop :=
  t = "" \/ exists t', t = String "." t'.


(** A package environment and an instance to run the client on. *)
Definition endpoint_or_default (endpoint : option string) : string :=
  match endpoint with
  | Some e => e
  | None => "https://api.monday.com/v2"
  end.

Definition echo_transport (client : GraphQLClient) (query : string)
    (variables : value) (signal : bool) : Exception + value :=
  inr variables.

Definition sample_config : ApiClientConfig :=
  {| config_token := "token";
     config_apiVersion := Some "2024-10";
     config_endpoint := None;
     config_requestConfig :=
       Some {| config_headers := Some [("X-Trace", "1")];
               config_requestMiddleware := None |} |}.

Definition sample_instance : ApiClient :=
  {| token := "token";
     defaultApiVersion := "2024-10";
     defaultEndpoint := None;
     requestConfig := {| config_headers := Some [("X-Trace", "1")];
                         config_requestMiddleware := None |};
     operations :=
       createClient "1.0.0" endpoint_or_default "token" "2024-10" None
         {| config_headers := Some [("X-Trace", "1")];
            config_requestMiddleware := None |} None |}.

(** The text of a value inside an array, or at the top: [undefined] is
    written as [null] there. *)
Definition serialized (v : value) : string :=
  match SerializeJSONProperty v with
  | Some t => t
  | None => "null"
  end.

(** A number is in canonical form when it is the representation the parser
    builds for its own text. *)
Definition canonical_number (m e : Z) : bool :=
  match parse_number (Number_toString m e) with
  | Some (Dec m' e', EmptyString) => ((m' =? m) && (e' =? e))%Z
  | _ => false
  end.

Fixpoint canonical_numbers (v : value) : bool :=
  match v with
  | VNum (Dec m e) => canonical_number m e
  | VArr items => forallb canonical_numbers items
  | VObj props => forallb (fun kv => canonical_numbers (snd kv)) props
  | _ => true
  end.

(** What [JSON.stringify] keeps of a value: [undefined] and the numbers
    that are not finite become [null] inside an array, a property whose
    value is [undefined] is left out, and a [Blob] becomes an empty
    object. *)
Fixpoint toJSON (v : value) : value :=
  match v with
  | VUndefined => VNull
  | VNum (Dec _ _) => v
  | VNum _ => VNull
  | VFile _ => VObj []
  | VArr items => VArr (map toJSON items)
  | VObj props =>
      VObj (flat_map (fun kv => match snd kv with
                                | VUndefined => []
                                | _ => [(fst kv, toJSON (snd kv))]
                                end) props)
  | _ => v
  end.

(** A value that [JSON.stringify] writes in full: it has no [undefined], no
    number that is not finite and no [Blob]. *)
Fixpoint plain_json (v : value) : bool :=
  match v with
  | VUndefined | VFile _ => false
  | VNum (Dec _ _) => true
  | VNum _ => false
  | VArr items => forallb plain_json items
  | VObj props => forallb (fun kv => plain_json (snd kv)) props
  | _ => true
  end.

(** What may follow a value in a JSON text: nothing, a comma, or a closing
    bracket or brace. *)
Definition delimited (rest : string) : bool :=
  match rest with
  | EmptyString => true
  | String c _ => Ascii.eqb c "," || Ascii.eqb c "]" || Ascii.eqb c "}"
  end.

(** The text of a value, followed by a delimiter, is read back as what
    [JSON.stringify] keeps of the value, with any fuel that suffices. *)
Definition reads_back (v : value) : Prop :=
  canonical_numbers v = true ->
  well_formed v = true ->
  forall fuel rest,
    delimited rest = true ->
    parse_value fuel (serialized v +++ rest) = OutOfFuel \/
    parse_value fuel (serialized v +++ rest) = Parsed (toJSON v) rest.

(** The properties [JSON.stringify] writes, the text of one of them, and
    the property read back. *)
Definition defined (v : value) : bool :=
  match v with
  | VUndefined => false
  | _ => true
  end.

Definition written (props : list (string * value)) : list (string * value) :=
  filter (fun kv => defined (snd kv)) props.

Definition member_text (kv : string * value) : string :=
  QuoteJSONString (fst kv) +++ ":" +++ serialized (snd kv).

Definition member_read (kv : string * value) : string * value :=
  (fst kv, toJSON (snd kv)).

(** The body the request layer writes for a query and its variables, the
    files of which [JSON.stringify] has written as empty objects. *)
Definition graphql_body (query : string) (variables : value) : Body :=
  BodyValue (VStr (serialized (VObj [("query", VStr query);
                                     ("variables", variables)]))).
(** * Proofs *)

(** ** Strings and surrogates *)

Lemma append_assoc (a b c : string) : (a +++ b) +++ c = a +++ (b +++ c).
Proof. induction a as [| x a IH]; simpl; [reflexivity | now rewrite IH]. Qed.

Lemma append_nil_r (a : string) : a +++ "" = a.
Proof. induction a as [| x a IH]; simpl; [reflexivity | now rewrite IH]. Qed.

Lemma surrogate_table :
  forallb (fun nb => forallb (surrogate_check nb) (byte_range 128 64))
          (byte_range 160 32) = true.
Proof. vm_compute. reflexivity. Qed.

Lemma byte_range_In (n : N) (first count : nat) :
  (N.of_nat first <= n)%N -> (n < N.of_nat (first + count))%N ->
  In n (byte_range first count).
Proof.
  intros H1 H2. unfold byte_range.
  rewrite <- (N2Nat.id n). apply in_map. apply in_seq. lia.
Qed.

(** The bytes of a surrogate are in the ranges of the table. *)
Lemma surrogate_bytes (a b c : ascii) :
  high_surrogate_bytes a b c || low_surrogate_bytes a b c = true ->
  N_of_ascii a = 237%N /\
  (160 <= N_of_ascii b)%N /\ (N_of_ascii b <= 191)%N /\
  (128 <= N_of_ascii c)%N /\ (N_of_ascii c <= 191)%N /\
  high_surrogate_bytes a b c = (N_of_ascii b <=? 175)%N /\
  low_surrogate_bytes a b c = (176 <=? N_of_ascii b)%N.
Proof.
  unfold high_surrogate_bytes, low_surrogate_bytes, is_continuation. cbv zeta.
  intros H.
  destruct (N_of_ascii a =? 237)%N eqn:Ea; [| discriminate].
  apply N.eqb_eq in Ea.
  destruct ((128 <=? N_of_ascii c)%N && (N_of_ascii c <=? 191)%N) eqn:Ec;
    [| now rewrite !andb_false_r in H].
  apply andb_prop in Ec. destruct Ec as [Ec1 Ec2].
  apply N.leb_le in Ec1, Ec2.
  rewrite !andb_true_r in *. cbn [andb] in *.
  destruct (160 <=? N_of_ascii b)%N eqn:E1; destruct (N_of_ascii b <=? 175)%N eqn:E2;
    destruct (176 <=? N_of_ascii b)%N eqn:E3; destruct (N_of_ascii b <=? 191)%N eqn:E4;
    cbn [andb orb] in *; try discriminate;
    try apply N.leb_le in E1; try apply N.leb_le in E2;
    try apply N.leb_le in E3; try apply N.leb_le in E4;
    try apply N.leb_gt in E1; try apply N.leb_gt in E2;
    try apply N.leb_gt in E3; try apply N.leb_gt in E4;
    repeat split; lia.
Qed.

Lemma surrogate_checked (a b c : ascii) :
  high_surrogate_bytes a b c || low_surrogate_bytes a b c = true ->
  surrogate_check (N_of_ascii b) (N_of_ascii c) = true.
Proof.
  intros H. destruct (surrogate_bytes a b c H) as (_ & H1 & H2 & H3 & H4 & _).
  pose proof surrogate_table as T.
  rewrite forallb_forall in T.
  specialize (T (N_of_ascii b) (byte_range_In _ 160 32 H1 ltac:(simpl; lia))).
  rewrite forallb_forall in T.
  exact (T (N_of_ascii c) (byte_range_In _ 128 64 H3 ltac:(simpl; lia))).
Qed.

(** The three cases of the two scans: a pair, a surrogate without partner,
    any other byte. *)
Lemma USVString_cases (a : ascii) (s1 : string) :
  (exists b c a' b' c' s6,
      s1 = String b (String c (String a' (String b' (String c' s6)))) /\
      high_surrogate_bytes a b c = true /\
      low_surrogate_bytes a' b' c' = true /\
      USVString (String a s1) =
        String a (String b (String c
          (String a' (String b' (String c' (USVString s6))))))) \/
  (exists b c s3,
      s1 = String b (String c s3) /\
      (high_surrogate_bytes a b c = true /\ starts_low s3 = false \/
       high_surrogate_bytes a b c = false /\ low_surrogate_bytes a b c = true) /\
      USVString (String a s1) = replacement +++ USVString s3) \/
  (starts_surrogate (String a s1) = false /\
   USVString (String a s1) = String a (USVString s1)).
Proof.
  destruct s1 as [| b [| c s3]]; [right; right; split; reflexivity .. |].
  cbn [USVString starts_surrogate].
  destruct (high_surrogate_bytes a b c) eqn:Eh.
  - destruct s3 as [| a' [| b' [| c' s6]]];
      try (right; left; exists b, c; eexists; split; [reflexivity |];
           split; [left; split; [assumption | reflexivity] | reflexivity]).
    destruct (low_surrogate_bytes a' b' c') eqn:El.
    + left. exists b, c, a', b', c', s6. repeat split; assumption.
    + right. left. exists b, c. eexists. split; [reflexivity |].
      split; [left; split; [assumption | exact El] | reflexivity].
  - destruct (low_surrogate_bytes a b c) eqn:El.
    + right. left. exists b, c, s3. split; [reflexivity |].
      split; [right; split; assumption | reflexivity].
    + right. right. split; reflexivity.
Qed.

Lemma quote_chars_cases (a : ascii) (s1 : string) :
  (exists b c a' b' c' s6,
      s1 = String b (String c (String a' (String b' (String c' s6)))) /\
      high_surrogate_bytes a b c = true /\
      low_surrogate_bytes a' b' c' = true /\
      quote_chars (String a s1) =
        String a (String b (String c
          (String a' (String b' (String c' (quote_chars s6))))))) \/
  (exists b c s3,
      s1 = String b (String c s3) /\
      (high_surrogate_bytes a b c = true /\ starts_low s3 = false \/
       high_surrogate_bytes a b c = false /\ low_surrogate_bytes a b c = true) /\
      quote_chars (String a s1) = escape_unit (code_unit b c) +++ quote_chars s3) \/
  (starts_surrogate (String a s1) = false /\
   quote_chars (String a s1) = quote_char a +++ quote_chars s1).
Proof.
  destruct s1 as [| b [| c s3]]; [right; right; split; reflexivity .. |].
  cbn [quote_chars starts_surrogate].
  destruct (high_surrogate_bytes a b c) eqn:Eh.
  - destruct s3 as [| a' [| b' [| c' s6]]];
      try (right; left; exists b, c; eexists; split; [reflexivity |];
           split; [left; split; [assumption | reflexivity] | reflexivity]).
    destruct (low_surrogate_bytes a' b' c') eqn:El.
    + left. exists b, c, a', b', c', s6. repeat split; assumption.
    + right. left. exists b, c. eexists. split; [reflexivity |].
      split; [left; split; [assumption | exact El] | reflexivity].
  - destruct (low_surrogate_bytes a b c) eqn:El.
    + right. left. exists b, c, s3. split; [reflexivity |].
      split; [right; split; assumption | reflexivity].
    + right. right. split; reflexivity.
Qed.

(** A byte that is not 237 starts no surrogate. *)
Lemma USVString_other (a : ascii) (s : string) :
  N_of_ascii a <> 237%N -> USVString (String a s) = String a (USVString s).
Proof.
  intros Ha.
  destruct (USVString_cases a s)
    as [(b & c & a' & b' & c' & s6 & _ & Hh & _) | [(b & c & s3 & _ & Hs & _) | [_ H]]];
    [| | exact H]; exfalso; apply Ha.
  - apply (surrogate_bytes a b c). now rewrite Hh.
  - apply (surrogate_bytes a b c). destruct Hs as [[-> _] | [_ ->]]; [reflexivity |].
    apply orb_true_r.
Qed.

Lemma seven_bit_stable (t : string) : seven_bit t = true -> usv_stable t.
Proof.
  induction t as [| c t IH]; intros H r; [reflexivity |].
  cbn [seven_bit] in H. apply andb_prop in H. destruct H as [Hc Ht].
  apply N.ltb_lt in Hc. cbn [append].
  rewrite USVString_other by lia. now rewrite (IH Ht).
Qed.

Lemma usv_stable_app (a b : string) :
  usv_stable a -> usv_stable b -> usv_stable (a +++ b).
Proof. intros Ha Hb r. now rewrite append_assoc, Ha, Hb, append_assoc. Qed.

Lemma usv_stable_concat (sep : string) (l : list string) :
  usv_stable sep -> Forall usv_stable l -> usv_stable (String.concat sep l).
Proof.
  intros Hsep. induction 1 as [| x l Hx Hl IH]; [intros r; reflexivity |].
  destruct l as [| y l]; [exact Hx |].
  change (usv_stable (x +++ sep +++ String.concat sep (y :: l))).
  auto using usv_stable_app.
Qed.

(** The conversion leaves a string without lone surrogate as it is. *)
Lemma lone_free_length (n : nat) :
  forall s, String.length s <= n -> lone_free s = true -> USVString s = s.
Proof.
  induction n as [| n IH]; intros s Hn H.
  - destruct s; [reflexivity | simpl in Hn; lia].
  - destruct s as [| a s1]; [reflexivity |].
    cbn [String.length] in Hn.
    destruct (USVString_cases a s1)
      as [(b & c & a' & b' & c' & s6 & -> & Hh & Hl & E)
         | [(b & c & s3 & -> & Hs & E) | [Hp E]]];
      rewrite E.
    + do 6 f_equal. apply IH; [cbn [String.length] in Hn; lia |].
      change (lone_free (String a (String b (String c (String a' (String b' (String c' s6)))))))
        with (if high_surrogate_bytes a b c
              then low_surrogate_bytes a' b' c' && lone_free s6
              else negb (low_surrogate_bytes a b c) &&
                   lone_free (String b (String c (String a' (String b' (String c' s6))))))
        in H.
      rewrite Hh, Hl in H. exact H.
    + exfalso.
      change (lone_free (String a (String b (String c s3))))
        with (if high_surrogate_bytes a b c
              then match s3 with
                   | String a' (String b' (String c' s6)) =>
                       low_surrogate_bytes a' b' c' && lone_free s6
                   | _ => false
                   end
              else negb (low_surrogate_bytes a b c) &&
                   lone_free (String b (String c s3)))
        in H.
      destruct Hs as [[Hh Hl] | [Hh Hl]]; rewrite Hh in H.
      * destruct s3 as [| a' [| b' [| c' s6]]]; try discriminate.
        cbn [starts_low] in Hl. rewrite Hl in H. discriminate.
      * rewrite Hl in H. discriminate.
    + f_equal. apply IH; [lia |].
      destruct s1 as [| b [| c s3]]; try exact H.
      cbn [starts_surrogate] in Hp. apply orb_false_elim in Hp.
      destruct Hp as [Hh Hl].
      change (lone_free (String a (String b (String c s3))))
        with (if high_surrogate_bytes a b c
              then match s3 with
                   | String a' (String b' (String c' s6)) =>
                       low_surrogate_bytes a' b' c' && lone_free s6
                   | _ => false
                   end
              else negb (low_surrogate_bytes a b c) &&
                   lone_free (String b (String c s3)))
        in H.
      rewrite Hh, Hl in H. exact H.
Qed.

Lemma lone_free_fixed (s : string) : lone_free s = true -> USVString s = s.
Proof. apply (lone_free_length (String.length s)), Nat.le_refl. Qed.

Lemma usv_stable_fixed (t : string) : usv_stable t -> USVString t = t.
Proof.
  intros H. specialize (H ""). cbn [USVString] in H.
  now rewrite !append_nil_r in H.
Qed.

(** *** The texts of numbers are made of bytes below 128 *)

Lemma seven_bit_app (a b : string) :
  seven_bit (a +++ b) = seven_bit a && seven_bit b.
Proof.
  induction a as [| c a IH]; [reflexivity |]. cbn [append seven_bit].
  now rewrite IH, andb_assoc.
Qed.

Lemma seven_bit_substring (s : string) :
  seven_bit s = true -> forall n m, seven_bit (substring n m s) = true.
Proof.
  induction s as [| c s IH]; intros H n m.
  - destruct n, m; reflexivity.
  - cbn [seven_bit] in H. apply andb_prop in H. destruct H as [Hc Hs].
    destruct n as [| n]; [destruct m as [| m] |]; cbn [substring seven_bit];
      [reflexivity | rewrite Hc; now apply IH | now apply IH].
Qed.

Lemma seven_bit_zeros (n : nat) : seven_bit (zeros n) = true.
Proof. induction n; [reflexivity | exact IHn]. Qed.

Lemma seven_bit_numeral (d : Decimal.uint) :
  seven_bit (NilEmpty.string_of_uint d) = true.
Proof. induction d; cbn [NilEmpty.string_of_uint seven_bit]; auto. Qed.

Lemma seven_bit_Number_toString (m e : Z) :
  seven_bit (Number_toString m e) = true.
Proof.
  unfold Number_toString, digits_of_N.
  repeat match goal with
         | |- context [if ?b then _ else _] => destruct b
         end;
    rewrite ?seven_bit_app, ?seven_bit_zeros, ?seven_bit_numeral,
      ?seven_bit_substring by apply seven_bit_numeral;
    reflexivity.
Qed.

Lemma USVString_String_of_index (i : nat) :
  USVString (String_of_index i) = String_of_index i.
Proof. apply usv_stable_fixed, seven_bit_stable, seven_bit_numeral. Qed.

(** *** The text of a string has no surrogate without partner *)

(** A character is written as it is or as an escape. *)
Lemma quote_char_cases (a : ascii) :
  quote_char a = String a "" \/
  (seven_bit (quote_char a) = true /\
   exists t, quote_char a = String backslash t).
Proof.
  destruct a as [[|] [|] [|] [|] [|] [|] [|] [|]];
    (left; reflexivity) ||
    (right; split; [reflexivity | eexists; reflexivity]).
Qed.

Lemma seven_bit_escape_unit (a b c : ascii) :
  high_surrogate_bytes a b c || low_surrogate_bytes a b c = true ->
  seven_bit (escape_unit (code_unit b c)) = true /\
  exists t, escape_unit (code_unit b c) = String backslash t.
Proof.
  intros H. apply surrogate_checked in H. unfold surrogate_check in H.
  cbv zeta in H. fold (code_unit b c) in H.
  split; [| eexists; reflexivity].
  now destruct (seven_bit (escape_unit (code_unit b c))).
Qed.

(** When the text of a string starts with a byte from 128 to 191, the
    string starts with it, and the text goes on with that of the rest. *)
Lemma quote_chars_raw_head (s r : string) (h : ascii) (t : string) :
  quote_chars s +++ String dquote r = String h t ->
  (128 <= N_of_ascii h)%N -> (N_of_ascii h <= 191)%N ->
  exists s', s = String h s' /\ t = quote_chars s' +++ String dquote r.
Proof.
  intros H H1 H2. destruct s as [| a s1].
  - injection H as <- _. cbn in H1. lia.
  - destruct (quote_chars_cases a s1)
      as [(b & c & a' & b' & c' & s6 & _ & Hh & _ & E)
         | [(b & c & s3 & _ & Hs & E) | [_ E]]];
      rewrite E in H.
    + injection H as <- _. exfalso.
      assert (Ha : N_of_ascii a = 237%N)
        by (apply (surrogate_bytes a b c); now rewrite Hh).
      lia.
    + exfalso.
      assert (Hsur : high_surrogate_bytes a b c || low_surrogate_bytes a b c = true)
        by (destruct Hs as [[-> _] | [_ ->]]; [reflexivity | apply orb_true_r]).
      destruct (seven_bit_escape_unit a b c Hsur) as (_ & t0 & Et).
      rewrite Et in H. injection H as <- _. cbn in H1. lia.
    + destruct (quote_char_cases a) as [Ea | (_ & t0 & Ea)]; rewrite Ea in H.
      * injection H as <- <-. now exists s1.
      * exfalso. injection H as <- _. cbn in H1. lia.
Qed.

(** The conversion leaves the text of a string with its closing quote as it
    is, whatever follows. *)
Lemma USVString_quote_chars (n : nat) :
  forall s, String.length s <= n ->
  forall r, USVString (quote_chars s +++ String dquote r) =
            quote_chars s +++ String dquote (USVString r).
Proof.
  induction n as [| n IH]; intros s Hn r.
  - destruct s; [| simpl in Hn; lia].
    cbn [quote_chars append]. now rewrite USVString_other by (cbn; lia).
  - destruct s as [| a s1];
      [cbn [quote_chars append]; now rewrite USVString_other by (cbn; lia) |].
    cbn [String.length] in Hn.
    destruct (quote_chars_cases a s1)
      as [(b & c & a' & b' & c' & s6 & -> & Hh & Hl & E)
         | [(b & c & s3 & -> & Hs & E) | [Hp E]]];
      rewrite E.
    + cbn [append USVString]. rewrite Hh, Hl.
      rewrite IH by (cbn [String.length] in Hn; lia). reflexivity.
    + assert (Hsur : high_surrogate_bytes a b c || low_surrogate_bytes a b c = true)
        by (destruct Hs as [[-> _] | [_ ->]]; [reflexivity | apply orb_true_r]).
      destruct (seven_bit_escape_unit a b c Hsur) as (H7 & _).
      rewrite !append_assoc, (seven_bit_stable _ H7).
      now rewrite IH by (cbn [String.length] in Hn; lia).
    + rewrite !append_assoc.
      destruct (quote_char_cases a) as [Ea | (H7 & _)].
      * rewrite Ea. cbn [append].
        destruct (USVString_cases a (quote_chars s1 +++ String dquote r))
          as [(b & c & a' & b' & c' & s6 & Eo & Hh & _)
             | [(b & c & s3 & Eo & Hs & _) | [_ Eu]]].
        -- exfalso.
           assert (Hsur : high_surrogate_bytes a b c || low_surrogate_bytes a b c = true)
             by now rewrite Hh.
           destruct (surrogate_bytes a b c Hsur) as (_ & B1 & B2 & C1 & C2 & _).
           destruct (quote_chars_raw_head _ _ _ _ Eo ltac:(lia) B2) as (s2 & -> & Eo').
           symmetry in Eo'.
           destruct (quote_chars_raw_head _ _ _ _ Eo' C1 C2) as (s3 & -> & _).
           cbn [starts_surrogate] in Hp. congruence.
        -- exfalso.
           assert (Hsur : high_surrogate_bytes a b c || low_surrogate_bytes a b c = true)
             by (destruct Hs as [[-> _] | [_ ->]]; [reflexivity | apply orb_true_r]).
           destruct (surrogate_bytes a b c Hsur) as (_ & B1 & B2 & C1 & C2 & _).
           destruct (quote_chars_raw_head _ _ _ _ Eo ltac:(lia) B2) as (s2 & -> & Eo').
           symmetry in Eo'.
           destruct (quote_chars_raw_head _ _ _ _ Eo' C1 C2) as (s3' & -> & _).
           cbn [starts_surrogate] in Hp. congruence.
        -- rewrite Eu. now rewrite IH by lia.
      * rewrite (seven_bit_stable _ H7). now rewrite IH by lia.
Qed.

Lemma usv_stable_QuoteJSONString (s : string) : usv_stable (QuoteJSONString s).
Proof.
  intros r. unfold QuoteJSONString. cbn [append].
  rewrite USVString_other by (cbn; lia).
  rewrite !append_assoc. cbn [append].
  now rewrite (USVString_quote_chars (String.length s) s (Nat.le_refl _)).
Qed.

(** The conversion leaves every text of [JSON.stringify] as it is. *)
Lemma usv_stable_serialized (v : value) : usv_stable (serialized v).
Proof.
  induction v as [| | b | n | s | f | items IH | props IH] using value_ind;
    try (apply seven_bit_stable; reflexivity).
  - destruct b; apply seven_bit_stable; reflexivity.
  - destruct n as [m e | | |]; try (apply seven_bit_stable; reflexivity).
    apply seven_bit_stable, seven_bit_Number_toString.
  - apply usv_stable_QuoteJSONString.
  - change (serialized (VArr items))
      with ("[" +++ String.concat "," (map serialized items) +++ "]").
    apply usv_stable_app; [now apply seven_bit_stable |].
    apply usv_stable_app; [| now apply seven_bit_stable].
    apply usv_stable_concat; [now apply seven_bit_stable |].
    induction IH; constructor; auto.
  - unfold serialized. cbn [SerializeJSONProperty].
    apply usv_stable_app; [now apply seven_bit_stable |].
    apply usv_stable_app; [| now apply seven_bit_stable].
    apply usv_stable_concat; [now apply seven_bit_stable |].
    induction IH as [| [k x] l Hx _ IHl]; cbn [flat_map]; [constructor |].
    cbn [snd fst] in *.
    destruct (SerializeJSONProperty x) as [t |] eqn:Et; [| exact IHl].
    constructor; [| exact IHl].
    apply usv_stable_app; [apply usv_stable_QuoteJSONString |].
    apply usv_stable_app; [now apply seven_bit_stable |].
    unfold serialized in Hx. now rewrite Et in Hx.
Qed.

Lemma USVString_serialized (v : value) :
  USVString (serialized v) = serialized v.
Proof. apply usv_stable_fixed, usv_stable_serialized. Qed.

Import JS FileUpload Spec.

(** ** hasFiles *)

Lemma check_contains_file (v : value) :
  check v = true <-> contains_file v.
Proof.
  induction v as [| | b | n | s | f | items IH | props IH] using value_ind;
    simpl; try (split; [discriminate | intros (st & f & H); inversion H]).
  - split; [intros _; exists [], f; constructor | reflexivity].
  - rewrite existsb_exists. split.
    + intros (x & Hin & Hx).
      rewrite Forall_forall in IH. apply IH in Hx; [| exact Hin].
      destruct Hx as (st & f & Hl).
      apply In_nth_error in Hin. destruct Hin as [i Hi].
      exists (Index i :: st), f. econstructor; eassumption.
    + intros (st & f & H). inversion H; subst.
      match goal with Hn : nth_error _ _ = Some ?x |- _ =>
        exists x; split; [eapply nth_error_In; exact Hn |] end.
      rewrite Forall_forall in IH. apply IH.
      * eapply nth_error_In; eassumption.
      * eexists _, _; eassumption.
  - rewrite existsb_exists. split.
    + intros ([k x] & Hin & Hx). simpl in Hx.
      rewrite Forall_forall in IH. apply (IH _ Hin) in Hx.
      destruct Hx as (st & f & Hl).
      exists (Key k :: st), f. econstructor; eassumption.
    + intros (st & f & H). inversion H; subst.
      match goal with Hn : In (?k, ?x) props |- _ =>
        exists (k, x); split; [exact Hn |] end.
      rewrite Forall_forall in IH. simpl.
      match goal with Hn : In (?k, ?x) props |- _ => apply (IH _ Hn) end.
      eexists _, _; eassumption.
Qed.

Lemma falsy_no_file (v : value) :
  truthy v = false -> ~ contains_file v.
Proof.
  intros Hf (st & f & H). inversion H; subst; discriminate.
Qed.

(** C6.  [hasFiles] answers false for absent ([undefined], [null]) and
    empty variables, and for every tree it answers true exactly when some
    node of the tree, at any depth, inside arrays or nested objects, is a
    binary payload leaf. *)
Theorem hasFiles_iff_contains_file :
  hasFiles VUndefined = false /\
  hasFiles VNull = false /\
  hasFiles (VObj []) = false /\
  forall v : value, hasFiles v = true <-> contains_file v.
Proof.
  repeat split; try reflexivity.
  - unfold hasFiles. destruct (truthy v) eqn:Ht; simpl.
    + apply check_contains_file.
    + discriminate.
  - intros H. unfold hasFiles.
    destruct (truthy v) eqn:Ht; simpl.
    + apply check_contains_file, H.
    + exfalso. eapply falsy_no_file; eassumption.
Qed.

(** ** extractFiles *)

Lemma processValue_array p items fs :
  processValue (VArr items) p fs =
  let '(items', fs') := process_items p items 0 fs in (VArr items', fs').
Proof. reflexivity. Qed.

Lemma processValue_object p props fs :
  processValue (VObj props) p fs =
  let '(result, fs') := process_entries p props [] fs in (VObj result, fs').
Proof. reflexivity. Qed.

Lemma leaves_array p items : leaves (VArr items) p = leaves_items p items 0.
Proof. reflexivity. Qed.

Lemma leaves_object p props : leaves (VObj props) p = leaves_entries p props.
Proof. reflexivity. Qed.

(** The entries pushed by [processValue] are the leaves of the traversal, after
    the ones already there. *)
Lemma processValue_files (v : value) :
  forall p fs, snd (processValue v p fs) = fs ++ leaves v p.
Proof.
  induction v as [| | b | n | s | f | items IH | props IH] using value_ind;
    intros p fs; try (simpl; now rewrite app_nil_r).
  - reflexivity.
  - rewrite processValue_array, leaves_array.
    assert (H : forall i fs, snd (process_items p items i fs) =
                             fs ++ leaves_items p items i).
    { clear fs. induction IH as [| x l Hx _ IHl]; intros i fs; simpl.
      - now rewrite app_nil_r.
      - specialize (Hx (p +++ "." +++ String_of_index i) fs).
        destruct (processValue x _ fs) as [x' fs1]. simpl in Hx. subst fs1.
        specialize (IHl (S i) (fs ++ leaves x (p +++ "." +++ String_of_index i))).
        destruct (process_items p l (S i) _) as [rest fs2]. simpl in *.
        now rewrite IHl, app_assoc. }
    specialize (H 0 fs). now destruct (process_items p items 0 fs).
  - rewrite processValue_object, leaves_object.
    assert (H : forall result fs, snd (process_entries p props result fs) =
                                  fs ++ leaves_entries p props).
    { clear fs. induction IH as [| [k x] l Hx _ IHl]; intros result fs; simpl.
      - now rewrite app_nil_r.
      - simpl in Hx. specialize (Hx (p +++ "." +++ k) fs).
        destruct (processValue x _ fs) as [x' fs1]. simpl in Hx. subst fs1.
        now rewrite IHl, app_assoc. }
    specialize (H [] fs). now destruct (process_entries p props [] fs).
Qed.

Lemma obj_set_fresh {A : Type} (k : string) (x : A) (o : list (string * A)) :
  existsb (fun kv => fst kv =? k) o = false -> obj_set k x o = o ++ [(k, x)].
Proof.
  induction o as [| [k' x'] o IH]; simpl; intros H.
  - reflexivity.
  - apply orb_false_elim in H. destruct H as [H1 H2].
    rewrite H1, IH by exact H2. reflexivity.
Qed.

Lemma existsb_key_app {A : Type} (k : string) (o1 o2 : list (string * A)) :
  existsb (fun kv => fst kv =? k) (o1 ++ o2) =
  existsb (fun kv => fst kv =? k) o1 || existsb (fun kv => fst kv =? k) o2.
Proof. apply existsb_app. Qed.

(** On a well-formed tree [processValue] returns the tree with its leaves
    replaced by [null]. *)
Lemma obj_assign_fresh {A : Type} (k : string) (x : A) (o : list (string * A)) :
  (k =? "__proto__") = false ->
  existsb (fun kv => fst kv =? k) o = false -> obj_assign k x o = o ++ [(k, x)].
Proof. unfold obj_assign. intros ->. apply obj_set_fresh. Qed.

Lemma processValue_cleaned (v : value) :
  well_formed v = true -> plain_keys v = true ->
  forall p fs, fst (processValue v p fs) = nullify v.
Proof.
  induction v as [| | b | n | s | f | items IH | props IH] using value_ind;
    intros Hwf Hpk p fs; try reflexivity.
  - rewrite processValue_array. simpl in Hwf, Hpk.
    assert (H : forall i fs, fst (process_items p items i fs) = map nullify items).
    { clear fs. induction IH as [| x l Hx _ IHl]; intros i fs; simpl.
      - reflexivity.
      - simpl in Hwf. apply andb_prop in Hwf. destruct Hwf as [Hw1 Hw2].
        simpl in Hpk. apply andb_prop in Hpk. destruct Hpk as [Hp1 Hp2].
        specialize (Hx Hw1 Hp1 (p +++ "." +++ String_of_index i) fs).
        destruct (processValue x _ fs) as [x' fs1]. simpl in Hx. subst x'.
        specialize (IHl Hw2 Hp2 (S i) fs1).
        destruct (process_items p l (S i) fs1) as [rest fs2]. simpl in *.
        now subst rest. }
    specialize (H 0 fs). destruct (process_items p items 0 fs). simpl in *.
    now subst.
  - rewrite processValue_object. simpl in Hwf, Hpk.
    apply andb_prop in Hwf. destruct Hwf as [Hd Hw].
    assert (H : forall result fs,
               (forall kv, In kv props ->
                           existsb (fun kv' => fst kv' =? fst kv) result = false) ->
               fst (process_entries p props result fs) =
               result ++ map (fun kv => (fst kv, nullify (snd kv))) props).
    { clear fs. induction IH as [| [k x] l Hx _ IHl]; intros result fs Hfresh; simpl.
      - now rewrite app_nil_r.
      - simpl in Hd, Hw, Hx, Hpk.
        apply andb_prop in Hd. destruct Hd as [Hk Hd].
        apply andb_prop in Hw. destruct Hw as [Hw1 Hw2].
        apply andb_prop in Hpk. destruct Hpk as [Hp1 Hp2].
        apply andb_prop in Hp1. destruct Hp1 as [Hp0 Hp1].
        apply negb_true_iff in Hp0.
        specialize (Hx Hw1 Hp1 (p +++ "." +++ k) fs).
        destruct (processValue x _ fs) as [x' fs1]. simpl in Hx. subst x'.
        rewrite (obj_assign_fresh _ _ _ Hp0)
          by (apply (Hfresh (k, x)); now left).
        rewrite (IHl Hd Hw2 Hp2).
        + now rewrite <- app_assoc.
        + intros kv Hin. rewrite existsb_key_app. simpl.
          rewrite (Hfresh kv) by (now right). simpl.
          rewrite orb_false_r.
          apply negb_true_iff in Hk.
          destruct (k =? fst kv) eqn:E; [| reflexivity].
          apply String.eqb_eq in E. subst k.
          exfalso. rewrite <- not_true_iff_false in Hk. apply Hk.
          apply existsb_exists. exists kv. split; [exact Hin |].
          apply String.eqb_refl. }
    specialize (H [] fs (fun _ _ => eq_refl)).
    destruct (process_entries p props [] fs). simpl in *. now subst.
Qed.

Lemma extractFiles_files v p : files (extractFiles v p) = leaves v p.
Proof.
  unfold extractFiles. pose proof (processValue_files v p []) as H.
  destruct (processValue v p []). simpl in *. exact H.
Qed.

Lemma extractFiles_cleaned v p :
  well_formed v = true -> plain_keys v = true ->
  cleanedVariables (extractFiles v p) = nullify v.
Proof.
  intros Hwf Hpk. unfold extractFiles.
  pose proof (processValue_cleaned v Hwf Hpk p []) as H.
  destruct (processValue v p []). simpl in *. exact H.
Qed.

Lemma nullify_cleaned (v : value) : cleaned v (nullify v).
Proof.
  induction v as [| | b | n | s | f | items IH | props IH] using value_ind;
    simpl; try (now apply cleaned_scalar).
  - apply cleaned_leaf.
  - apply cleaned_array. induction IH; simpl; constructor; assumption.
  - apply cleaned_object. induction IH; simpl; constructor; auto.
Qed.

Lemma nullify_without_file (v : value) :
  ~ contains_file v -> nullify v = v.
Proof.
  induction v as [| | b | n | s | f | items IH | props IH] using value_ind;
    intros Hno; simpl; try reflexivity.
  - exfalso. apply Hno. exists [], f. constructor.
  - f_equal.
    assert (H : forall x, In x items -> ~ contains_file x).
    { intros x Hin (st & f & Hl). apply Hno.
      apply In_nth_error in Hin. destruct Hin as [i Hi].
      exists (Index i :: st), f. econstructor; eassumption. }
    clear Hno. induction IH as [| x l Hx _ IHl]; simpl; [reflexivity |].
    rewrite Hx by (apply H; now left).
    rewrite IHl by (intros y Hy; apply H; now right). reflexivity.
  - f_equal.
    assert (H : forall k x, In (k, x) props -> ~ contains_file x).
    { intros k x Hin (st & f & Hl). apply Hno.
      exists (Key k :: st), f. econstructor; eassumption. }
    clear Hno. induction IH as [| [k x] l Hx _ IHl]; simpl; [reflexivity |].
    simpl in Hx. rewrite Hx by (apply (H k); now left).
    rewrite IHl by (intros k' y Hy; apply (H k'); now right). reflexivity.
Qed.

(** C4.  [extractFiles] copies an object entry by entry with
    [result[key] = ...], and on the object it fills the key [__proto__] is
    the accessor inherited from [Object.prototype]: an own property of that
    name in the variables is not copied, although the documentation of
    [extractFiles] promises the variables with the files replaced by [null].
    At the tree [{["__proto__"]: {doc: fileA}, title: "report"}] the cleaned
    tree is [{title: "report"}]: it has not the keys of the input, while the
    entry [variables.__proto__.doc] is recorded.  On every tree without an
    own property of that name the cleaned tree has the shape of the input,
    the same array lengths, the same object keys in the same order, the
    same scalars, and [null] at every binary payload leaf, and it is the
    input itself when the input has no binary leaf. *)
Theorem extractFiles_loses_proto_key :
  (let extracted := extractFiles proto_tree "variables" in
   well_formed proto_tree = true /\
   cleanedVariables extracted = VObj [("title", VStr "report")] /\
   files extracted = [{| path := "variables.__proto__.doc"; file := fileA |}] /\
   ~ cleaned proto_tree (cleanedVariables extracted)) /\
  (forall (v : value) (root : string),
      well_formed v = true -> plain_keys v = true ->
      cleaned v (cleanedVariables (extractFiles v root)) /\
      (~ contains_file v -> cleanedVariables (extractFiles v root) = v)).
Proof.
  split.
  - cbv zeta. split; [reflexivity |]. split; [reflexivity |].
    split; [reflexivity |].
    change (~ cleaned proto_tree (VObj [("title", VStr "report")])).
    unfold proto_tree. intros H. inversion H; subst.
    match goal with
    | Hf : Forall2 _ _ _ |- _ => inversion Hf as [| ? ? ? ? [He _] _]
    end.
    discriminate He.
  - intros v root Hwf Hpk. rewrite (extractFiles_cleaned v root Hwf Hpk). split.
    + apply nullify_cleaned.
    + apply nullify_without_file.
Qed.

(** A tree without binary leaves is returned as it is, with no entry. *)
Lemma extractFiles_plain_tree :
  cleanedVariables (extractFiles plain_tree "variables") = plain_tree /\
  files (extractFiles plain_tree "variables") = [].
Proof. split; reflexivity. Qed.

(** ** Paths *)

Lemma leaves_items_In p (l : list value) (e : FileEntry) :
  forall i,
    In e (leaves_items p l i) <->
    exists j x, nth_error l j = Some x /\
                In e (leaves x (p +++ "." +++ String_of_index (i + j))).
Proof.
  induction l as [| x l IH]; intros i; simpl.
  - split; [tauto |]. intros (j & y & H & _). destruct j; discriminate.
  - rewrite in_app_iff, IH. split.
    + intros [H | (j & y & Hn & Hin)].
      * exists 0, x. rewrite Nat.add_0_r. now split.
      * exists (S j), y. rewrite Nat.add_succ_r. now split.
    + intros (j & y & Hn & Hin). destruct j as [| j]; simpl in Hn.
      * injection Hn as <-. rewrite Nat.add_0_r in Hin. now left.
      * right. exists j, y. rewrite Nat.add_succ_r in Hin. now split.
Qed.

Lemma leaves_entries_In p (l : list (string * value)) (e : FileEntry) :
  In e (leaves_entries p l) <->
  exists k x, In (k, x) l /\ In e (leaves x (p +++ "." +++ k)).
Proof.
  induction l as [| [k x] l IH]; simpl.
  - split; [tauto |]. intros (k & x & H & _). exact H.
  - rewrite in_app_iff, IH. split.
    + intros [H | (k' & y & Hn & Hin)].
      * exists k, x. split; [now left | exact H].
      * exists k', y. split; [now right | exact Hin].
    + intros (k' & y & [Hn | Hn] & Hin).
      * injection Hn as <- <-. now left.
      * right. exists k', y. now split.
Qed.

(** The entries of the traversal are the leaves of the tree, each with the
    dotted path of the steps that lead to it. *)
Lemma leaves_In (v : value) :
  forall p e,
    In e (leaves v p) <->
    exists steps, leaf_at v steps (file e) /\ path e = dotted p steps.
Proof.
  induction v as [| | b | n | s | f | items IH | props IH] using value_ind;
    intros p e;
    try (simpl; split; [tauto | intros (st & H & _); inversion H]).
  - simpl. split.
    + intros [<- | []]. exists []. split; [constructor | reflexivity].
    + intros (st & H & Hp). inversion H; subst. simpl in Hp.
      left. destruct e; simpl in *; congruence.
  - rewrite leaves_array, leaves_items_In. rewrite Forall_forall in IH. split.
    + intros (j & x & Hn & Hin). simpl in Hin.
      apply IH in Hin; [| eapply nth_error_In; eassumption].
      destruct Hin as (st & Hl & Hp).
      exists (Index j :: st). split; [econstructor; eassumption | exact Hp].
    + intros (st & H & Hp). inversion H; subst. simpl in Hp.
      match goal with Hn : nth_error items ?i = Some ?x |- _ =>
        exists i, x; split; [exact Hn |];
        apply IH; [eapply nth_error_In; exact Hn |] end.
      eexists; split; eassumption.
  - rewrite leaves_object, leaves_entries_In. rewrite Forall_forall in IH. split.
    + intros (k & x & Hn & Hin).
      apply (IH (k, x) Hn) in Hin. simpl in Hin.
      destruct Hin as (st & Hl & Hp).
      exists (Key k :: st). split; [econstructor; eassumption | exact Hp].
    + intros (st & H & Hp). inversion H; subst. simpl in Hp.
      match goal with Hn : In (?k, ?x) props |- _ =>
        exists k, x; split; [exact Hn |]; apply (IH (k, x) Hn) end.
      eexists; split; eassumption.
Qed.

(** C5.  An entry is recorded by [extractFiles] exactly for the binary
    payload leaves of the tree, and its path is the root token followed, for
    each step down to the leaf, by [.key] for an object key and by [.index],
    the decimal numeral of the 0-based position, for an array element.  For
    the nested tree [{input: {attachment: {file, metadata: {size: 100}}}}]
    the one recorded path is [variables.input.attachment.file], and the
    metadata subtree is the same in the cleaned tree. *)
Theorem extractFiles_dotted_paths :
  (forall (v : value) (root : string) (e : FileEntry),
      In e (files (extractFiles v root)) <->
      exists steps, leaf_at v steps (file e) /\ path e = dotted root steps) /\
  (forall f : Blob,
      let metadata := VObj [("size", VNum (Dec 1 2))] in
      let tree :=
        VObj [("input",
               VObj [("attachment",
                      VObj [("file", VFile f); ("metadata", metadata)])])] in
      files (extractFiles tree "variables") =
        [{| path := "variables.input.attachment.file"; file := f |}] /\
      cleanedVariables (extractFiles tree "variables") =
        VObj [("input",
               VObj [("attachment",
                      VObj [("file", VNull); ("metadata", metadata)])])]).
Proof.
  split.
  - intros v root e. rewrite extractFiles_files. apply leaves_In.
  - intros f. split; reflexivity.
Qed.

(** ** The multipart encoder *)

Lemma String_of_index_inj (i j : nat) :
  String_of_index i = String_of_index j -> i = j.
Proof.
  intros H. apply (f_equal NilEmpty.uint_of_string) in H.
  unfold String_of_index in H. rewrite !NilEmpty.usu in H.
  injection H as H. now apply Unsigned.to_uint_inj.
Qed.

Lemma String_of_index_neq (i j : nat) :
  i <> j -> (String_of_index i =? String_of_index j) = false.
Proof.
  intros Hne. apply String.eqb_neq. intros H. now apply Hne, String_of_index_inj.
Qed.

(** A decimal numeral is none of the names of the three text fields. *)
Lemma String_of_index_not_field (i : nat) (name : string) :
  NilEmpty.uint_of_string name = None -> (name =? String_of_index i) = false.
Proof.
  intros Hn. apply String.eqb_neq. intros ->.
  unfold String_of_index in Hn. rewrite NilEmpty.usu in Hn. discriminate.
Qed.

Lemma encoder_map_from (l : list FileEntry) :
  forall (a : nat) (acc : list (string * value)),
    (forall kv, In kv acc -> exists j, j < a /\ fst kv = String_of_index j) ->
    fold_left (fun map '(index, entry) => obj_assign index (VArr [VStr (path entry)]) map)
              (combine (map String_of_index (seq a (length l))) l) acc =
    acc ++ map (fun ie => (String_of_index (fst ie), VArr [VStr (path (snd ie))]))
               (indexed a l).
Proof.
  unfold indexed.
  induction l as [| e l IH]; intros a acc Hacc; simpl.
  - now rewrite app_nil_r.
  - rewrite obj_assign_fresh.
    + rewrite IH.
      * now rewrite <- app_assoc.
      * intros kv Hin. apply in_app_or in Hin. destruct Hin as [Hin | [<- | []]].
        -- destruct (Hacc kv Hin) as (j & Hj & Hk). exists j. split; [lia | exact Hk].
        -- exists a. split; [lia | reflexivity].
    + rewrite String.eqb_sym. now apply String_of_index_not_field.
    + apply not_true_iff_false. intros Hex.
      apply existsb_exists in Hex. destruct Hex as (kv & Hin & Hk).
      destruct (Hacc kv Hin) as (j & Hj & Hkj).
      apply String.eqb_eq in Hk. rewrite Hkj in Hk.
      apply String_of_index_inj in Hk. lia.
Qed.

Lemma encoder_map_spec (files : list FileEntry) :
  encoder_map files = extraction_map files.
Proof.
  unfold encoder_map, Array_entries, extraction_map.
  rewrite encoder_map_from by (intros kv []). reflexivity.
Qed.

Lemma indexed_lookup {A B : Type} (g : A -> B) (l : list A) :
  forall a i e,
    nth_error l i = Some e ->
    obj_get (String_of_index (a + i))
            (map (fun ie => (String_of_index (fst ie), g (snd ie))) (indexed a l)) =
    Some (g e).
Proof.
  unfold indexed.
  induction l as [| x l IH]; intros a i e Hn.
  - destruct i; discriminate.
  - destruct i as [| i]; simpl in *.
    + injection Hn as <-. now rewrite Nat.add_0_r, String.eqb_refl.
    + rewrite String_of_index_neq by lia.
      rewrite Nat.add_succ_r. apply (IH (S a) i e Hn).
Qed.

Lemma indexed_keys {A B : Type} (g : A -> B) (l : list A) (a : nat) :
  obj_keys (map (fun ie => (String_of_index (fst ie), g (snd ie))) (indexed a l)) =
  map String_of_index (seq a (length l)).
Proof.
  unfold indexed, obj_keys. revert a.
  induction l as [| x l IH]; intros a; simpl; [reflexivity |].
  now rewrite IH.
Qed.

Lemma append_parts (l : list (string * FileEntry)) :
  forall formData : FormData,
    fold_left (fun formData '(index, entry) =>
                 FormData_append formData index (VFile (file entry))) l formData =
    formData ++
    map (fun ie => (USVString (fst ie), Binary (File_of (file (snd ie))))) l.
Proof.
  induction l as [| [i e] l IH]; intros formData; cbn [fold_left map fst snd].
  - now rewrite app_nil_r.
  - rewrite IH. unfold FormData_append. cbn [entry_value].
    now rewrite <- app_assoc.
Qed.

Lemma Array_entries_indexed {A B : Type} (g : string -> A -> B) (l : list A) (a : nat) :
  map (fun ie => g (fst ie) (snd ie))
      (combine (map String_of_index (seq a (length l))) l) =
  map (fun ie => g (String_of_index (fst ie)) (snd ie)) (indexed a l).
Proof.
  unfold indexed. revert a.
  induction l as [| x l IH]; intros a; simpl; [reflexivity |].
  now rewrite IH.
Qed.

(** The entries of the form, in the order of the calls of [append]. *)
Lemma createMultipartFormData_entries (query cleanedTree : value)
    (files : list FileEntry) :
  createMultipartFormData query cleanedTree files =
  ("query", entry_value query) ::
  ("variables", entry_value (JSON_stringify cleanedTree)) ::
  ("map", entry_value (JSON_stringify (VObj (extraction_map files)))) ::
  binary_parts files.
Proof.
  unfold createMultipartFormData. rewrite append_parts.
  fold (encoder_map files). rewrite encoder_map_spec.
  unfold Array_entries, binary_parts.
  rewrite (Array_entries_indexed
             (fun i e => (USVString i, Binary (File_of (file e))))).
  unfold FormData_append. cbn [app]. do 3 f_equal.
  apply map_ext. intros [i e]. cbn [fst snd].
  now rewrite USVString_String_of_index.
Qed.

(** The serialisation stored in a text field: [JSON.stringify] gives a text
    for every value but [undefined]. *)
Lemma entry_value_JSON_stringify (v : value) :
  entry_value (JSON_stringify v) =
  Text (match SerializeJSONProperty v with
        | Some json => json
        | None => "undefined"
        end).
Proof.
  unfold JSON_stringify.
  destruct (SerializeJSONProperty v) as [t |] eqn:E; [| reflexivity].
  cbn [entry_value ToString]. f_equal.
  pose proof (USVString_serialized v) as H. unfold serialized in H.
  now rewrite E in H.
Qed.

Lemma filter_binary_parts (files : list FileEntry) :
  filter is_binary (binary_parts files) = binary_parts files.
Proof.
  unfold binary_parts. generalize (indexed 0 files).
  induction l as [| ie l IH]; simpl; [reflexivity | now rewrite IH].
Qed.

(** The query made of a high surrogate without partner, and the part of a
    [Blob] that is not a [File]: what the form holds is not what the encoder
    was given. *)
Lemma stored_values_are_converted :
  let entry := {| path := "variables.file"; file := fileB |} in
  let formData := createMultipartFormData (VStr lone_surrogate) VNull [entry] in
  blob_name fileB = None /\
  FormData_get formData "0" =
    Some (Binary {| blob_name := Some "blob";
                    blob_type := "image/png";
                    blob_bytes := [] |}) /\
  FormData_get formData "0" <> Some (Binary fileB) /\
  FormData_get formData "query" = Some (Text replacement) /\
  FormData_get formData "query" <> Some (Text lone_surrogate).
Proof.
  cbv zeta. split; [reflexivity |]. split; [reflexivity |].
  split; [discriminate |]. split; [reflexivity | discriminate].
Qed.

(** C7.  For every query string, cleaned tree and list of file entries the
    encoder sets the field [query] to the query string converted to a
    [USVString], which is the query string itself unless it has a surrogate
    without partner; it sets the field [variables] to the JSON serialisation
    of the cleaned tree, and emits one binary part per file entry and no
    other: the part of entry [i] has the decimal string of [i] as its key,
    and as its value the leaf itself when the leaf is a [File], and for a
    [Blob] that is not a [File] a [File] named [blob] with the bytes and the
    type of the leaf. *)
Theorem createMultipartFormData_fields (query : string) (cleanedTree : value)
    (files : list FileEntry) :
  let formData := createMultipartFormData (VStr query) cleanedTree files in
  FormData_get formData "query" = Some (Text (USVString query)) /\
  (lone_free query = true ->
   FormData_get formData "query" = Some (Text query)) /\
  FormData_get formData "variables" =
    Some (Text (match SerializeJSONProperty cleanedTree with
                | Some json => json
                | None => "undefined"
                end)) /\
  filter is_binary formData = binary_parts files /\
  length (filter is_binary formData) = length files /\
  (forall i e, nth_error files i = Some e ->
               exists stored,
                 FormData_get formData (String_of_index i) = Some (Binary stored) /\
                 blob_bytes stored = blob_bytes (file e) /\
                 blob_type stored = blob_type (file e) /\
                 match blob_name (file e) with
                 | Some _ => stored = file e
                 | None => blob_name stored = Some "blob"
                 end).
Proof.
  intros formData. subst formData.
  rewrite createMultipartFormData_entries, !entry_value_JSON_stringify.
  unfold FormData_get. cbn [obj_get filter is_binary snd entry_value ToString].
  change ("query" =? "query") with true.
  change ("variables" =? "variables") with true.
  change ("query" =? "variables") with false. cbv beta iota.
  split; [reflexivity |]. split; [intros H; now rewrite (lone_free_fixed _ H) |].
  split; [reflexivity |].
  repeat split.
  - apply filter_binary_parts.
  - rewrite filter_binary_parts. unfold binary_parts, indexed.
    rewrite length_map, length_combine, length_seq. apply Nat.min_id.
  - intros i e Hn. exists (File_of (file e)).
    rewrite !String_of_index_not_field by reflexivity.
    split; [apply (indexed_lookup (fun e => Binary (File_of (file e))) files 0 i e Hn) |].
    unfold File_of. destruct (blob_name (file e)); repeat split.
Qed.

Lemma leaves_items_concat p (l : list value) (a : nat) :
  leaves_items p l a =
  concat (map (fun ix => leaves (snd ix) (p +++ "." +++ String_of_index (fst ix)))
              (indexed a l)).
Proof.
  unfold indexed. revert a.
  induction l as [| x l IH]; intros a; simpl; [reflexivity |].
  now rewrite IH.
Qed.

Lemma leaves_entries_concat p (l : list (string * value)) :
  leaves_entries p l =
  concat (map (fun kx => leaves (snd kx) (p +++ "." +++ fst kx)) l).
Proof.
  induction l as [| [k x] l IH]; simpl; [reflexivity |].
  now rewrite IH.
Qed.

(** ** Own-property order of an object literal *)

Lemma existsb_key_In {A : Type} (k : string) (o : list (string * A)) :
  existsb (fun kv => fst kv =? k) o = true <-> In k (map fst o).
Proof.
  induction o as [| [k1 x] o IH]; simpl; [split; [discriminate | tauto] |].
  rewrite orb_true_iff, IH, String.eqb_eq. tauto.
Qed.

Lemma distinct_keys_NoDup {A : Type} (o : list (string * A)) :
  distinct_keys o = true <-> NoDup (map fst o).
Proof.
  induction o as [| [k x] o IH]; simpl.
  - split; [constructor | reflexivity].
  - rewrite andb_true_iff, negb_true_iff, IH, NoDup_cons_iff.
    rewrite <- existsb_key_In, not_true_iff_false. tauto.
Qed.

Lemma filter_every {A : Type} (f : A -> bool) (l : list A) :
  (forall x, In x l -> f x = true) -> filter f l = l.
Proof.
  induction l as [| x l IH]; intros H; cbn [filter]; [reflexivity |].
  rewrite (H x (or_introl eq_refl)), IH; [reflexivity |].
  intros y Hy. apply H. now right.
Qed.

Lemma key_precedes_asym (a b : string) :
  key_precedes a b = true -> key_precedes b a = false.
Proof.
  unfold key_precedes.
  destruct (array_index a) as [i |], (array_index b) as [j |]; try discriminate;
    try reflexivity.
  intros H. apply N.ltb_lt in H. apply N.ltb_ge. lia.
Qed.

(** A key that does not precede [b] does not precede what precedes [b]. *)
Lemma key_precedes_before (a b c : string) :
  key_precedes a b = true -> key_precedes c b = false -> key_precedes c a = false.
Proof.
  unfold key_precedes.
  destruct (array_index a) as [i |], (array_index b) as [j |],
    (array_index c) as [m |]; try discriminate; try reflexivity.
  intros H1 H2. apply N.ltb_lt in H1. apply N.ltb_ge in H2. apply N.ltb_ge. lia.
Qed.

Lemma obj_insert_last {A : Type} (k : string) (v : A) (o : list (string * A)) :
  array_index k = None -> obj_insert k v o = o ++ [(k, v)].
Proof.
  intros Hk. induction o as [| [k1 x] o IH]; cbn [obj_insert app]; [reflexivity |].
  unfold key_precedes. rewrite Hk. now rewrite IH.
Qed.

Lemma obj_insert_In {A : Type} (k : string) (v : A) (o : list (string * A))
    (kv : string * A) :
  In kv (obj_insert k v o) <-> kv = (k, v) \/ In kv o.
Proof.
  induction o as [| [k1 x] o IH]; cbn [obj_insert].
  - cbn [In]. intuition congruence.
  - destruct (key_precedes k k1); cbn [In]; [intuition congruence |].
    rewrite IH. intuition congruence.
Qed.

Lemma obj_insert_keys {A : Type} (P : string -> bool) (k : string) (v : A)
    (o : list (string * A)) :
  forallb P (map fst (obj_insert k v o)) = P k && forallb P (map fst o).
Proof.
  induction o as [| [k1 x] o IH]; cbn [obj_insert map fst forallb]; [reflexivity |].
  destruct (key_precedes k k1); cbn [map fst forallb]; [reflexivity |].
  rewrite IH. now rewrite !andb_assoc, (andb_comm (P k1)).
Qed.

(** The creation of a property keeps the keys in own-property order. *)
Lemma obj_insert_own_order {A : Type} (k : string) (v : A) (o : list (string * A)) :
  own_order (map fst o) = true -> own_order (map fst (obj_insert k v o)) = true.
Proof.
  induction o as [| [k1 x] o IH]; cbn [obj_insert map fst own_order]; intros H;
    [reflexivity |].
  apply andb_prop in H. destruct H as [H1 H2].
  destruct (key_precedes k k1) eqn:E; cbn [map fst own_order forallb].
  - rewrite (key_precedes_asym _ _ E), H1, H2. cbn [negb andb].
    rewrite andb_true_r. apply forallb_forall. intros k' Hin.
    rewrite forallb_forall in H1. specialize (H1 k' Hin).
    apply negb_true_iff in H1. apply negb_true_iff.
    exact (key_precedes_before _ _ _ E H1).
  - rewrite obj_insert_keys, E, H1, (IH H2). reflexivity.
Qed.

Lemma obj_insert_others {A : Type} (k : string) (v : A) (o : list (string * A)) :
  filter (fun kv => negb (index_key kv)) (obj_insert k v o) =
  filter (fun kv => negb (index_key kv)) o ++
  (if index_key (k, v) then [] else [(k, v)]).
Proof.
  unfold index_key. cbn [fst].
  destruct (array_index k) as [i |] eqn:Ek.
  - rewrite app_nil_r.
    induction o as [| [k1 x] o IH]; cbn [obj_insert filter fst].
    + now rewrite Ek.
    + destruct (key_precedes k k1); cbn [filter fst]; rewrite ?Ek; cbn [negb];
        [reflexivity |].
      now rewrite IH.
  - rewrite (obj_insert_last _ _ _ Ek), filter_app. cbn [filter fst].
    now rewrite Ek.
Qed.

(** The object of a literal: its keys are in own-property order, the keys
    that are not array indices in the order of the literal, and its entries
    are those of the literal. *)
Lemma object_literal_from {A : Type} (members : list (string * A)) :
  forall acc,
    NoDup (map fst acc ++ map fst members) ->
    own_order (map fst acc) = true ->
    let object := fold_left (fun o '(k, v) => obj_define k v o) members acc in
    own_order (map fst object) = true /\
    filter (fun kv => negb (index_key kv)) object =
      filter (fun kv => negb (index_key kv)) acc ++
      filter (fun kv => negb (index_key kv)) members /\
    (forall kv, In kv object <-> In kv acc \/ In kv members).
Proof.
  induction members as [| [k v] members IH]; intros acc Hn Ho; cbn [fold_left].
  - cbn [filter]. rewrite app_nil_r.
    split; [exact Ho |]. split; [reflexivity |]. cbn [In]. tauto.
  - assert (Hfresh : existsb (fun kv => fst kv =? k) acc = false).
    { apply not_true_iff_false. intros Hex. apply existsb_exists in Hex.
      destruct Hex as ([k1 x] & Hin & Hk). apply String.eqb_eq in Hk.
      cbn [fst] in Hk. subst k1. cbn [map fst] in Hn.
      apply NoDup_remove_2 in Hn. apply Hn, in_or_app. left.
      apply (in_map fst) in Hin. exact Hin. }
    cbv beta iota zeta.
    replace (obj_define k v acc) with (obj_insert k v acc)
      by (unfold obj_define; now rewrite Hfresh).
    destruct (IH (obj_insert k v acc)) as (H1 & H2 & H3).
    + cbn [map fst] in Hn.
      assert (Hp : forall x, In x (map fst (obj_insert k v acc)) <->
                             x = k \/ In x (map fst acc)).
      { intros x. rewrite !in_map_iff. split.
        - intros ([k1 y] & <- & Hin). apply obj_insert_In in Hin.
          destruct Hin as [Hin | Hin]; [injection Hin as -> _; now left |].
          right. now exists (k1, y).
        - intros [-> | ([k1 y] & <- & Hin)].
          + exists (k, v). split; [reflexivity |]. apply obj_insert_In. now left.
          + exists (k1, y). split; [reflexivity |]. apply obj_insert_In. now right. }
      assert (Hl : length (map fst (obj_insert k v acc)) = S (length (map fst acc))).
      { rewrite !length_map. clear. induction acc as [| [k1 x] acc IHa];
          cbn [obj_insert length]; [reflexivity |].
        destruct (key_precedes k k1); cbn [length]; [reflexivity | now rewrite IHa]. }
      eapply NoDup_incl_NoDup; [exact Hn | |].
      * rewrite !length_app, Hl. cbn [length]. lia.
      * intros x Hx. apply in_app_or in Hx. apply in_or_app.
        destruct Hx as [Hx | [<- | Hx]];
          [left; apply Hp; now right | left; apply Hp; now left | now right].
    + now apply obj_insert_own_order.
    + split; [exact H1 |]. split.
      * rewrite H2, obj_insert_others. cbn [filter].
        destruct (index_key (k, v)); cbn [negb]; rewrite <- app_assoc; reflexivity.
      * intros kv. rewrite H3, obj_insert_In. cbn [In]. intuition congruence.
Qed.

(** The object [{b: fileA, 1: fileB}]: the key [1] is inserted last and
    listed first, so the entry of [fileB] is recorded before that of
    [fileA], and the map numbers them in that order. *)
Lemma insertion_order_is_not_kept :
  let members := [("b", VFile fileA); ("1", VFile fileB)] in
  let extracted := extractFiles (VObj (object_literal members)) "variables" in
  object_literal members = [("1", VFile fileB); ("b", VFile fileA)] /\
  files extracted =
    [{| path := "variables.1"; file := fileB |};
     {| path := "variables.b"; file := fileA |}] /\
  files extracted <>
    [{| path := "variables.b"; file := fileA |};
     {| path := "variables.1"; file := fileB |}] /\
  encoder_map (files extracted) =
    [("0", VArr [VStr "variables.1"]); ("1", VArr [VStr "variables.b"])].
Proof.
  cbv zeta. split; [reflexivity |]. split; [reflexivity |].
  split; [discriminate | reflexivity].
Qed.

(** C3.  [extractFiles] lists the file entries in the order of the
    depth-first traversal: a leaf gives its own entry, a scalar none, an
    array the entries of its elements by ascending index, one element after
    the other, and an object the entries of its values in the order in which
    [Object.entries] lists them.  For the object of a literal that is
    own-property order: the keys that are array indices first, in ascending
    order, then the other keys in the order of their insertion, so the
    insertion order when no key is an array index.  The map of the encoder
    has, for each [i] below the number of entries, the decimal string of [i]
    as key and the one-element list of the path of entry [i] as value, and
    nothing else.  For [{files: [fileA, fileB]}] the entries are
    [variables.files.0] then [variables.files.1], and the map is
    [{"0": ["variables.files.0"], "1": ["variables.files.1"]}]. *)
Theorem extraction_order_and_map :
  (forall (v : value) (root : string),
      files (extractFiles v root) = leaves v root) /\
  (forall (root : string),
      (forall f, files (extractFiles (VFile f) root) =
                 [{| path := root; file := f |}]) /\
      (forall v, scalar v -> files (extractFiles v root) = []) /\
      (forall items,
          files (extractFiles (VArr items) root) =
          concat (map (fun ix =>
                         files (extractFiles (snd ix)
                                  (root +++ "." +++ String_of_index (fst ix))))
                      (indexed 0 items))) /\
      (forall props,
          files (extractFiles (VObj props) root) =
          concat (map (fun kx =>
                         files (extractFiles (snd kx) (root +++ "." +++ fst kx)))
                      props))) /\
  (forall (members : list (string * value)) (root : string),
      distinct_keys members = true ->
      let object := object_literal members in
      own_order (obj_keys object) = true /\
      filter (fun kv => negb (index_key kv)) object =
        filter (fun kv => negb (index_key kv)) members /\
      (forall kv, In kv object <-> In kv members) /\
      ((forall kv, In kv members -> index_key kv = false) -> object = members) /\
      files (extractFiles (VObj object) root) =
        concat (map (fun kx =>
                       files (extractFiles (snd kx) (root +++ "." +++ fst kx)))
                    object)) /\
  (forall (query cleanedTree : value) (files : list FileEntry),
      encoder_map files = extraction_map files /\
      FormData_get (createMultipartFormData query cleanedTree files) "map" =
        Some (entry_value (JSON_stringify (VObj (encoder_map files)))) /\
      obj_keys (encoder_map files) =
        map String_of_index (seq 0 (length files)) /\
      (forall i e, nth_error files i = Some e ->
                   obj_get (String_of_index i) (encoder_map files) =
                   Some (VArr [VStr (path e)]))) /\
  (forall (a b : Blob) (query : string),
      let tree := VObj [("files", VArr [VFile a; VFile b])] in
      let extracted := extractFiles tree "variables" in
      files extracted =
        [{| path := "variables.files.0"; file := a |};
         {| path := "variables.files.1"; file := b |}] /\
      encoder_map (files extracted) =
        [("0", VArr [VStr "variables.files.0"]);
         ("1", VArr [VStr "variables.files.1"])] /\
      FormData_get
        (createMultipartFormData (VStr query) (cleanedVariables extracted)
                                 (files extracted)) "map" =
        Some (Text (quoted "{'0':['variables.files.0'],'1':['variables.files.1']}"))).
Proof.
  assert (Hobj : forall props root,
             files (extractFiles (VObj props) root) =
             concat (map (fun kx =>
                            files (extractFiles (snd kx) (root +++ "." +++ fst kx)))
                         props)).
  { intros props root.
    rewrite extractFiles_files, leaves_object, leaves_entries_concat.
    f_equal. apply map_ext. intros kx. now rewrite extractFiles_files. }
  split; [| split; [| split; [| split]]].
  - intros v root. apply extractFiles_files.
  - intros root. split; [| split; [| split]].
    + intros f. reflexivity.
    + intros v Hv. rewrite extractFiles_files. destruct v; simpl in *; tauto.
    + intros items. rewrite extractFiles_files, leaves_array, leaves_items_concat.
      f_equal. apply map_ext. intros ix. now rewrite extractFiles_files.
    + intros props. apply Hobj.
  - intros members root Hd object.
    destruct (object_literal_from members []) as (H1 & H2 & H3).
    { cbn [map app]. now apply distinct_keys_NoDup. }
    { reflexivity. }
    fold (object_literal members) in H1, H2, H3. fold object in H1, H2, H3.
    cbn [filter app In] in H2, H3.
    split; [exact H1 |]. split; [exact H2 |].
    split; [intros kv; rewrite H3; tauto |].
    split; [| apply Hobj].
    intros Hn.
    rewrite <- (filter_every (fun kv => negb (index_key kv)) object),
      <- (filter_every (fun kv => negb (index_key kv)) members); [exact H2 | |].
    + intros kv Hin. now rewrite (Hn kv Hin).
    + intros kv Hin. apply H3 in Hin. destruct Hin as [[] | Hin].
      now rewrite (Hn kv Hin).
  - intros query cleanedTree files. rewrite encoder_map_spec.
    split; [reflexivity |]. split; [| split].
    + now rewrite createMultipartFormData_entries.
    + apply (indexed_keys (fun e => VArr [VStr (path e)]) files 0).
    + intros i e Hn.
      apply (indexed_lookup (fun e => VArr [VStr (path e)]) files 0 i e Hn).
  - intros a b query. repeat split.
Qed.

(** ** Header names *)

Lemma is_upper_spec (c : ascii) :
  is_upper c = true <-> (65 <= N_of_ascii c <= 90)%N.
Proof.
  unfold is_upper. rewrite andb_true_iff, !N.leb_le. tauto.
Qed.

Lemma N_of_ascii_inj (x y : ascii) : N_of_ascii x = N_of_ascii y -> x = y.
Proof.
  intros H. rewrite <- (ascii_N_embedding x), <- (ascii_N_embedding y).
  now rewrite H.
Qed.

(** Two characters have the same lower-case form exactly when they are equal
    or one is the upper-case form of the other. *)
Lemma lower_char_eq (x y : ascii) :
  lower_char x = lower_char y <->
  (x = y \/
   (is_upper x = true /\ N_of_ascii y = (N_of_ascii x + 32)%N) \/
   (is_upper y = true /\ N_of_ascii x = (N_of_ascii y + 32)%N)).
Proof.
  pose proof (N_ascii_bounded x) as Bx. pose proof (N_ascii_bounded y) as By.
  unfold lower_char.
  destruct (is_upper x) eqn:Ux; destruct (is_upper y) eqn:Uy;
    try (apply is_upper_spec in Ux); try (apply is_upper_spec in Uy);
    try (apply not_true_iff_false in Ux; rewrite is_upper_spec in Ux);
    try (apply not_true_iff_false in Uy; rewrite is_upper_spec in Uy).
  - split.
    + intros H. apply (f_equal N_of_ascii) in H.
      rewrite !N_ascii_embedding in H by lia.
      left. apply N_of_ascii_inj. lia.
    + intros [-> | [[_ H] | [_ H]]]; [reflexivity | lia | lia].
  - split.
    + intros H. apply (f_equal N_of_ascii) in H.
      rewrite N_ascii_embedding in H by lia. right. left. split; [reflexivity | lia].
    + intros [-> | [[_ H] | [H _]]]; [lia | | discriminate].
      rewrite <- H. apply ascii_N_embedding.
  - split.
    + intros H. apply (f_equal N_of_ascii) in H.
      rewrite N_ascii_embedding in H by lia. right. right. split; [reflexivity | lia].
    + intros [-> | [[H _] | [_ H]]]; [lia | discriminate |].
      rewrite <- H. symmetry. apply ascii_N_embedding.
  - split.
    + intros ->. now left.
    + intros [-> | [[H _] | [H _]]]; [reflexivity | discriminate | discriminate].
Qed.

Lemma same_name_toLowerCase (a b : string) :
  same_name a b <-> toLowerCase a = toLowerCase b.
Proof.
  revert b. induction a as [| x a IH]; intros [| y b]; simpl;
    try (split; [tauto | discriminate]).
  - tauto.
  - rewrite IH, <- lower_char_eq. split.
    + intros [-> ->]. reflexivity.
    + intros H. injection H as H1 H2. now split.
Qed.

Lemma is_content_type_spec (key : string) :
  is_content_type key = true <-> same_name key "content-type".
Proof.
  unfold is_content_type. rewrite String.eqb_eq, same_name_toLowerCase.
  reflexivity.
Qed.

(** ** The loop that deletes the content-type headers *)

Lemma filter_all {A : Type} (l : list A) : filter (fun _ => true) l = l.
Proof. induction l; simpl; congruence. Qed.

Lemma filter_twice {A : Type} (f g : A -> bool) (l : list A) :
  filter g (filter f l) = filter (fun x => f x && g x) l.
Proof.
  induction l as [| x l IH]; simpl; [reflexivity |].
  destruct (f x); simpl; [destruct (g x) |]; now rewrite IH.
Qed.

Section DeleteLoop.
Context {A : Type}.
Variable P : string -> bool.

Lemma delete_loop (keys : list string) :
  forall o : list (string * A),
    fold_left (fun o key => if P key then obj_delete key o else o) keys o =
    filter (fun kv => negb (P (fst kv) && existsb (String.eqb (fst kv)) keys)) o.
Proof.
  induction keys as [| k keys IH]; intros o; simpl.
  - rewrite <- (filter_all o) at 1. apply filter_ext.
    intros kv. now rewrite andb_false_r.
  - rewrite IH. destruct (P k) eqn:Pk.
    + unfold obj_delete. rewrite filter_twice. apply filter_ext.
      intros kv. destruct (fst kv =? k) eqn:E; simpl.
      * apply String.eqb_eq in E. rewrite E, Pk. reflexivity.
      * reflexivity.
    + apply filter_ext. intros kv. destruct (fst kv =? k) eqn:E; simpl.
      * apply String.eqb_eq in E. rewrite E, Pk. reflexivity.
      * reflexivity.
Qed.

Lemma delete_loop_own_keys (o : list (string * A)) :
  fold_left (fun o key => if P key then obj_delete key o else o) (obj_keys o) o =
  filter (fun kv => negb (P (fst kv))) o.
Proof.
  rewrite delete_loop. apply filter_ext_in. intros kv Hin.
  replace (existsb (String.eqb (fst kv)) (obj_keys o)) with true.
  - now rewrite andb_true_r.
  - symmetry. apply existsb_exists. exists (fst kv). split.
    + unfold obj_keys. now apply in_map.
    + apply String.eqb_refl.
Qed.

Lemma obj_get_filtered_out (key : string) (o : list (string * A)) :
  P key = true -> obj_get key (filter (fun kv => negb (P (fst kv))) o) = None.
Proof.
  intros Pk. induction o as [| [k x] o IH]; simpl; [reflexivity |].
  destruct (P k) eqn:E; simpl; [exact IH |].
  destruct (k =? key) eqn:Ek; [| exact IH].
  apply String.eqb_eq in Ek. congruence.
Qed.

End DeleteLoop.

Lemma strip_content_type_filter (headers : list (string * string)) :
  strip_content_type headers =
  filter (fun kv => negb (is_content_type (fst kv))) headers.
Proof. apply (delete_loop_own_keys is_content_type). Qed.

(** What [strip_content_type] leaves: no header whose name equals
    content-type up to case, and every other header as it was. *)
Lemma strip_content_type_removes (headers : list (string * string)) (name : string) :
  same_name name "content-type" ->
  obj_get name (strip_content_type headers) = None.
Proof.
  intros H. rewrite strip_content_type_filter.
  apply obj_get_filtered_out. now apply is_content_type_spec.
Qed.


(** ** JSON.parse has fuel enough *)

Ltac break_match_hyp :=
  match goal with
  | H : context [match ?x with _ => _ end] |- _ => destruct x eqn:?
  end.

Ltac pair_eqs :=
  repeat match goal with
         | H : (_, _) = (_, _) |- _ => injection H as ? ?
         | H : Some _ = Some _ |- _ => injection H as ?
         end; subst.

Lemma skip_ws_length (s : string) :
  String.length (skip_ws s) <= String.length s.
Proof.
  induction s as [| c s IH]; simpl; [lia |].
  destruct (is_ws c); simpl; lia.
Qed.

Lemma next_is_length (c : ascii) (s r : string) :
  next_is c s = Some r -> String.length s = S (String.length r).
Proof.
  destruct s as [| a s]; simpl; [discriminate |].
  destruct (Ascii.eqb a c); [| discriminate]. now intros [= ->].
Qed.

Lemma span_digits_length (s : string) :
  forall ds r, span_digits s = (ds, r) ->
               String.length s = length ds + String.length r.
Proof.
  induction s as [| c s IH]; simpl; intros ds r H.
  - now injection H as <- <-.
  - destruct (is_digit c).
    + destruct (span_digits s) as [ds' r'] eqn:E. injection H as <- <-.
      simpl. now rewrite (IH ds' r' eq_refl).
    + now injection H as <- <-.
Qed.

Ltac length_facts :=
  repeat match goal with
         | H : next_is _ _ = Some _ |- _ => apply next_is_length in H
         | H : span_digits _ = (_, _) |- _ => apply span_digits_length in H
         end.

Lemma parse_number_length (s : string) (x : number) (r : string) :
  parse_number s = Some (x, r) -> String.length r < String.length s.
Proof.
  unfold parse_number. intros H.
  repeat (break_match_hyp; try discriminate; pair_eqs);
    length_facts; simpl in *; lia.
Qed.

Lemma parse_string_items_length (n : nat) :
  forall s, String.length s <= n ->
  forall items r, parse_string_items s = Some (items, r) ->
                  String.length r < String.length s.
Proof.
  induction n as [| n IH]; intros s Hn items r H.
  - destruct s; [discriminate | simpl in Hn; lia].
  - destruct s as [| c s]; [discriminate |].
    simpl in H, Hn.
    repeat (break_match_hyp; try discriminate; pair_eqs);
      repeat match goal with
             | H : parse_string_items ?t = Some (_, _) |- _ =>
                 apply IH in H; [| simpl in *; lia]
             end;
      simpl in *; lia.
Qed.

Lemma parse_string_length (s str r : string) :
  parse_string s = Some (str, r) -> String.length r < String.length s.
Proof.
  unfold parse_string. intros H.
  destruct (parse_string_items s) as [[items rest] |] eqn:E; [| discriminate].
  injection H as _ <-.
  now apply (parse_string_items_length (String.length s) s (Nat.le_refl _) items).
Qed.

Lemma expect_length (lit : string) :
  forall s r, expect lit s = Some r ->
              String.length s = String.length lit + String.length r.
Proof.
  induction lit as [| a lit IH]; intros s r H; simpl in *.
  - now injection H as ->.
  - destruct s as [| b s]; [discriminate |].
    destruct (Ascii.eqb a b); [| discriminate].
    simpl. now rewrite (IH s r H).
Qed.

Ltac parser_facts :=
  repeat match goal with
         | H : next_is _ _ = Some _ |- _ => apply next_is_length in H
         | H : parse_string _ = Some (_, _) |- _ => apply parse_string_length in H
         | H : parse_number _ = Some (_, _) |- _ => apply parse_number_length in H
         | H : expect _ _ = Some _ |- _ => apply expect_length in H
         | H : skip_ws ?s = _ |- _ =>
             let L := fresh "L" in
             pose proof (skip_ws_length s) as L; rewrite H in L; clear H
         end;
  repeat match goal with
         | |- context [skip_ws ?s] =>
             lazymatch goal with
             | _ : String.length (skip_ws s) <= String.length s |- _ => fail
             | _ => pose proof (skip_ws_length s)
             end
         | _ : context [skip_ws ?s] |- _ =>
             lazymatch goal with
             | _ : String.length (skip_ws s) <= String.length s |- _ => fail
             | _ => pose proof (skip_ws_length s)
             end
         end.

(** What a parser returns as the rest is shorter than what it was given. *)
Lemma parse_consumes (fuel : nat) :
  (forall s v r, parse_value fuel s = Parsed v r ->
                 String.length r < String.length s) /\
  (forall s acc v r, parse_elements fuel s acc = Parsed v r ->
                     String.length r < String.length s) /\
  (forall s acc v r, parse_members fuel s acc = Parsed v r ->
                     String.length r < String.length s).
Proof.
  induction fuel as [| fuel (IHv & IHe & IHm)].
  - repeat split; discriminate.
  - repeat split.
    + intros s v r H. cbn [parse_value] in H.
      repeat (break_match_hyp; try discriminate);
        try (injection H as <- <-);
        try (apply IHe in H); try (apply IHm in H);
        parser_facts; simpl in *; lia.
    + intros s acc v r H. cbn [parse_elements] in H.
      destruct (parse_value fuel s) as [v' r' | |] eqn:E; try discriminate.
      apply IHv in E.
      repeat (break_match_hyp; try discriminate);
        try (injection H as <- <-);
        try (apply IHe in H);
        parser_facts; simpl in *; lia.
    + intros s acc v r H. cbn [parse_members] in H.
      repeat (break_match_hyp; try discriminate);
        try (injection H as <- <-);
        repeat match goal with
               | H : parse_value fuel _ = Parsed _ _ |- _ => apply IHv in H
               | H : parse_members fuel _ _ = Parsed _ _ |- _ => apply IHm in H
               end;
        parser_facts; simpl in *; lia.
Qed.

(** With more fuel than twice the length of the text, and one more for a
    list of elements or members, the parser does not run out of it. *)
Lemma parse_fuel_enough (fuel : nat) :
  (forall s, 2 * String.length s < fuel -> parse_value fuel s <> OutOfFuel) /\
  (forall s acc, 2 * String.length s + 1 < fuel ->
                 parse_elements fuel s acc <> OutOfFuel) /\
  (forall s acc, 2 * String.length s + 1 < fuel ->
                 parse_members fuel s acc <> OutOfFuel).
Proof.
  induction fuel as [| fuel (IHv & IHe & IHm)].
  - repeat split; intros; lia.
  - repeat split.
    + intros s Hf. cbn [parse_value].
      repeat match goal with
             | |- context [match ?x with _ => _ end] => destruct x eqn:?
             end; try discriminate;
        (apply IHe || apply IHm); parser_facts; simpl in *; lia.
    + intros s acc Hf. cbn [parse_elements].
      destruct (parse_value fuel s) as [v' r' | |] eqn:E; try discriminate.
      * apply (proj1 (parse_consumes fuel)) in E.
        repeat match goal with
               | |- context [match ?x with _ => _ end] => destruct x eqn:?
               end; try discriminate.
        apply IHe. parser_facts; simpl in *; lia.
      * exfalso. revert E. apply IHv. lia.
    + intros s acc Hf. cbn [parse_members].
      repeat match goal with
             | |- context [match ?x with _ => _ end] => destruct x eqn:?
             end; try discriminate.
      * apply IHm.
        repeat match goal with
               | H : parse_value fuel _ = Parsed _ _ |- _ =>
                   apply (proj1 (parse_consumes fuel)) in H
               end.
        parser_facts; simpl in *; lia.
      * exfalso.
        match goal with H : parse_value fuel _ = OutOfFuel |- _ =>
          revert H; apply IHv end.
        parser_facts; simpl in *; lia.
Qed.

(** [JSON.parse] decides every text: its parser does not stop for lack of
    fuel, so [None] always stands for a syntax error. *)
Lemma JSON_parse_fuel (text : string) :
  parse_value (parse_fuel text) text <> OutOfFuel.
Proof.
  apply (proj1 (parse_fuel_enough (parse_fuel text))). unfold parse_fuel. lia.
Qed.

(** ** The invariant of objects *)

Lemma existsb_obj_set {A : Type} (k k0 : string) (v : A) (o : list (string * A)) :
  existsb (fun kv => fst kv =? k0) (obj_set k v o) =
  existsb (fun kv => fst kv =? k0) o || (k =? k0).
Proof.
  induction o as [| [k1 x] o IH]; simpl.
  - now rewrite orb_false_r.
  - destruct (k1 =? k) eqn:E; simpl.
    + apply String.eqb_eq in E. subst k1.
      destruct (k =? k0); simpl; [reflexivity | now rewrite orb_false_r].
    + rewrite IH. now rewrite orb_assoc.
Qed.

Lemma obj_set_distinct {A : Type} (k : string) (v : A) (o : list (string * A)) :
  distinct_keys o = true -> distinct_keys (obj_set k v o) = true.
Proof.
  induction o as [| [k1 x] o IH]; simpl; intros H; [reflexivity |].
  apply andb_prop in H. destruct H as [H1 H2].
  destruct (k1 =? k) eqn:E; simpl.
  - now rewrite H1, H2.
  - rewrite existsb_obj_set, (IH H2).
    apply negb_true_iff in H1. rewrite H1. simpl.
    rewrite String.eqb_sym, E. reflexivity.
Qed.

Lemma obj_set_forallb {A : Type} (P : A -> bool) (k : string) (v : A)
    (o : list (string * A)) :
  P v = true -> forallb (fun kv => P (snd kv)) o = true ->
  forallb (fun kv => P (snd kv)) (obj_set k v o) = true.
Proof.
  intros Hv. induction o as [| [k1 x] o IH]; simpl; intros H.
  - now rewrite Hv.
  - apply andb_prop in H. destruct H as [H1 H2].
    destruct (k1 =? k); simpl.
    + now rewrite Hv, H2.
    + now rewrite H1, (IH H2).
Qed.

Lemma forallb_rev {A : Type} (P : A -> bool) (l : list A) :
  forallb P (rev l) = forallb P l.
Proof.
  induction l as [| x l IH]; simpl; [reflexivity |].
  rewrite forallb_app, IH. simpl. rewrite andb_true_r. apply andb_comm.
Qed.

(** The values [JSON.parse] builds satisfy the invariant. *)
Lemma parse_well_formed (fuel : nat) :
  (forall s v r, parse_value fuel s = Parsed v r -> well_formed v = true) /\
  (forall s acc v r, parse_elements fuel s acc = Parsed v r ->
                     forallb well_formed acc = true -> well_formed v = true) /\
  (forall s acc v r, parse_members fuel s acc = Parsed v r ->
                     distinct_keys acc = true ->
                     forallb (fun kv => well_formed (snd kv)) acc = true ->
                     well_formed v = true).
Proof.
  induction fuel as [| fuel (IHv & IHe & IHm)].
  - repeat split; discriminate.
  - repeat split.
    + intros s v r H. cbn [parse_value] in H.
      repeat (break_match_hyp; try discriminate);
        try (injection H as <- <-; reflexivity).
      * now apply IHe in H.
      * now apply IHm in H.
    + intros s acc v r H Hacc. cbn [parse_elements] in H.
      destruct (parse_value fuel s) as [v' r' | |] eqn:E; try discriminate.
      apply IHv in E.
      repeat (break_match_hyp; try discriminate).
      * apply IHe in H; [exact H |]. simpl. now rewrite E, Hacc.
      * injection H as <- <-.
        change (forallb well_formed (rev (v' :: acc)) = true).
        rewrite forallb_rev. simpl. now rewrite E, Hacc.
    + intros s acc v r H Hd Hacc. cbn [parse_members] in H.
      repeat (break_match_hyp; try discriminate);
        match goal with
        | E : parse_value fuel _ = Parsed _ _ |- _ => apply IHv in E
        end.
      * apply IHm in H; [exact H | now apply obj_set_distinct |].
        now apply (obj_set_forallb well_formed).
      * injection H as <- <-.
        match goal with |- well_formed (VObj ?o) = true =>
          change (distinct_keys o &&
                  forallb (fun kv => well_formed (snd kv)) o = true) end.
        rewrite obj_set_distinct by exact Hd.
        now rewrite (obj_set_forallb well_formed).
Qed.

Lemma JSON_parse_well_formed (text : string) (v : value) :
  JSON_parse text = Some v -> well_formed v = true.
Proof.
  unfold JSON_parse. intros H.
  destruct (parse_value (parse_fuel text) text) as [v' r | |] eqn:E;
    try discriminate.
  destruct (skip_ws r =? ""); [| discriminate]. injection H as <-.
  now apply (proj1 (parse_well_formed (parse_fuel text))) in E.
Qed.

Lemma existsb_key_map {A B : Type} (g : A -> B) (k : string)
    (o : list (string * A)) :
  existsb (fun kv => fst kv =? k) (map (fun kv => (fst kv, g (snd kv))) o) =
  existsb (fun kv => fst kv =? k) o.
Proof.
  induction o as [| [k1 x] o IH]; simpl; [reflexivity | now rewrite IH].
Qed.

Lemma nullify_well_formed (v : value) :
  well_formed v = true -> well_formed (nullify v) = true.
Proof.
  induction v as [| | b | n | s | f | items IH | props IH] using value_ind;
    simpl; intros H; try reflexivity.
  - induction IH as [| x l Hx _ IHl]; simpl in *; [reflexivity |].
    apply andb_prop in H. destruct H as [H1 H2]. now rewrite Hx, IHl.
  - apply andb_prop in H. destruct H as [Hd Hw].
    apply andb_true_intro. split.
    + clear IH Hw. induction props as [| [k x] l IHl]; simpl in *; [reflexivity |].
      apply andb_prop in Hd. destruct Hd as [H1 H2].
      rewrite IHl by exact H2. rewrite andb_true_r.
      rewrite existsb_key_map. exact H1.
    + induction IH as [| [k x] l Hx _ IHl]; simpl in *; [reflexivity |].
      apply andb_prop in Hd. destruct Hd as [_ Hd].
      apply andb_prop in Hw. destruct Hw as [H1 H2].
      now rewrite Hx, IHl.
Qed.

(** ** The middleware *)

Lemma middleware_rejected existing request reason :
  run_existing existing request = Rejected reason ->
  createFileUploadMiddleware existing request = Rejected reason.
Proof.
  unfold createFileUploadMiddleware, run_existing. now intros ->.
Qed.

Lemma middleware_pass_through existing request processed :
  run_existing existing request = Resolved processed ->
  transforms processed = false ->
  createFileUploadMiddleware existing request = Resolved processed.
Proof.
  unfold createFileUploadMiddleware, run_existing, transforms. intros -> H.
  destruct (truthy (variables processed)); simpl in *; [| reflexivity].
  destruct (hasFiles (variables processed)); simpl in *; [| reflexivity].
  destruct (body processed) as [[| | | | b | | |] |]; try reflexivity.
  now destruct (parsed_query b).
Qed.

Lemma middleware_transformed existing request processed :
  run_existing existing request = Resolved processed ->
  transforms processed = true ->
  exists b query,
    body processed = BodyValue (VStr b) /\
    parsed_query b = Some query /\
    createFileUploadMiddleware existing request =
      Resolved (multipart_request processed query).
Proof.
  unfold createFileUploadMiddleware, run_existing, transforms. intros -> H.
  destruct (truthy (variables processed)); simpl in *; [| discriminate].
  destruct (hasFiles (variables processed)); simpl in *; [| discriminate].
  destruct (body processed) as [[| | | | b | | |] |]; try discriminate.
  destruct (parsed_query b) as [query |] eqn:Hq; [| discriminate].
  exists b, query. split; [reflexivity |]. split; [exact Hq |].
  reflexivity.
Qed.

(** A parsed body other than [null] without a [query] field leads to the
    Transformed state, with [undefined] as the query. *)
Lemma missing_query_is_transformed existing request processed b parsed :
  run_existing existing request = Resolved processed ->
  hasFiles (variables processed) = true ->
  body processed = BodyValue (VStr b) ->
  JSON_parse b = Some parsed ->
  parsed <> VNull -> parsed <> VUndefined ->
  no_query_field parsed ->
  createFileUploadMiddleware existing request =
    Resolved (multipart_request processed VUndefined).
Proof.
  intros Hrun Hf Hb Hp Hn Hu Hq.
  assert (Ht : truthy (variables processed) = true).
  { unfold hasFiles in Hf. now destruct (truthy (variables processed)). }
  assert (Hpq : parsed_query b = Some VUndefined).
  { unfold parsed_query. rewrite Hp.
    destruct parsed; try reflexivity; try congruence.
    simpl in Hq. now rewrite Hq. }
  destruct (middleware_transformed existing request processed Hrun)
    as (b' & query & Hb' & Hq' & ->).
  - unfold transforms. now rewrite Ht, Hf, Hb, Hpq.
  - congruence.
Qed.



(** In the Transformed state no header of the returned request has a name
    that equals content-type up to case, whatever the case of its letters in
    the request. *)
Lemma content_type_removed_every_case existing request processed :
  run_existing existing request = Resolved processed ->
  transforms processed = true ->
  exists result,
    createFileUploadMiddleware existing request = Resolved result /\
    (forall name, same_name name "content-type" -> header result name = None) /\
    header result "Content-Type" = None /\
    header result "content-type" = None /\
    header result "CONTENT-TYPE" = None.
Proof.
  intros Hrun Ht.
  destruct (middleware_transformed existing request processed Hrun Ht)
    as (b & query & Hb & Hq & Hres).
  exists (multipart_request processed query).
  split; [exact Hres |].
  assert (H : forall name, same_name name "content-type" ->
                           header (multipart_request processed query) name = None).
  { intros name Hname. unfold header. simpl.
    now apply strip_content_type_removes. }
  split; [exact H |].
  repeat split; apply H, is_content_type_spec; reflexivity.
Qed.

(** ** The earlier copy of the middleware *)

Lemma Legacy_createMultipartFormData_same query cleanedTree files :
  Legacy.createMultipartFormData query cleanedTree files =
  createMultipartFormData query cleanedTree files.
Proof.
  rewrite createMultipartFormData_entries.
  unfold Legacy.createMultipartFormData.
  assert (Hparts : forall (l : list (nat * FileEntry)) (formData : FormData),
             fold_left (fun formData '(index, entry) =>
                          FormData_append formData (String_of_index index)
                                          (VFile (file entry))) l formData =
             formData ++ map (fun ie => (String_of_index (fst ie),
                                         Binary (File_of (file (snd ie))))) l).
  { induction l as [| [i e] l IH]; intros formData; cbn [fold_left map fst snd].
    - now rewrite app_nil_r.
    - rewrite IH. unfold FormData_append. cbn [entry_value].
      now rewrite USVString_String_of_index, <- app_assoc. }
  rewrite Hparts.
  assert (Hmap : forall (l : list FileEntry) (a : nat) (acc : list (string * value)),
             fold_left (fun map '(index, entry) =>
                          obj_assign (String_of_index index)
                                     (VArr [VStr (path entry)]) map)
                       (combine (seq a (length l)) l) acc =
             fold_left (fun map '(index, entry) =>
                          obj_assign index (VArr [VStr (path entry)]) map)
                       (combine (map String_of_index (seq a (length l))) l) acc).
  { induction l as [| e l IH]; intros a acc; simpl; [reflexivity | apply IH]. }
  rewrite Hmap. fold (Array_entries files). fold (encoder_map files).
  rewrite encoder_map_spec. reflexivity.
Qed.

(** The request the earlier copy returns in the Transformed state: the one
    above, except for the headers. *)
Lemma Legacy_middleware_transformed existing request processed :
  run_existing existing request = Resolved processed ->
  transforms processed = true ->
  exists query,
    createFileUploadMiddleware existing request =
      Resolved (multipart_request processed query) /\
    Legacy.createFileUploadMiddleware existing request =
      Resolved
        {| url := url processed;
           method := method processed;
           operationName := operationName processed;
           variables := variables processed;
           headers := Some (obj_delete "content-type"
                              (obj_delete "Content-Type"
                                 (match headers processed with
                                  | Some h => h
                                  | None => []
                                  end)));
           body := body (multipart_request processed query);
           fetchOptions := fetchOptions processed |}.
Proof.
  intros Hrun Ht.
  destruct (middleware_transformed existing request processed Hrun Ht)
    as (b & query & Hb & Hq & Hres).
  exists query. split; [exact Hres |].
  unfold Legacy.createFileUploadMiddleware, run_existing in *. rewrite Hrun.
  unfold transforms in Ht.
  destruct (truthy (variables processed)); [| discriminate].
  destruct (hasFiles (variables processed)); [| discriminate].
  simpl. rewrite Hb, Hq, Legacy_createMultipartFormData_same. reflexivity.
Qed.

Lemma Legacy_middleware_pass_through existing request :
  (forall processed, run_existing existing request = Resolved processed ->
                     transforms processed = false ->
                     Legacy.createFileUploadMiddleware existing request =
                     Resolved processed) /\
  (forall reason, run_existing existing request = Rejected reason ->
                  Legacy.createFileUploadMiddleware existing request =
                  Rejected reason).
Proof.
  unfold Legacy.createFileUploadMiddleware, run_existing, transforms.
  split.
  - intros processed -> H.
    destruct (truthy (variables processed)); simpl in *; [| reflexivity].
    destruct (hasFiles (variables processed)); simpl in *; [| reflexivity].
    destruct (body processed) as [[| | | | b | | |] |]; try reflexivity.
    now destruct (parsed_query b).
  - now intros reason ->.
Qed.

(** C1, as stated, fails: the variables hold a file and the body [{}]
    parses to an object without a [query] field, yet the request that comes
    back, from either copy of the middleware, is not the request that went
    in. *)
Lemma no_query_field_is_not_passed_through :
  let request := upload_request (BodyValue (VStr "{}")) in
  contains_file (variables request) /\
  JSON_parse "{}" = Some (VObj []) /\
  no_query_field (VObj []) /\
  createFileUploadMiddleware None request <> Resolved request /\
  Legacy.createFileUploadMiddleware None request <> Resolved request.
Proof.
  split; [| split; [reflexivity | split; [reflexivity | split]]].
  - exists [Key "file"], fileA. econstructor; [now left | constructor].
  - vm_compute. discriminate.
  - vm_compute. discriminate.
Qed.

(** C1, amended.  When the variables of the processed request hold a
    binary payload leaf, the middleware, in either copy, resolves with that
    request as it is whenever the body is not a string, or the body fails to
    parse as JSON, or it parses to [null]; no error is raised. *)
Theorem unreadable_body_passes_through existing request processed :
  run_existing existing request = Resolved processed ->
  contains_file (variables processed) ->
  (forall b, body processed = BodyValue (VStr b) ->
             JSON_parse b = None \/ JSON_parse b = Some VNull) ->
  createFileUploadMiddleware existing request = Resolved processed /\
  Legacy.createFileUploadMiddleware existing request = Resolved processed.
Proof.
  intros Hrun _ Hbody.
  assert (Ht : transforms processed = false).
  { unfold transforms.
    destruct (body processed) as [[| | | | b | | |] |];
      try (now rewrite andb_false_r).
    unfold parsed_query.
    destruct (Hbody b eq_refl) as [-> | ->]; now rewrite andb_false_r. }
  split.
  - now apply middleware_pass_through.
  - now apply (proj1 (Legacy_middleware_pass_through existing request)).
Qed.

Lemma unreadable_body_passes_through_witness :
  let request := upload_request (BodyValue (VStr "{ query ")) in
  run_existing None request = Resolved request /\
  contains_file (variables request) /\
  JSON_parse "{ query " = None /\
  createFileUploadMiddleware None request = Resolved request /\
  Legacy.createFileUploadMiddleware None request = Resolved request.
Proof.
  assert (C : contains_file (variables (upload_request (BodyValue (VStr "{ query "))))).
  { exists [Key "file"], fileA. econstructor; [now left | constructor]. }
  split; [reflexivity |]. split; [exact C |]. split; [reflexivity |].
  apply (unreadable_body_passes_through None
           (upload_request (BodyValue (VStr "{ query ")))
           (upload_request (BodyValue (VStr "{ query ")))).
  - reflexivity.
  - exact C.
  - intros b Hb. injection Hb as <-. left. reflexivity.
Defined.

(** C2.  The copy of the middleware that deletes the header under the two
    spellings [Content-Type] and [content-type] transforms the request below
    and leaves its header [CONTENT-TYPE] in place; the middleware of
    [file-upload.ts] removes it. *)
Theorem Legacy_keeps_upper_case_content_type :
  transforms upper_case_request = true /\
  same_name "CONTENT-TYPE" "content-type" /\
  (exists result,
      Legacy.createFileUploadMiddleware None upper_case_request = Resolved result /\
      header result "CONTENT-TYPE" = Some "application/json") /\
  (exists result,
      createFileUploadMiddleware None upper_case_request = Resolved result /\
      header result "CONTENT-TYPE" = None).
Proof.
  split; [reflexivity |]. split; [apply is_content_type_spec; reflexivity |].
  split; eexists; split; reflexivity.
Qed.

(** ** The API version *)

Import ApiClient.

Lemma RegExp_test_version_regex (version : string) :
  RegExp_test version_regex version = true <-> version_format version.
Proof.
  unfold RegExp_test, version_regex. cbn [accept RRepeat RLit]. split.
  - destruct version as [| y1 [| y2 [| y3 [| y4 [| d [| m1 [| m2 rest]]]]]]];
      cbn [accept]; rewrite ?andb_false_r; try discriminate.
    intros H.
    repeat match goal with
           | H : _ && _ = true |- _ => apply andb_prop in H; destruct H
           end.
    match goal with H : (d =? "-")%char = true |- _ =>
      apply Ascii.eqb_eq in H; subst d end.
    assert (Hm : In (String m1 (String m2 rest)) ["01"; "04"; "07"; "10"]).
    { repeat match goal with
             | H : _ || _ = true |- _ => apply orb_prop in H; destruct H
             end;
        repeat match goal with
               | H : _ && _ = true |- _ => apply andb_prop in H; destruct H
               end;
        repeat match goal with
               | H : (_ =? _)%char = true |- _ => apply Ascii.eqb_eq in H; subst
               | H : (_ =? _)%string = true |- _ => apply String.eqb_eq in H; subst
               end;
        simpl; tauto. }
    exists y1, y2, y3, y4, (String m1 (String m2 rest)). repeat split; assumption.
  - intros (y1 & y2 & y3 & y4 & mm & H1 & H2 & H3 & H4 & Hm & ->).
    cbn [accept]. rewrite H1, H2, H3, H4. cbn [andb].
    destruct Hm as [<- | [<- | [<- | [<- | []]]]]; reflexivity.
Qed.

Lemma isValidApiVersion_spec (version : string) :
  isValidApiVersion version = true <->
  version = "dev" \/ version_format version.
Proof.
  unfold isValidApiVersion.
  rewrite orb_true_iff, String.eqb_eq, RegExp_test_version_regex. reflexivity.
Qed.

(** ** The client *)

Section ClientProofs.
Variable DEFAULT_VERSION : string.
Variable pkg_version : string.
Variable getApiEndpoint : option string -> string.
Variable GraphQLClient_request :
GraphQLClient -> string -> value -> bool -> Exception + value.
Variable GraphQLClient_rawRequest :
GraphQLClient -> string -> value -> bool -> Exception + value.

(** C9.  [new ApiClient] with the version string [apiVersion] throws
  exactly when the string is neither [dev] nor of the form of four digits,
  a hyphen and one of 01, 04, 07, 10; it has then done nothing, no client
  was created and nothing was sent, and the error carries the fixed
  message.  For a valid version string it does not throw, and returns the
  instance without sending anything. *)
Theorem constructor_validates_apiVersion (token apiVersion : string)
  (endpoint : option string) (requestConfig : option RequestConfig) :
let new_ApiClient :=
  constructor DEFAULT_VERSION pkg_version getApiEndpoint
    {| config_token := token;
       config_apiVersion := Some apiVersion;
       config_endpoint := endpoint;
       config_requestConfig := requestConfig |} in
INVALID_VERSION_MESSAGE =
  "Invalid API version format. Expected format is 'yyyy-mm' with month as one of '01', '04', '07', or '10'." /\
(new_ApiClient = ([], inl (Error INVALID_VERSION_MESSAGE)) <->
 ~ (apiVersion = "dev" \/ version_format apiVersion)) /\
((exists events exception, new_ApiClient = (events, inl exception)) <->
 ~ (apiVersion = "dev" \/ version_format apiVersion)) /\
((apiVersion = "dev" \/ version_format apiVersion) <->
 exists events instance,
   new_ApiClient = (events, inr instance) /\
   defaultApiVersion instance = apiVersion /\
   existsb is_Send events = false).
Proof.
intros new_ApiClient. subst new_ApiClient.
rewrite <- isValidApiVersion_spec.
unfold constructor. cbn [config_apiVersion].
split; [reflexivity |].
destruct (isValidApiVersion apiVersion) eqn:Hv; cbn [negb].
- split; [| split].
  + split; [discriminate | intros H; now elim H].
  + split; [intros (ev & ex & H); discriminate | intros H; now elim H].
  + split; [| reflexivity]. intros _. eexists _, _. repeat split.
- split; [| split].
  + split; [discriminate | reflexivity].
  + split; [discriminate | intros _; eexists _, _; reflexivity].
  + split; [discriminate | intros (ev & inst & H & _); discriminate].
Qed.

(** The version strings of the test suite. *)
Lemma isValidApiVersion_examples :
  map isValidApiVersion ["2024-01"; "2024-04"; "2024-07"; "2024-10"; "dev"] =
    [true; true; true; true; true] /\
  map isValidApiVersion ["2024-03"; "invalid"; "2024-01-01"; ""; "2024-1"; "24-01"] =
    [false; false; false; false; false; false].
Proof. split; reflexivity. Qed.

(** ** The request options *)




(** The version override passes the schema exactly when it is absent or a
  valid version string, which the empty string is not. *)
Lemma versionOverride_issues_nil (v : option string) :
versionOverride_issues v = [] <->
v = None \/ exists s, v = Some s /\ isValidApiVersion s = true.
Proof.
destruct v as [s |]; simpl.
- destruct (s =? "") eqn:E; simpl.
  + apply String.eqb_eq in E. subst s.
    split; [discriminate | intros [H | (s & H & Hv)]; [discriminate |]].
    injection H as <-. discriminate.
  + destruct (isValidApiVersion s) eqn:Hv.
    * split; [intros _; right; now exists s | reflexivity].
    * split; [discriminate | intros [H | (s' & H & Hv')]; [discriminate |]].
      injection H as <-. congruence.
- split; [now left | reflexivity].
Qed.

Lemma requestOptionsSchema_parse_ok (options : RequestOptions) :
requestOptionsSchema_parse options = inr options <->
versionOverride_issues (versionOverride options) = [] /\
timeout_issues (timeout options) = [].
Proof.
unfold requestOptionsSchema_parse.
destruct (versionOverride_issues (versionOverride options)) as [| i l];
  destruct (timeout_issues (timeout options)) as [| j k]; simpl;
  (split; [intros H; try discriminate; now split
          | intros [H1 H2]; try discriminate; reflexivity]).
Qed.

Lemma requestOptionsSchema_parse_cases (options : RequestOptions) :
requestOptionsSchema_parse options = inr options \/
exists issues, issues <> [] /\
               requestOptionsSchema_parse options = inl (ZodError issues).
Proof.
unfold requestOptionsSchema_parse.
destruct (versionOverride_issues (versionOverride options) ++
          timeout_issues (timeout options)) as [| i l].
- now left.
- right. exists (i :: l). split; [discriminate | reflexivity].
Qed.

(** The option objects of the test suite: timeouts of -1000, 0 and 60001
    and the empty version override are rejected, timeouts of 5000 and 60000
    and an empty options object are accepted. *)
Lemma requestOptionsSchema_parse_examples :
  let with_timeout t := {| versionOverride := None; timeout := Some t |} in
  let with_version v := {| versionOverride := Some v; timeout := None |} in
  requestOptionsSchema_parse (with_timeout (Dec (-1) 3)) = inl (ZodError [too_small]) /\
  requestOptionsSchema_parse (with_timeout (Dec 0 0)) = inl (ZodError [too_small]) /\
  requestOptionsSchema_parse (with_timeout (Dec 60001 0)) = inl (ZodError [too_big]) /\
  requestOptionsSchema_parse (with_version "") = inl (ZodError [too_small]) /\
  requestOptionsSchema_parse (with_version "2024-02") =
    inl (ZodError [custom INVALID_VERSION_MESSAGE]) /\
  requestOptionsSchema_parse (with_timeout (Dec 5 3)) = inr (with_timeout (Dec 5 3)) /\
  requestOptionsSchema_parse (with_timeout (Dec 6 4)) = inr (with_timeout (Dec 6 4)) /\
  requestOptionsSchema_parse (with_version "2024-04") = inr (with_version "2024-04") /\
  requestOptionsSchema_parse {| versionOverride := None; timeout := None |} =
    inr {| versionOverride := None; timeout := None |}.
Proof. repeat split. Qed.


End ClientProofs.

(** * Further properties of the middleware *)

(** ** Requests without files *)

Lemma hasFiles_contains_file (v : value) :
  hasFiles v = true <-> contains_file v.
Proof.
  unfold hasFiles. destruct (truthy v) eqn:Ht; simpl.
  - apply check_contains_file.
  - split; [discriminate |]. intros H. exfalso.
    eapply falsy_no_file; eassumption.
Qed.

Lemma transforms_needs_file (r : Request) :
  transforms r = true -> contains_file (variables r).
Proof.
  unfold transforms. intros H.
  apply andb_prop in H. destruct H as [H _].
  apply andb_prop in H. destruct H as [_ H].
  now apply hasFiles_contains_file.
Qed.

(** X1.  A request whose variables hold no binary payload leaf, at any
    depth, or has no variables at all, is returned as it is by both copies of
    the middleware, whatever its body and headers are. *)
Theorem request_without_files_passes_through existing request processed :
  run_existing existing request = Resolved processed ->
  ~ contains_file (variables processed) ->
  createFileUploadMiddleware existing request = Resolved processed /\
  Legacy.createFileUploadMiddleware existing request = Resolved processed.
Proof.
  intros Hrun Hno.
  assert (Ht : transforms processed = false).
  { apply not_true_iff_false. intros Ht. now apply Hno, transforms_needs_file. }
  split.
  - now apply middleware_pass_through.
  - now apply (proj1 (Legacy_middleware_pass_through existing request)).
Qed.

Lemma request_without_files_passes_through_witness :
  let request :=
    {| url := "https://api.monday.com/v2";
       method := "POST";
       operationName := None;
       variables := plain_tree;
       headers := Some [("Content-Type", "application/json")];
       body := json_body;
       fetchOptions := [] |} in
  run_existing None request = Resolved request /\
  ~ contains_file (variables request) /\
  createFileUploadMiddleware None request = Resolved request /\
  Legacy.createFileUploadMiddleware None request = Resolved request.
Proof.
  intros request.
  assert (Hno : ~ contains_file (variables request)).
  { intros H. apply check_contains_file in H. discriminate. }
  split; [reflexivity |]. split; [exact Hno |].
  apply (request_without_files_passes_through None request request);
    [reflexivity | exact Hno].
Defined.

(** ** The middleware after itself *)

Lemma middleware_cases existing request :
  (exists reason,
      run_existing existing request = Rejected reason /\
      createFileUploadMiddleware existing request = Rejected reason) \/
  (exists processed,
      run_existing existing request = Resolved processed /\
      ((transforms processed = false /\
        createFileUploadMiddleware existing request = Resolved processed) \/
       (exists query,
           transforms processed = true /\
           createFileUploadMiddleware existing request =
             Resolved (multipart_request processed query)))).
Proof.
  destruct (run_existing existing request) as [processed | reason] eqn:Hrun.
  - right. exists processed. split; [reflexivity |].
    destruct (transforms processed) eqn:Ht.
    + right.
      destruct (middleware_transformed existing request processed Hrun Ht)
        as (b & query & _ & _ & H).
      exists query. now split.
    + left. split; [reflexivity |]. now apply middleware_pass_through.
  - left. exists reason. split; [reflexivity |]. now apply middleware_rejected.
Qed.

Lemma multipart_request_not_transformed processed query :
  transforms (multipart_request processed query) = false.
Proof. unfold transforms. simpl. apply andb_false_r. Qed.

(** X2.  The middleware never encodes twice: the request it resolves with
    is left as it is when the middleware sees it again, so chaining the
    middleware after itself gives the same result as using it once. *)
Theorem middleware_after_itself existing request :
  (forall result,
      createFileUploadMiddleware existing request = Resolved result ->
      createFileUploadMiddleware None result = Resolved result) /\
  createFileUploadMiddleware (Some (createFileUploadMiddleware existing)) request =
  createFileUploadMiddleware existing request.
Proof.
  assert (Hstable : forall result,
             createFileUploadMiddleware existing request = Resolved result ->
             transforms result = false).
  { intros result H.
    destruct (middleware_cases existing request)
      as [(reason & _ & Hr) | (processed & _ & [[Ht Hr] | (query & _ & Hr)])];
      rewrite Hr in H; try discriminate; injection H as <-.
    - exact Ht.
    - apply multipart_request_not_transformed. }
  split.
  - intros result H. apply middleware_pass_through; [reflexivity |].
    now apply Hstable.
  - destruct (createFileUploadMiddleware existing request) as [result | reason] eqn:H.
    + apply middleware_pass_through; [exact H |]. now apply Hstable.
    + now apply middleware_rejected.
Qed.

(** ** The detector and the extractor *)

Lemma leaves_nil (v : value) (p : string) :
  leaves v p = [] <-> ~ contains_file v.
Proof.
  split.
  - intros Hnil (steps & f & Hl).
    assert (Hin : In {| path := dotted p steps; file := f |} (leaves v p)).
    { apply leaves_In. exists steps. now split. }
    rewrite Hnil in Hin. exact Hin.
  - intros Hno. destruct (leaves v p) as [| e l] eqn:E; [reflexivity |].
    exfalso. apply Hno.
    assert (Hin : In e (leaves v p)) by (rewrite E; now left).
    apply leaves_In in Hin. destruct Hin as (steps & Hl & _).
    now exists steps, (file e).
Qed.

Lemma existsb_value_obj_set {A : Type} (P : A -> bool) (k : string) (v : A)
    (o : list (string * A)) :
  P v = false -> existsb (fun kv => P (snd kv)) o = false ->
  existsb (fun kv => P (snd kv)) (obj_set k v o) = false.
Proof.
  intros Hv. induction o as [| [k1 x] o IH]; simpl; intros H.
  - now rewrite Hv.
  - apply orb_false_elim in H. destruct H as [H1 H2].
    destruct (k1 =? k); simpl.
    + now rewrite Hv, H2.
    + now rewrite H1, (IH H2).
Qed.





(** ** The cleaned tree *)

Lemma obj_set_plain_keys (k : string) (v : value) (o : list (string * value)) :
  (k =? "__proto__") = false -> plain_keys v = true ->
  forallb (fun kv => negb (fst kv =? "__proto__") && plain_keys (snd kv)) o = true ->
  forallb (fun kv => negb (fst kv =? "__proto__") && plain_keys (snd kv))
          (obj_set k v o) = true.
Proof.
  intros Hk Hv. induction o as [| [k1 x] o IH]; cbn [obj_set forallb fst snd]; intros H.
  - now rewrite Hk, Hv.
  - apply andb_prop in H. destruct H as [H1 H2].
    destruct (k1 =? k) eqn:E; cbn [forallb fst snd].
    + apply String.eqb_eq in E. subst k1. now rewrite Hk, Hv, H2.
    + now rewrite H1, (IH H2).
Qed.

(** What [processValue] returns has no binary payload leaf, no key twice
    and no key [__proto__], whatever it was given. *)
Lemma processValue_result (v : value) :
  forall p fs,
    check (fst (processValue v p fs)) = false /\
    well_formed (fst (processValue v p fs)) = true /\
    plain_keys (fst (processValue v p fs)) = true.
Proof.
  induction v as [| | b | n | s | f | items IH | props IH] using value_ind;
    intros p fs; try (repeat split; reflexivity).
  - rewrite processValue_array.
    assert (H : forall i fs,
               existsb check (fst (process_items p items i fs)) = false /\
               forallb well_formed (fst (process_items p items i fs)) = true /\
               forallb plain_keys (fst (process_items p items i fs)) = true).
    { clear fs. induction IH as [| x l Hx _ IHl]; intros i fs; simpl.
      - now repeat split.
      - specialize (Hx (p +++ "." +++ String_of_index i) fs).
        destruct (processValue x _ fs) as [x' fs1]. simpl in Hx.
        specialize (IHl (S i) fs1).
        destruct (process_items p l (S i) fs1) as [rest fs2]. simpl in *.
        destruct Hx as (-> & -> & ->), IHl as (-> & -> & ->). now repeat split. }
    specialize (H 0 fs). destruct (process_items p items 0 fs). exact H.
  - rewrite processValue_object.
    assert (H : forall result fs,
               existsb (fun kv => check (snd kv)) result = false ->
               distinct_keys result = true ->
               forallb (fun kv => well_formed (snd kv)) result = true ->
               forallb (fun kv => negb (fst kv =? "__proto__") &&
                                  plain_keys (snd kv)) result = true ->
               let out := fst (process_entries p props result fs) in
               existsb (fun kv => check (snd kv)) out = false /\
               distinct_keys out = true /\
               forallb (fun kv => well_formed (snd kv)) out = true /\
               forallb (fun kv => negb (fst kv =? "__proto__") &&
                                  plain_keys (snd kv)) out = true).
    { clear fs.
      induction IH as [| [k x] l Hx _ IHl]; intros result fs H1 H2 H3 H4; simpl.
      - now repeat split.
      - simpl in Hx. specialize (Hx (p +++ "." +++ k) fs).
        destruct (processValue x _ fs) as [x' fs1]. simpl in Hx.
        destruct Hx as (Hc & Hw & Hp). unfold obj_assign.
        destruct (k =? "__proto__") eqn:Ek; [now apply IHl |].
        apply IHl.
        + now apply existsb_value_obj_set.
        + now apply obj_set_distinct.
        + now apply (obj_set_forallb well_formed).
        + now apply obj_set_plain_keys. }
    specialize (H [] fs eq_refl eq_refl eq_refl eq_refl).
    destruct (process_entries p props [] fs) as [out fs']. simpl in *.
    destruct H as (-> & -> & -> & ->). now repeat split.
Qed.

Lemma extractFiles_eta (v : value) (p : string) :
  extractFiles v p =
  {| cleanedVariables := cleanedVariables (extractFiles v p);
     files := files (extractFiles v p) |}.
Proof. now destruct (extractFiles v p). Qed.

(** X4.  The cleaned tree that [extractFiles] returns holds no binary
    payload leaf and no key twice, for every input; extracting from it again,
    under any root, returns it as it is with an empty list of entries. *)
Theorem cleaned_tree_has_no_file (v : value) (root root' : string) :
  let cleanedTree := cleanedVariables (extractFiles v root) in
  hasFiles cleanedTree = false /\
  well_formed cleanedTree = true /\
  extractFiles cleanedTree root' =
    {| cleanedVariables := cleanedTree; files := [] |}.
Proof.
  intros cleanedTree.
  assert (H : check cleanedTree = false /\ well_formed cleanedTree = true /\
              plain_keys cleanedTree = true).
  { subst cleanedTree. unfold extractFiles.
    pose proof (processValue_result v root []) as H.
    now destruct (processValue v root []). }
  destruct H as (Hc & Hw & Hpk).
  assert (Hno : ~ contains_file cleanedTree).
  { intros Hf. apply check_contains_file in Hf. congruence. }
  split; [| split; [exact Hw |]].
  - unfold hasFiles. now destruct (truthy cleanedTree).
  - rewrite (extractFiles_eta cleanedTree root').
    rewrite (extractFiles_cleaned cleanedTree root' Hw Hpk), extractFiles_files.
    rewrite (nullify_without_file cleanedTree Hno).
    now rewrite (proj2 (leaves_nil cleanedTree root') Hno).
Qed.

(** ** Paths of distinct leaves *)

Lemma append_inj_l (p a b : string) : p +++ a = p +++ b -> a = b.
Proof.
  induction p as [| x p IH]; simpl; intros H; [exact H |].
  injection H as H. now apply IH.
Qed.

(** Two dot-free names followed by dotted tails are equal as soon as the
    whole strings are. *)
Lemma dot_free_prefix (a : string) :
  forall b t1 t2,
    dot_free_string a = true -> dot_free_string b = true ->
    dotted_tail t1 -> dotted_tail t2 ->
    a +++ t1 = b +++ t2 -> a = b.
Proof.
  induction a as [| x a IH]; intros b t1 t2 Ha Hb H1 H2 H; simpl in *.
  - destruct b as [| y b]; [reflexivity |]. simpl in *. exfalso.
    apply andb_prop in Hb. destruct Hb as [Hy _].
    destruct H1 as [-> | (t' & ->)]; [discriminate |].
    injection H as <- _. discriminate.
  - apply andb_prop in Ha. destruct Ha as [Hx Ha].
    destruct b as [| y b]; simpl in *.
    + exfalso. destruct H2 as [-> | (t' & ->)]; [discriminate |].
      injection H as -> _. discriminate.
    + apply andb_prop in Hb. destruct Hb as [_ Hb].
      injection H as -> H. f_equal. now apply (IH b t1 t2).
Qed.

Lemma dotted_append (steps : list step) :
  forall p, exists t, dotted p steps = p +++ t /\ dotted_tail t.
Proof.
  unfold dotted.
  induction steps as [| s steps IH]; intros p; simpl.
  - exists "". split; [now rewrite append_nil_r | now left].
  - destruct (IH (p +++ segment s)) as (t & -> & _).
    exists (segment s +++ t). split; [apply append_assoc |].
    right. destruct s; simpl; eexists; reflexivity.
Qed.

Lemma leaves_path_tail (v : value) (p : string) (e : FileEntry) :
  In e (leaves v p) -> exists t, path e = p +++ t /\ dotted_tail t.
Proof.
  intros Hin. apply leaves_In in Hin. destruct Hin as (steps & _ & ->).
  apply dotted_append.
Qed.

Lemma String_of_index_dot_free (i : nat) :
  dot_free_string (String_of_index i) = true.
Proof.
  unfold String_of_index. generalize (Nat.to_uint i).
  induction u; simpl; try reflexivity; exact IHu.
Qed.

(** Leaves under two children whose names differ have different paths. *)
Lemma child_paths_differ (p a b : string) (x y : value) (e e' : FileEntry) :
  dot_free_string a = true -> dot_free_string b = true -> a <> b ->
  In e (leaves x (p +++ "." +++ a)) ->
  In e' (leaves y (p +++ "." +++ b)) ->
  path e <> path e'.
Proof.
  intros Ha Hb Hne Hin Hin' Heq.
  apply leaves_path_tail in Hin. destruct Hin as (t & Hp & Ht).
  apply leaves_path_tail in Hin'. destruct Hin' as (t' & Hp' & Ht').
  rewrite Hp, Hp', !append_assoc in Heq.
  apply append_inj_l in Heq. simpl in Heq. injection Heq as Heq.
  now apply Hne, (dot_free_prefix a b t t').
Qed.

Lemma leaves_paths_NoDup (v : value) :
  well_formed v = true -> dot_free v = true ->
  forall p, NoDup (map path (leaves v p)).
Proof.
  induction v as [| | b | n | s | f | items IH | props IH] using value_ind;
    intros Hwf Hdf p; try (simpl; constructor).
  - intros [].
  - constructor.
  - rewrite leaves_array. simpl in Hwf, Hdf. generalize 0 as i.
    induction IH as [| x l Hx _ IHl]; intros i; simpl; [constructor |].
    apply andb_prop in Hwf. destruct Hwf as [Hw1 Hw2].
    apply andb_prop in Hdf. destruct Hdf as [Hd1 Hd2].
    rewrite map_app. apply NoDup_app.
    + now apply Hx.
    + now apply IHl.
    + intros q Hq Hq'.
      apply in_map_iff in Hq. destruct Hq as (e & <- & He).
      apply in_map_iff in Hq'. destruct Hq' as (e' & Heq & He').
      apply leaves_items_In in He'. destruct He' as (j & y & _ & He').
      revert Heq. apply not_eq_sym.
      apply (child_paths_differ p (String_of_index i) (String_of_index (S i + j))
                                x y e e');
        try apply String_of_index_dot_free; try assumption.
      intros H. apply String_of_index_inj in H. lia.
  - rewrite leaves_object. simpl in Hwf, Hdf.
    apply andb_prop in Hwf. destruct Hwf as [Hk Hwf].
    induction IH as [| [k x] l Hx _ IHl]; simpl; [constructor |].
    simpl in Hx, Hk, Hwf, Hdf.
    apply andb_prop in Hk. destruct Hk as [Hk1 Hk2].
    apply andb_prop in Hwf. destruct Hwf as [Hw1 Hw2].
    apply andb_prop in Hdf. destruct Hdf as [Hd1 Hd2].
    apply andb_prop in Hd1. destruct Hd1 as [Hdk Hdx].
    rewrite map_app. apply NoDup_app.
    + now apply Hx.
    + now apply IHl.
    + intros q Hq Hq'.
      apply in_map_iff in Hq. destruct Hq as (e & <- & He).
      apply in_map_iff in Hq'. destruct Hq' as (e' & Heq & He').
      apply leaves_entries_In in He'. destruct He' as (k' & y & Hin & He').
      revert Heq. apply not_eq_sym.
      apply (child_paths_differ p k k' x y e e'); try assumption.
      * rewrite forallb_forall in Hd2. specialize (Hd2 _ Hin). simpl in Hd2.
        now apply andb_prop in Hd2.
      * intros ->. apply negb_true_iff in Hk1.
        apply not_true_iff_false in Hk1. apply Hk1.
        apply existsb_exists. exists (k', y). split; [exact Hin |].
        apply String.eqb_refl.
Qed.

(** X5.  When no object of the variables tree has a key twice or a key
    with a dot in it, the paths that [extractFiles] records are pairwise
    distinct: a path names one leaf. *)
Theorem extracted_paths_are_distinct (v : value) (root : string) :
  well_formed v = true -> dot_free v = true ->
  NoDup (map path (files (extractFiles v root))).
Proof.
  intros Hwf Hdf. rewrite extractFiles_files. now apply leaves_paths_NoDup.
Qed.

Lemma extracted_paths_are_distinct_witness :
  well_formed mixed_tree = true /\ dot_free mixed_tree = true /\
  NoDup (map path (files (extractFiles mixed_tree "variables"))).
Proof.
  split; [reflexivity |]. split; [reflexivity |].
  apply (extracted_paths_are_distinct mixed_tree "variables"); reflexivity.
Defined.

(** With a dot in a key the same path is recorded for two leaves. *)
Lemma dotted_key_shares_a_path :
  map path
    (files (extractFiles
              (VObj [("a.b", VFile fileA); ("a", VObj [("b", VFile fileB)])])
              "variables")) =
  ["variables.a.b"; "variables.a.b"].
Proof. reflexivity. Qed.

(** ** The two copies of the middleware *)

(** X6.  The two copies of [createMultipartFormData], the one that loops
    over [Object.entries(files)] and the one that uses [files.forEach],
    build the same form from the same arguments. *)
Theorem both_encoders_build_the_same_form (query cleanedTree : value)
    (files : list FileEntry) :
  Legacy.createMultipartFormData query cleanedTree files =
  createMultipartFormData query cleanedTree files.
Proof. apply Legacy_createMultipartFormData_same. Qed.

Lemma two_deletions_strip (h : list (string * string)) :
  (forall name, In name (obj_keys h) -> same_name name "content-type" ->
                name = "Content-Type" \/ name = "content-type") ->
  obj_delete "content-type" (obj_delete "Content-Type" h) = strip_content_type h.
Proof.
  intros Hkeys. rewrite strip_content_type_filter.
  unfold obj_delete. rewrite filter_twice. apply filter_ext_in.
  intros [k x] Hin. simpl.
  destruct (is_content_type k) eqn:E; simpl.
  - apply is_content_type_spec in E.
    destruct (Hkeys k) as [-> | ->]; try reflexivity; try exact E.
    unfold obj_keys. now apply (in_map fst) in Hin.
  - destruct (k =? "Content-Type") eqn:E1.
    { apply String.eqb_eq in E1. subst k. discriminate. }
    destruct (k =? "content-type") eqn:E2.
    { apply String.eqb_eq in E2. subst k. discriminate. }
    reflexivity.
Qed.

(** X7.  On a request whose content-type header, if it has one, is
    spelled [Content-Type] or [content-type], the earlier copy of the
    middleware and the one of [file-upload.ts] return the same result. *)
Theorem both_middlewares_agree existing request :
  (forall processed name,
      run_existing existing request = Resolved processed ->
      In name (obj_keys (match headers processed with
                         | Some h => h
                         | None => []
                         end)) ->
      same_name name "content-type" ->
      name = "Content-Type" \/ name = "content-type") ->
  Legacy.createFileUploadMiddleware existing request =
  createFileUploadMiddleware existing request.
Proof.
  intros Hkeys.
  destruct (run_existing existing request) as [processed | reason] eqn:Hrun.
  - destruct (transforms processed) eqn:Ht.
    + destruct (Legacy_middleware_transformed existing request processed Hrun Ht)
        as (query & -> & ->).
      unfold multipart_request. cbn [body]. f_equal. f_equal.
      f_equal. apply two_deletions_strip.
      intros name. now apply Hkeys.
    + rewrite (middleware_pass_through existing request processed Hrun Ht).
      now apply (proj1 (Legacy_middleware_pass_through existing request)).
  - rewrite (middleware_rejected existing request reason Hrun).
    now apply (proj2 (Legacy_middleware_pass_through existing request)).
Qed.

Lemma both_middlewares_agree_witness :
  let request := upload_request json_body in
  transforms request = true /\
  Legacy.createFileUploadMiddleware None request =
  createFileUploadMiddleware None request.
Proof.
  split; [reflexivity |].
  apply (both_middlewares_agree None (upload_request json_body)).
  intros processed name Hrun Hin Hs. injection Hrun as <-.
  apply is_content_type_spec in Hs.
  simpl in Hin. destruct Hin as [<- | [<- | [<- | []]]].
  - now left.
  - discriminate.
  - discriminate.
Defined.

(** * Further properties of the client *)

Lemma obj_get_obj_set {A : Type} (k k' : string) (v : A) (o : list (string * A)) :
  obj_get k (obj_set k' v o) = if k' =? k then Some v else obj_get k o.
Proof.
  induction o as [| [k1 x] o IH]; simpl.
  - reflexivity.
  - destruct (k1 =? k') eqn:E1; simpl.
    + apply String.eqb_eq in E1. subst k1.
      now destruct (k' =? k).
    + destruct (k1 =? k) eqn:E2; [| exact IH].
      apply String.eqb_eq in E2. subst k1.
      rewrite String.eqb_sym in E1. now rewrite E1.
Qed.

(** Assigning the properties of [h] one after the other, as a spread does:
    a key of [h] reads as in [h], any other key as before. *)
Lemma obj_get_spread {A : Type} (k : string) (h : list (string * A)) :
  distinct_keys h = true ->
  forall o,
    obj_get k (fold_left (fun merged '(k', v) => obj_set k' v merged) h o) =
    match obj_get k h with
    | Some v => Some v
    | None => obj_get k o
    end.
Proof.
  induction h as [| [k1 x] h IH]; simpl; intros Hd o; [reflexivity |].
  apply andb_prop in Hd. destruct Hd as [Hk Hd].
  rewrite (IH Hd), obj_get_obj_set.
  destruct (k1 =? k) eqn:E; [| reflexivity].
  apply String.eqb_eq in E. subst k1.
  destruct (obj_get k h) as [y |] eqn:Eg; [| reflexivity].
  exfalso. apply negb_true_iff in Hk. apply not_true_iff_false in Hk. apply Hk.
  clear -Eg. induction h as [| [k2 z] h IH]; [discriminate |]. simpl in *.
  destruct (k2 =? k); [reflexivity | now apply IH].
Qed.

Lemma obj_get_spread_other {A : Type} (k : string) (h : list (string * A)) :
  obj_get k h = None ->
  forall o,
    obj_get k (fold_left (fun merged '(k', v) => obj_set k' v merged) h o) =
    obj_get k o.
Proof.
  induction h as [| [k1 x] h IH]; simpl; intros Hn o; [reflexivity |].
  destruct (k1 =? k) eqn:E; [discriminate |].
  now rewrite (IH Hn), obj_get_obj_set, E.
Qed.

Section ClientFurther.
Variable DEFAULT_VERSION : string.
Variable pkg_version : string.
Variable getApiEndpoint : option string -> string.
Variable GraphQLClient_request :
  GraphQLClient -> string -> value -> bool -> Exception + value.
Variable GraphQLClient_rawRequest :
  GraphQLClient -> string -> value -> bool -> Exception + value.

(** X8.  The headers of a client are the four default headers overridden
    by the headers of the request configuration: a header the caller
    configured reads as configured, any other header reads as the default,
    where the default [API-Version] is the version override of the options
    when there is one and the version of the instance otherwise. *)
Theorem createClient_headers (token defaultVersion : string)
    (endpoint : option string) (requestConfig : RequestConfig)
    (options : option RequestOptions) (name : string) :
  let configured :=
    match config_headers requestConfig with
    | Some h => h
    | None => []
    end in
  let version :=
    match options with
    | Some {| versionOverride := Some v |} => v
    | _ => defaultVersion
    end in
  distinct_keys configured = true ->
  obj_get name
    (client_headers
       (createClient pkg_version getApiEndpoint token defaultVersion endpoint
                     requestConfig options)) =
  match obj_get name configured with
  | Some v => Some v
  | None =>
      obj_get name [("Content-Type", "application/json");
                    ("Authorization", token);
                    ("API-Version", version);
                    ("Api-Sdk-Version", pkg_version)]
  end.
Proof.
  intros configured version Hd. unfold createClient. cbn [client_headers].
  fold configured. rewrite (obj_get_spread name configured Hd).
  destruct (obj_get name configured); [reflexivity |].
  subst version. destruct options as [[[v |] t] |]; reflexivity.
Qed.

Lemma zero_not_positive (e : Z) : number_positive (Dec 0 e) = false.
Proof.
  unfold number_positive, number_value.
  destruct (0 <=? e)%Z; reflexivity.
Qed.

(** A timeout the schema accepts is one [createAbortController] arms. *)
Lemma validated_timeout_armed (t : option number) :
  timeout_issues t = [] -> createAbortController t = t.
Proof.
  destruct t as [[m e | | |] |]; cbn [timeout_issues]; intros H;
    try discriminate; try reflexivity.
  destruct m as [| p | p]; try reflexivity.
  now rewrite zero_not_positive in H.
Qed.

(** X9.  With options that pass the validation, [request] and
    [rawRequest] create one client for the call; when the options carry a
    timeout the timer is armed with exactly that timeout before the request
    is sent, the request is sent with the abort signal, and the timer is
    cleared after it, whatever the transport settles with; without a timeout
    no timer is armed and the request is sent without a signal. *)
Theorem validated_timeout_is_armed_and_cleared (this : ApiClient)
    (query : string) (variables : value) (options : RequestOptions) :
  requestOptionsSchema_parse options = inr options ->
  let client :=
    createClient pkg_version getApiEndpoint (token this) (defaultApiVersion this)
                 (defaultEndpoint this) (requestConfig this) (Some options) in
  let events raw :=
    match timeout options with
    | Some ms =>
        [NewGraphQLClient client; SetTimeout ms;
         Send raw client query variables true; ClearTimeout]
    | None =>
        [NewGraphQLClient client; Send raw client query variables false]
    end in
  let signal :=
    match timeout options with
    | Some _ => true
    | None => false
    end in
  request pkg_version getApiEndpoint GraphQLClient_request
          this query variables (Some options) =
    (events false, GraphQLClient_request client query variables signal) /\
  rawRequest pkg_version getApiEndpoint GraphQLClient_rawRequest
             this query variables (Some options) =
    (events true, GraphQLClient_rawRequest client query variables signal).
Proof.
  intros Hok client events signal. subst client events signal.
  unfold request, rawRequest, executeRequest. rewrite Hok.
  apply requestOptionsSchema_parse_ok in Hok. destruct Hok as [_ Ht].
  rewrite (validated_timeout_armed _ Ht).
  destruct (timeout options); split; reflexivity.
Qed.

Lemma created_client_version (token defaultVersion : string)
    (endpoint : option string) (requestConfig : RequestConfig)
    (options : option RequestOptions) :
  obj_get "API-Version"
    (match config_headers requestConfig with
     | Some h => h
     | None => []
     end) = None ->
  obj_get "API-Version"
    (client_headers
       (createClient pkg_version getApiEndpoint token defaultVersion endpoint
                     requestConfig options)) =
  Some match options with
       | Some {| versionOverride := Some v |} => v
       | _ => defaultVersion
       end.
Proof.
  intros Hn. unfold createClient. cbn [client_headers].
  rewrite (obj_get_spread_other _ _ Hn).
  destruct options as [[[v |] t] |]; reflexivity.
Qed.

Lemma constructed_instance (config : ApiClientConfig) (events : list Event)
    (this : ApiClient) :
  constructor DEFAULT_VERSION pkg_version getApiEndpoint config =
    (events, inr this) ->
  isValidApiVersion (defaultApiVersion this) = true /\
  defaultApiVersion this =
    match config_apiVersion config with
    | Some v => v
    | None => DEFAULT_VERSION
    end /\
  requestConfig this =
    match config_requestConfig config with
    | Some c => c
    | None => {| config_headers := None; config_requestMiddleware := None |}
    end /\
  events = [NewGraphQLClient (operations this)] /\
  operations this =
    createClient pkg_version getApiEndpoint (token this) (defaultApiVersion this)
                 (defaultEndpoint this) (requestConfig this) None.
Proof.
  unfold constructor.
  destruct (isValidApiVersion
              match config_apiVersion config with
              | Some v => v
              | None => DEFAULT_VERSION
              end) eqn:Hv; cbn [negb]; intros H; [| discriminate].
  injection H as <- <-. cbn. now rewrite Hv.
Qed.

(** X10.  Every client of a constructed instance announces a valid
    version.  When the configured headers do not set [API-Version]
    themselves, the client created by the constructor and every client
    created by a later [request] or [rawRequest] carries an [API-Version]
    header that is a valid version string: the version override of the call
    when there is one, the version the instance was constructed with
    otherwise. *)
Theorem clients_carry_a_valid_version (config : ApiClientConfig)
    (created : list Event) (this : ApiClient) (raw : bool) (query : string)
    (variables : value) (options : option RequestOptions)
    (events : list Event) (result : Exception + value) :
  constructor DEFAULT_VERSION pkg_version getApiEndpoint config =
    (created, inr this) ->
  obj_get "API-Version"
    (match config_headers (requestConfig this) with
     | Some h => h
     | None => []
     end) = None ->
  (if raw
   then rawRequest pkg_version getApiEndpoint GraphQLClient_rawRequest
                   this query variables options
   else request pkg_version getApiEndpoint GraphQLClient_request
                this query variables options) = (events, result) ->
  let chosen :=
    match options with
    | Some {| versionOverride := Some v |} => v
    | _ => defaultApiVersion this
    end in
  isValidApiVersion (defaultApiVersion this) = true /\
  (forall client,
     In (NewGraphQLClient client) created ->
     obj_get "API-Version" (client_headers client) =
       Some (defaultApiVersion this)) /\
  (forall client,
     In (NewGraphQLClient client) events ->
     obj_get "API-Version" (client_headers client) = Some chosen /\
     isValidApiVersion chosen = true).
Proof.
  intros Hnew Hn Hcall chosen.
  destruct (constructed_instance _ _ _ Hnew) as (Hv & _ & _ & Hc & Hop).
  split; [exact Hv |]. split.
  - intros client Hin. subst created.
    destruct Hin as [Hin | []]. injection Hin as <-.
    rewrite Hop. now rewrite (created_client_version _ _ _ _ None Hn).
  - intros client Hin.
    assert (Hex : exists sent,
              executeRequest pkg_version getApiEndpoint this options
                (fun c signal => ([Send raw c query variables signal], sent c signal)) =
              (events, result)).
    { destruct raw; eexists; exact Hcall. }
    destruct Hex as [sent Hex]. unfold executeRequest in Hex.
    destruct options as [o |].
    + destruct (requestOptionsSchema_parse_cases o) as [Hok | (issues & _ & Herr)].
      * rewrite Hok in Hex.
        assert (Hc' : client =
                  createClient pkg_version getApiEndpoint (token this)
                    (defaultApiVersion this) (defaultEndpoint this)
                    (requestConfig this) (Some o)).
        { injection Hex as <- _. destruct Hin as [Hin | Hin]; [now injection Hin |].
          destruct (createAbortController (timeout o)); cbn in Hin;
            intuition discriminate. }
        subst client. split.
        -- exact (created_client_version _ _ _ _ (Some o) Hn).
        -- subst chosen. apply requestOptionsSchema_parse_ok in Hok.
           destruct Hok as [Hvo _]. apply versionOverride_issues_nil in Hvo.
           destruct o as [[v |] t]; cbn in *; [| exact Hv].
           destruct Hvo as [Hvo | (s & Hs & Hvs)]; [discriminate |].
           now injection Hs as <-.
      * rewrite Herr in Hex. injection Hex as <- _. destruct Hin.
    + assert (Hc' : client =
                  createClient pkg_version getApiEndpoint (token this)
                    (defaultApiVersion this) (defaultEndpoint this)
                    (requestConfig this) None).
      { injection Hex as <- _. cbn [createAbortController app] in Hin.
        destruct Hin as [Hin | [Hin | []]]; [now injection Hin | discriminate]. }
      subst client. split; [| exact Hv].
      exact (created_client_version _ _ _ _ None Hn).
Qed.
End ClientFurther.

Lemma createClient_headers_witness :
  let requestConfig :=
    {| config_headers := Some [("Authorization", "Bearer abc"); ("X-Trace", "1")];
       config_requestMiddleware := None |} in
  let client :=
    createClient "1.0.0" (fun _ => "https://api.monday.com/v2")
      "token" "2024-10" None requestConfig
      (Some {| versionOverride := Some "2025-01"; timeout := None |}) in
  obj_get "Authorization" (client_headers client) = Some "Bearer abc" /\
  obj_get "API-Version" (client_headers client) = Some "2025-01".
Proof.
  intros requestConfig client. split.
  - apply (createClient_headers "1.0.0" (fun _ => "https://api.monday.com/v2")
             "token" "2024-10" None requestConfig
             (Some {| versionOverride := Some "2025-01"; timeout := None |})
             "Authorization"). reflexivity.
  - apply (createClient_headers "1.0.0" (fun _ => "https://api.monday.com/v2")
             "token" "2024-10" None requestConfig
             (Some {| versionOverride := Some "2025-01"; timeout := None |})
             "API-Version"). reflexivity.
Defined.

Lemma validated_timeout_is_armed_and_cleared_witness :
  let options := {| versionOverride := None; timeout := Some (Dec 5 3) |} in
  let client :=
    createClient "1.0.0" endpoint_or_default "token" "2024-10" None
      (requestConfig sample_instance) (Some options) in
  request "1.0.0" endpoint_or_default echo_transport sample_instance
          "query { me { id } }" VNull (Some options) =
    ([NewGraphQLClient client; SetTimeout (Dec 5 3);
      Send false client "query { me { id } }" VNull true; ClearTimeout],
     inr VNull).
Proof.
  intros options client.
  exact (proj1 (validated_timeout_is_armed_and_cleared
                  "1.0.0" endpoint_or_default echo_transport echo_transport
                  sample_instance "query { me { id } }" VNull options eq_refl)).
Defined.

Lemma clients_carry_a_valid_version_witness :
  let options := {| versionOverride := Some "2025-01"; timeout := None |} in
  let client :=
    createClient "1.0.0" endpoint_or_default "token" "2024-10" None
      (requestConfig sample_instance) (Some options) in
  obj_get "API-Version" (client_headers client) = Some "2025-01" /\
  isValidApiVersion "2025-01" = true.
Proof.
  intros options client.
  destruct (clients_carry_a_valid_version
              "2025-07" "1.0.0" endpoint_or_default echo_transport echo_transport
              sample_config [NewGraphQLClient (operations sample_instance)]
              sample_instance false "query { me { id } }" VNull (Some options)
              [NewGraphQLClient client;
               Send false client "query { me { id } }" VNull false]
              (inr VNull) eq_refl eq_refl eq_refl) as (_ & _ & H).
  apply H. left. reflexivity.
Defined.

(** * JSON.parse reads back what JSON.stringify writes *)

(** ** Strings *)

Lemma parse_quote_char (c : ascii) (s rest : string) (items : list str_item) :
  parse_string_items s = Some (items, rest) ->
  exists items',
    parse_string_items (quote_char c +++ s) = Some (items', rest) /\
    decode_items items' = String c (decode_items items) /\
    head_low items' = false.
Proof.
  intros H.
  destruct c as [[|] [|] [|] [|] [|] [|] [|] [|]];
    cbn; rewrite H; eexists; (split; [reflexivity |]);
    (split; [| reflexivity]);
    try reflexivity; destruct items as [| [] ?]; reflexivity.
Qed.

(** A byte from 128 on is read as it is. *)
Lemma parse_raw (c : ascii) (s rest : string) (items : list str_item) :
  (128 <= N_of_ascii c)%N ->
  parse_string_items s = Some (items, rest) ->
  parse_string_items (String c s) = Some (Raw c :: items, rest).
Proof.
  intros Hc H. cbn [parse_string_items]. cbv zeta. rewrite H.
  replace (N_of_ascii c =? 34)%N with false by (symmetry; apply N.eqb_neq; lia).
  replace (N_of_ascii c =? 92)%N with false by (symmetry; apply N.eqb_neq; lia).
  replace (N_of_ascii c <? 32)%N with false by (symmetry; apply N.ltb_ge; lia).
  reflexivity.
Qed.

(** The escape of a surrogate is read as its code unit. *)
Lemma parse_escape_unit (a b c : ascii) (s rest : string) (items : list str_item) :
  high_surrogate_bytes a b c || low_surrogate_bytes a b c = true ->
  parse_string_items s = Some (items, rest) ->
  parse_string_items (escape_unit (code_unit b c) +++ s) =
    Some (Unit16 (code_unit b c) :: items, rest).
Proof.
  intros Hsur H. apply surrogate_checked in Hsur.
  unfold surrogate_check in Hsur. cbv zeta in Hsur. fold (code_unit b c) in Hsur.
  destruct (escape_unit (code_unit b c))
    as [| e0 [| e1 [| h1 [| h2 [| h3 [| h4 [| ? ?]]]]]]];
    try (now rewrite ?andb_false_r in Hsur).
  repeat (apply andb_prop in Hsur; destruct Hsur as [Hsur ?]).
  match goal with
  | E : Ascii.eqb e0 backslash && Ascii.eqb e1 "u" && _ = true |- _ =>
      apply andb_prop in E; destruct E as [E Hx];
      apply andb_prop in E; destruct E as [E0 E1]
  end.
  apply Ascii.eqb_eq in E0, E1. subst e0 e1.
  destruct (hex4 h1 h2 h3 h4) as [u' |] eqn:Eh; [| discriminate].
  apply N.eqb_eq in Hx. subst u'.
  cbn [append].
  change (parse_string_items
            (String backslash (String "u"
               (String h1 (String h2 (String h3 (String h4 s)))))))
    with (match hex4 h1 h2 h3 h4, parse_string_items s with
          | Some u, Some (items, rest) => Some (Unit16 u :: items, rest)
          | _, _ => None
          end).
  now rewrite Eh, H.
Qed.

(** A code unit that has no partner after it is decoded by itself. *)
Lemma decode_lone (u : N) (items : list str_item) :
  is_high_surrogate u && head_low items = false ->
  decode_items (Unit16 u :: items) = utf8_encode u +++ decode_items items.
Proof.
  intros H. destruct items as [| [c | lo] r]; try reflexivity.
  cbn [head_low] in H. cbn [decode_items]. now rewrite H.
Qed.

Lemma surrogate_decoded (a b c : ascii) :
  high_surrogate_bytes a b c || low_surrogate_bytes a b c = true ->
  utf8_encode (code_unit b c) = String a (String b (String c "")) /\
  is_high_surrogate (code_unit b c) = high_surrogate_bytes a b c /\
  is_low_surrogate (code_unit b c) = low_surrogate_bytes a b c.
Proof.
  intros Hsur.
  destruct (surrogate_bytes a b c Hsur) as (Ha & _ & _ & _ & _ & Hh & Hl).
  apply surrogate_checked in Hsur.
  unfold surrogate_check in Hsur. cbv zeta in Hsur. fold (code_unit b c) in Hsur.
  repeat (apply andb_prop in Hsur; destruct Hsur as [Hsur ?]).
  repeat match goal with
         | E : Bool.eqb _ _ = true |- _ => apply Bool.eqb_prop in E
         | E : (_ =? _) = true |- _ => apply String.eqb_eq in E
         end.
  rewrite Hh, Hl. repeat split; try assumption.
  match goal with E : utf8_encode _ = _ |- _ => rewrite E end.
  now rewrite <- Ha, !ascii_N_embedding.
Qed.

Lemma parse_quote_chars_length (n : nat) :
  forall s, String.length s <= n ->
  forall rest,
  exists items,
    parse_string_items (quote_chars s +++ String dquote rest) = Some (items, rest) /\
    decode_items items = s /\
    (head_low items = true -> starts_low s = true).
Proof.
  induction n as [| n IH]; intros s Hn rest.
  - destruct s; [| simpl in Hn; lia].
    exists []. repeat split. discriminate.
  - destruct s as [| a s1]; [exists []; repeat split; discriminate |].
    cbn [String.length] in Hn.
    destruct (quote_chars_cases a s1)
      as [(b & c & a' & b' & c' & s6 & -> & Hh & Hl & E)
         | [(b & c & s3 & -> & Hs & E) | [Hp E]]];
      rewrite E.
    + destruct (IH s6 ltac:(cbn [String.length] in Hn; lia) rest)
        as (items & Hi & Hd & _).
      assert (H1 : high_surrogate_bytes a b c || low_surrogate_bytes a b c = true)
        by now rewrite Hh.
      assert (H2 : high_surrogate_bytes a' b' c' || low_surrogate_bytes a' b' c' = true)
        by (rewrite Hl; apply orb_true_r).
      destruct (surrogate_bytes a b c H1) as (A1 & B1 & _ & C1 & _).
      destruct (surrogate_bytes a' b' c' H2) as (A2 & B2 & _ & C2 & _).
      exists (Raw a :: Raw b :: Raw c :: Raw a' :: Raw b' :: Raw c' :: items).
      cbn [append]. split; [| split; [cbn [decode_items]; now rewrite Hd | discriminate]].
      repeat (apply parse_raw; [lia |]). exact Hi.
    + destruct (IH s3 ltac:(cbn [String.length] in Hn; lia) rest)
        as (items & Hi & Hd & Hlow).
      assert (Hsur : high_surrogate_bytes a b c || low_surrogate_bytes a b c = true)
        by (destruct Hs as [[-> _] | [_ ->]]; [reflexivity | apply orb_true_r]).
      destruct (surrogate_decoded a b c Hsur) as (Eu & Ehi & Elo).
      exists (Unit16 (code_unit b c) :: items).
      rewrite append_assoc. split; [now apply (parse_escape_unit a) |]. split.
      * rewrite decode_lone; [now rewrite Eu, Hd |].
        rewrite Ehi. destruct Hs as [[Hh Hs] | [Hh _]]; rewrite Hh; [| reflexivity].
        cbn [andb]. destruct (head_low items) eqn:El; [| reflexivity].
        rewrite (Hlow eq_refl) in Hs. discriminate.
      * cbn [head_low starts_low]. now rewrite Elo.
    + destruct (IH s1 ltac:(lia) rest) as (items & Hi & Hd & _).
      rewrite append_assoc.
      destruct (parse_quote_char a _ _ _ Hi) as (items' & Hi' & Hd' & Hl').
      exists items'. split; [exact Hi' |]. split; [now rewrite Hd', Hd |].
      rewrite Hl'. discriminate.
Qed.

Lemma parse_quote_chars (s rest : string) :
  exists items,
    parse_string_items (quote_chars s +++ String dquote rest) = Some (items, rest) /\
    decode_items items = s.
Proof.
  destruct (parse_quote_chars_length (String.length s) s (Nat.le_refl _) rest)
    as (items & H1 & H2 & _).
  now exists items.
Qed.

(** A quoted string is read back as the string, whatever follows it. *)
Lemma parse_string_quoted (s rest : string) :
  parse_string (quote_chars s +++ String dquote rest) = Some (s, rest).
Proof.
  unfold parse_string.
  destruct (parse_quote_chars s rest) as (items & -> & ->). reflexivity.
Qed.

(** ** The cases of [parse_value] by the first character *)

Lemma parse_value_string (fuel : nat) (r : string) :
  parse_value (S fuel) (String dquote r) =
  match parse_string r with
  | Some (str, rest) => Parsed (VStr str) rest
  | None => SyntaxError
  end.
Proof. reflexivity. Qed.

Lemma parse_value_array (fuel : nat) (r : string) :
  parse_value (S fuel) (String "[" r) =
  match next_is "]" (skip_ws r) with
  | Some rest => Parsed (VArr []) rest
  | None => parse_elements fuel r []
  end.
Proof. reflexivity. Qed.

Lemma parse_value_object (fuel : nat) (r : string) :
  parse_value (S fuel) (String "{" r) =
  match next_is "}" (skip_ws r) with
  | Some rest => Parsed (VObj []) rest
  | None => parse_members fuel r []
  end.
Proof. reflexivity. Qed.

Lemma digit_facts (c : ascii) :
  c = "-"%char \/ is_digit c = true ->
  is_ws c = false /\
  (N_of_ascii c =? 34)%N = false /\
  (N_of_ascii c =? 91)%N = false /\
  (N_of_ascii c =? 123)%N = false /\
  ((N_of_ascii c =? 45)%N || is_digit c) = true /\
  Ascii.eqb c "]" = false.
Proof.
  intros [-> | H]; [repeat split |].
  unfold is_digit, is_ws in *. cbv zeta in *.
  apply andb_prop in H. destruct H as [H1 H2].
  apply N.leb_le in H1, H2.
  assert (Hne : c <> "]"%char).
  { intros ->. cbn in H2. lia. }
  apply Ascii.eqb_neq in Hne.
  repeat split; try exact Hne;
    repeat match goal with
           | |- (_ || _) = false => apply orb_false_intro
           | |- (_ =? _)%N = false => apply N.eqb_neq; lia
           end.
  apply orb_true_intro. right. apply andb_true_intro.
  split; now apply N.leb_le.
Qed.

Lemma parse_value_number (fuel : nat) (c : ascii) (r : string) :
  c = "-"%char \/ is_digit c = true ->
  parse_value (S fuel) (String c r) =
  match parse_number (String c r) with
  | Some (x, rest) => Parsed (VNum x) rest
  | None => SyntaxError
  end.
Proof.
  intros H. destruct (digit_facts c H) as (H1 & H2 & H3 & H4 & H5 & _).
  cbn [parse_value skip_ws]. rewrite H1. cbv zeta. now rewrite H2, H3, H4, H5.
Qed.

(** ** Numbers *)

Lemma delimited_head (rest : string) :
  delimited rest = true ->
  rest = "" \/
  exists c r, rest = String c r /\ (c = "," \/ c = "]" \/ c = "}")%char.
Proof.
  destruct rest as [| c r]; [now left |]. cbn [delimited]. intros H. right.
  exists c, r. split; [reflexivity |].
  apply orb_prop in H. destruct H as [H | H].
  - apply orb_prop in H. destruct H as [H | H]; apply Ascii.eqb_eq in H; auto.
  - apply Ascii.eqb_eq in H. auto.
Qed.

Lemma span_digits_app (rest : string) :
  delimited rest = true ->
  forall s ds r, span_digits s = (ds, r) ->
                 span_digits (s +++ rest) = (ds, r +++ rest).
Proof.
  intros Hd. induction s as [| c s IH]; intros ds r H.
  - injection H as <- <-. cbn [append].
    destruct (delimited_head rest Hd) as [-> | (c & r & -> & [-> | [-> | ->]])];
      reflexivity.
  - cbn [append span_digits] in *. destruct (is_digit c).
    + destruct (span_digits s) as [ds' r'] eqn:E. injection H as <- <-.
      now rewrite (IH ds' r' eq_refl).
    + now injection H as <- <-.
Qed.

Lemma next_is_app (c : ascii) (s rest : string) :
  delimited rest = true ->
  Ascii.eqb c "," = false -> Ascii.eqb c "]" = false -> Ascii.eqb c "}" = false ->
  next_is c (s +++ rest) =
  match next_is c s with
  | Some r => Some (r +++ rest)
  | None => None
  end.
Proof.
  intros Hd H1 H2 H3. destruct s as [| a s]; cbn [append next_is].
  - destruct (delimited_head rest Hd) as [-> | (d & r & -> & [-> | [-> | ->]])];
      cbn [next_is]; try reflexivity; rewrite Ascii.eqb_sym;
      now rewrite ?H1, ?H2, ?H3.
  - now destruct (Ascii.eqb a c).
Qed.

Ltac number_step rest Hd :=
  first
    [ progress cbv beta iota in *
    | match goal with
      | |- context [next_is ?c (?a +++ rest)] =>
          rewrite (next_is_app c a rest Hd eq_refl eq_refl eq_refl)
      end
    | match goal with
      | |- context [span_digits (?a +++ rest)] =>
          let E := fresh "E" in
          destruct (span_digits a) as [? ?] eqn:E;
          rewrite (span_digits_app rest Hd _ _ _ E)
      end
    | match goal with
      | H : context [match next_is ?c ?s with _ => _ end] |- _ =>
          destruct (next_is c s) eqn:?
      | H : context [match ?l with [] => _ | _ :: _ => _ end] |- _ =>
          destruct l eqn:?
      | H : context [if ?b then _ else _] |- _ => destruct b eqn:?
      end
    | discriminate
    | match goal with
      | H : Some _ = Some _ |- _ => injection H as ? ?; subst
      | H : (_, _) = (_, _) |- _ => injection H as ? ?; subst
      end
    | reflexivity ].

(** A number is read the same when a delimiter follows it. *)
Lemma parse_number_app (s rest : string) (x : number) (r : string) :
  delimited rest = true ->
  parse_number s = Some (x, r) ->
  parse_number (s +++ rest) = Some (x, r +++ rest).
Proof.
  intros Hd H. unfold parse_number in *.
  repeat number_step rest Hd.
Qed.

Lemma canonical_number_spec (m e : Z) :
  canonical_number m e = true ->
  parse_number (Number_toString m e) = Some (Dec m e, "").
Proof.
  unfold canonical_number.
  destruct (parse_number (Number_toString m e)) as [[[m' e' | | |] [| c r]] |];
    try discriminate.
  intros H. apply andb_prop in H. destruct H as [H1 H2].
  apply Z.eqb_eq in H1, H2. now subst.
Qed.

Lemma parse_number_head (s : string) (x : number) (r : string) :
  parse_number s = Some (x, r) ->
  exists c t, s = String c t /\ (c = "-"%char \/ is_digit c = true).
Proof.
  unfold parse_number. destruct s as [| c t]; [discriminate |]. intros H.
  exists c, t. split; [reflexivity |].
  cbn [next_is] in H. destruct (Ascii.eqb c "-") eqn:E.
  - left. now apply Ascii.eqb_eq.
  - right. cbn [span_digits] in H. destruct (is_digit c); [reflexivity | discriminate].
Qed.

(** ** Values *)

Lemma serialized_head (v : value) :
  canonical_numbers v = true ->
  exists c t, serialized v = String c t /\
              is_ws c = false /\ Ascii.eqb c "]" = false.
Proof.
  destruct v as [| | [|] | [m e | | |] | s | f | items | props]; intros H;
    try (eexists _, _; repeat split; fail).
  cbn [canonical_numbers] in H. apply canonical_number_spec in H.
  destruct (parse_number_head _ _ _ H) as (c & t & Ht & Hc).
  exists c, t. unfold serialized. cbn [SerializeJSONProperty].
  split; [exact Ht |]. destruct (digit_facts c Hc) as (H1 & _ & _ & _ & _ & H2).
  now split.
Qed.

Lemma parse_elements_step (fuel : nat) (s : string) (acc : list value) :
  parse_elements (S fuel) s acc =
  match parse_value fuel s with
  | Parsed v r =>
      match next_is "," (skip_ws r), next_is "]" (skip_ws r) with
      | Some rest, _ => parse_elements fuel rest (v :: acc)
      | None, Some rest => Parsed (VArr (rev (v :: acc))) rest
      | None, None => SyntaxError
      end
  | failure => failure
  end.
Proof. reflexivity. Qed.

Lemma parse_elements_serialized (items : list value) :
  Forall reads_back items ->
  forallb canonical_numbers items = true ->
  forallb well_formed items = true ->
  forall x, reads_back x -> canonical_numbers x = true -> well_formed x = true ->
  forall fuel acc rest,
    delimited rest = true ->
    let text := String.concat "," (map serialized (x :: items)) +++ "]" +++ rest in
    parse_elements fuel text acc = OutOfFuel \/
    parse_elements fuel text acc =
      Parsed (VArr (rev acc ++ map toJSON (x :: items))) rest.
Proof.
  induction 1 as [| y items Hy _ IH]; intros Hc Hw x Hx Hcx Hwx fuel acc rest Hd text;
    subst text.
  - destruct fuel as [| fuel]; [now left |].
    rewrite parse_elements_step. cbn [map String.concat].
    destruct (Hx Hcx Hwx fuel ("]" +++ rest) eq_refl) as [-> | ->]; [now left |].
    right. reflexivity.
  - cbn [forallb] in Hc, Hw.
    apply andb_prop in Hc. destruct Hc as [Hcy Hc].
    apply andb_prop in Hw. destruct Hw as [Hwy Hw].
    destruct fuel as [| fuel]; [now left |].
    rewrite parse_elements_step.
    change (String.concat "," (map serialized (x :: y :: items)))
      with (serialized x +++ "," +++ String.concat "," (map serialized (y :: items))).
    rewrite !append_assoc.
    destruct (Hx Hcx Hwx fuel
                ("," +++ String.concat "," (map serialized (y :: items)) +++ "]" +++ rest)
                eq_refl) as [-> | ->]; [now left |].
    change (next_is "," (skip_ws ("," +++ ?t))) with (Some t).
    cbv beta iota.
    destruct (IH Hc Hw y Hy Hcy Hwy fuel (toJSON x :: acc) rest Hd) as [-> | ->];
      [now left |].
    right. cbn [rev map]. now rewrite <- app_assoc.
Qed.

Lemma parse_members_step (fuel : nat) (key r2 : string)
    (acc : list (string * value)) :
  parse_members (S fuel)
    (String dquote (quote_chars key +++ String dquote (String ":" r2))) acc =
  match parse_value fuel r2 with
  | Parsed v r3 =>
      match next_is "," (skip_ws r3), next_is "}" (skip_ws r3) with
      | Some rest, _ => parse_members fuel rest (obj_set key v acc)
      | None, Some rest => Parsed (VObj (obj_set key v acc)) rest
      | None, None => SyntaxError
      end
  | failure => failure
  end.
Proof.
  cbn [parse_members].
  change (next_is dquote (skip_ws (String dquote ?t))) with (Some t).
  cbv beta iota. rewrite parse_string_quoted. reflexivity.
Qed.

Lemma member_text_app (kv : string * value) (t : string) :
  member_text kv +++ t =
  String dquote (quote_chars (fst kv) +++
                 String dquote (String ":" (serialized (snd kv) +++ t))).
Proof.
  unfold member_text, QuoteJSONString. cbn [append].
  now rewrite !append_assoc.
Qed.

Lemma parse_members_serialized (l : list (string * value)) :
  Forall (fun kv => reads_back (snd kv)) l ->
  forallb (fun kv => canonical_numbers (snd kv)) l = true ->
  forallb (fun kv => well_formed (snd kv)) l = true ->
  forall kv, reads_back (snd kv) ->
             canonical_numbers (snd kv) = true -> well_formed (snd kv) = true ->
  forall fuel acc rest,
    delimited rest = true ->
    NoDup (map fst acc ++ map fst (kv :: l)) ->
    let text := String.concat "," (map member_text (kv :: l)) +++ "}" +++ rest in
    parse_members fuel text acc = OutOfFuel \/
    parse_members fuel text acc =
      Parsed (VObj (acc ++ map member_read (kv :: l))) rest.
Proof.
  induction 1 as [| kv' l Hy _ IH];
    intros Hc Hw kv Hx Hcx Hwx fuel acc rest Hd Hn text; subst text.
  - destruct fuel as [| fuel]; [now left |].
    cbn [map String.concat]. rewrite member_text_app, parse_members_step.
    destruct (Hx Hcx Hwx fuel ("}" +++ rest) eq_refl) as [-> | ->]; [now left |].
    right. change (next_is "," (skip_ws ("}" +++ rest))) with (@None string).
    change (next_is "}" (skip_ws ("}" +++ rest))) with (Some rest).
    cbv beta iota. rewrite obj_set_fresh; [reflexivity |].
    apply not_true_iff_false. rewrite existsb_key_In.
    apply NoDup_remove_2 in Hn. rewrite app_nil_r in Hn. exact Hn.
  - cbn [forallb] in Hc, Hw.
    apply andb_prop in Hc. destruct Hc as [Hcy Hc].
    apply andb_prop in Hw. destruct Hw as [Hwy Hw].
    destruct fuel as [| fuel]; [now left |].
    change (String.concat "," (map member_text (kv :: kv' :: l)))
      with (member_text kv +++ "," +++
            String.concat "," (map member_text (kv' :: l))).
    rewrite !append_assoc, member_text_app, parse_members_step.
    destruct (Hx Hcx Hwx fuel
                ("," +++ String.concat "," (map member_text (kv' :: l)) +++ "}" +++ rest)
                eq_refl) as [-> | ->]; [now left |].
    change (next_is "," (skip_ws ("," +++ ?t))) with (Some t).
    cbv beta iota.
    assert (Hf : existsb (fun p => fst p =? fst kv) acc = false).
    { apply not_true_iff_false. rewrite existsb_key_In.
      apply NoDup_remove_2 in Hn. intros Hin. apply Hn.
      apply in_or_app. now left. }
    rewrite (obj_set_fresh _ _ _ Hf).
    destruct (IH Hc Hw kv' Hy Hcy Hwy fuel (acc ++ [(fst kv, toJSON (snd kv))]) rest Hd)
      as [-> | ->]; [| now left |].
    + rewrite map_app. cbn [map fst]. rewrite <- app_assoc. exact Hn.
    + right. cbn [map]. rewrite <- app_assoc. reflexivity.
Qed.

Lemma written_text (props : list (string * value)) :
  flat_map (fun kv => match SerializeJSONProperty (snd kv) with
                      | Some t => [QuoteJSONString (fst kv) +++ ":" +++ t]
                      | None => []
                      end) props =
  map member_text (written props).
Proof.
  induction props as [| [k x] props IH]; [reflexivity |].
  cbn [flat_map written filter snd fst]. fold (written props). rewrite IH.
  destruct x as [| | b | [m e | | |] | s | f | items | ps]; reflexivity.
Qed.

Lemma written_read (props : list (string * value)) :
  toJSON (VObj props) = VObj (map member_read (written props)).
Proof.
  cbn [toJSON]. f_equal.
  induction props as [| [k x] props IH]; [reflexivity |].
  cbn [flat_map written filter snd fst]. fold (written props). rewrite IH.
  destruct x as [| | b | [m e | | |] | s | f | items | ps]; reflexivity.
Qed.

Lemma written_facts (P : value -> Prop) (Q : value -> bool)
    (props : list (string * value)) :
  (Forall (fun kv => P (snd kv)) props ->
   Forall (fun kv => P (snd kv)) (written props)) /\
  (forallb (fun kv => Q (snd kv)) props = true ->
   forallb (fun kv => Q (snd kv)) (written props) = true) /\
  (NoDup (map fst props) -> NoDup (map fst (written props))).
Proof.
  induction props as [| [k x] props (IH1 & IH2 & IH3)];
    [repeat split; auto |].
  cbn [written filter snd]. fold (written props).
  split; [| split].
  - intros H. inversion H; subst. destruct (defined x); auto.
  - cbn [forallb snd]. intros H. apply andb_prop in H. destruct H as [H1 H2].
    destruct (defined x); cbn [forallb snd]; [rewrite H1 |]; auto.
  - cbn [map fst]. intros H. inversion H as [| ? ? Hk Hr]; subst.
    destruct (defined x); [| auto]. cbn [map fst]. constructor; [| auto].
    intros Hin. apply Hk. clear -Hin.
    unfold written in Hin. apply in_map_iff in Hin.
    destruct Hin as (kv & <- & Hin). apply filter_In in Hin.
    apply in_map. tauto.
Qed.

Lemma concat_head (sep x : string) (l : list string) :
  String.concat sep (x :: l) =
  x +++ match l with
        | [] => ""
        | _ :: _ => sep +++ String.concat sep l
        end.
Proof. destruct l; cbn [String.concat]; [now rewrite append_nil_r | reflexivity]. Qed.

(** The text of a value is read back as what [JSON.stringify] keeps. *)
Lemma parse_serialized (v : value) : reads_back v.
Proof.
  induction v as [| | b | n | s | f | items IH | props IH] using value_ind;
    intros Hc Hw fuel rest Hd; (destruct fuel as [| fuel]; [now left |]).
  - now right.
  - now right.
  - right. destruct b; reflexivity.
  - right. destruct n as [m e | | |]; try reflexivity.
    cbn [canonical_numbers] in Hc. apply canonical_number_spec in Hc.
    unfold serialized. cbn [SerializeJSONProperty toJSON].
    destruct (parse_number_head _ _ _ Hc) as (c & t & Ht & Hh).
    pose proof (parse_number_app _ rest _ _ Hd Hc) as Hp.
    rewrite Ht in *. cbn [append] in *.
    now rewrite (parse_value_number _ _ _ Hh), Hp.
  - right. unfold serialized.
    cbn [SerializeJSONProperty toJSON QuoteJSONString append].
    rewrite append_assoc. cbn [append].
    now rewrite parse_value_string, parse_string_quoted.
  - now right.
  - change (serialized (VArr items))
      with ("[" +++ String.concat "," (map serialized items) +++ "]").
    cbn [append]. rewrite append_assoc, parse_value_array.
    destruct items as [| x items]; [now right |].
    cbn [canonical_numbers well_formed forallb] in Hc, Hw.
    apply andb_prop in Hc. destruct Hc as [Hcx Hc].
    apply andb_prop in Hw. destruct Hw as [Hwx Hw].
    inversion IH as [| ? ? Hx Hl]; subst.
    assert (Hhead : next_is "]"
                      (skip_ws (String.concat "," (map serialized (x :: items)) +++
                                "]" +++ rest)) = None).
    { cbn [map]. rewrite concat_head.
      destruct (serialized_head x Hcx) as (c & t & -> & H1 & H2).
      cbn [append skip_ws]. rewrite H1. cbn [next_is]. now rewrite H2. }
    rewrite Hhead.
    exact (parse_elements_serialized items Hl Hc Hw x Hx Hcx Hwx fuel [] rest Hd).
  - rewrite written_read.
    unfold serialized. cbn [SerializeJSONProperty]. rewrite written_text.
    cbn [append]. rewrite append_assoc, parse_value_object.
    cbn [canonical_numbers well_formed] in Hc, Hw.
    apply andb_prop in Hw. destruct Hw as [Hk Hw].
    apply distinct_keys_NoDup in Hk.
    apply (written_facts reads_back canonical_numbers) in IH.
    apply (written_facts reads_back canonical_numbers) in Hc.
    apply (written_facts reads_back well_formed) in Hw.
    apply (written_facts reads_back well_formed) in Hk.
    destruct (written props) as [| kv l]; [now right |].
    cbn [forallb] in Hc, Hw.
    apply andb_prop in Hc. destruct Hc as [Hcx Hc].
    apply andb_prop in Hw. destruct Hw as [Hwx Hw].
    inversion IH as [| ? ? Hx Hl]; subst.
    assert (Hhead : next_is "}"
                      (skip_ws (String.concat "," (map member_text (kv :: l)) +++
                                "}" +++ rest)) = None).
    { cbn [map]. rewrite concat_head, append_assoc, member_text_app. reflexivity. }
    rewrite Hhead.
    exact (parse_members_serialized l Hl Hc Hw kv Hx Hcx Hwx fuel [] rest Hd Hk).
Qed.

(** [JSON.parse] of the text [JSON.stringify] writes for a value is what
    [JSON.stringify] keeps of the value. *)
Lemma JSON_parse_serialized (v : value) :
  canonical_numbers v = true -> well_formed v = true ->
  JSON_parse (serialized v) = Some (toJSON v).
Proof.
  intros Hc Hw. unfold JSON_parse.
  pose proof (JSON_parse_fuel (serialized v)) as Hf.
  destruct (parse_serialized v Hc Hw (parse_fuel (serialized v)) "" eq_refl)
    as [H | H]; rewrite append_nil_r in H; [contradiction |].
  now rewrite H.
Qed.

(** ** The text fields of the multipart form *)

Lemma NoDup_map_injective {A B : Type} (g : A -> B) (l : list A) :
  (forall x y, g x = g y -> x = y) -> NoDup l -> NoDup (map g l).
Proof.
  intros Hg. induction 1 as [| x l Hx _ IH]; cbn [map]; constructor; [| exact IH].
  intros Hin. apply in_map_iff in Hin. destruct Hin as (y & Hy & Hin).
  apply Hg in Hy. now subst.
Qed.

Lemma extraction_map_facts (files : list FileEntry) :
  canonical_numbers (VObj (extraction_map files)) = true /\
  well_formed (VObj (extraction_map files)) = true /\
  toJSON (VObj (extraction_map files)) = VObj (extraction_map files).
Proof.
  assert (Hk : distinct_keys (extraction_map files) = true).
  { apply distinct_keys_NoDup. unfold extraction_map.
    pose proof (indexed_keys (fun e => VArr [VStr (path e)]) files 0) as H.
    unfold obj_keys, indexed in H. rewrite H.
    apply NoDup_map_injective; [apply String_of_index_inj | apply seq_NoDup]. }
  cbn [canonical_numbers well_formed toJSON]. rewrite Hk. clear Hk.
  unfold extraction_map. generalize (combine (seq 0 (length files)) files).
  induction l as [| [i e] l (IH1 & IH2 & IH3)]; [repeat split |].
  cbn [map forallb flat_map snd fst canonical_numbers well_formed toJSON app andb] in *.
  repeat split; [exact IH1 | exact IH2 |].
  injection IH3 as IH3. now rewrite IH3.
Qed.

Lemma serialized_defined (v : value) :
  defined v = true -> SerializeJSONProperty v = Some (serialized v).
Proof.
  unfold serialized.
  destruct v as [| | b | [m e | | |] | s | f | items | props];
    try discriminate; reflexivity.
Qed.

(** X11.  The field [map] of the multipart form is a JSON text, and a
    server that parses it reads, for the file entry [i], the decimal string
    of [i] as the key of the one-element array that holds the path of the
    entry, in the order of the entries: the parts of the form and the paths
    of the variables are matched by this object. *)
Theorem map_field_parses_back (query variables : value) (files : list FileEntry) :
  exists text,
    FormData_get (createMultipartFormData query variables files) "map" =
      Some (Text text) /\
    JSON_parse text = Some (VObj (extraction_map files)).
Proof.
  destruct (extraction_map_facts files) as (Hc & Hw & Hj).
  exists (serialized (VObj (extraction_map files))). split.
  - rewrite createMultipartFormData_entries. unfold FormData_get.
    rewrite !entry_value_JSON_stringify. reflexivity.
  - rewrite <- Hj at 2. now apply JSON_parse_serialized.
Qed.

Lemma toJSON_plain (v : value) : plain_json v = true -> toJSON v = v.
Proof.
  induction v as [| | b | n | s | f | items IH | props IH] using value_ind;
    cbn [plain_json toJSON]; intros H; try reflexivity; try discriminate.
  - destruct n; [reflexivity | discriminate ..].
  - f_equal. induction IH as [| x l Hx _ IHl]; [reflexivity |].
    cbn [forallb map] in *. apply andb_prop in H. destruct H as [H1 H2].
    now rewrite Hx, IHl.
  - f_equal. induction IH as [| [k x] l Hx _ IHl]; [reflexivity |].
    cbn [forallb flat_map snd fst] in *. apply andb_prop in H.
    destruct H as [H1 H2]. rewrite (IHl H2), (Hx H1).
    destruct x; try reflexivity. discriminate.
Qed.

(** X12.  The field [variables] of the multipart form is a JSON text,
    and a server that parses it reads what [JSON.stringify] keeps of the
    variables the encoder was given, when their numbers are in canonical
    form and no object has a key twice: the variables themselves when they
    hold no [undefined], no number that is not finite and no [Blob], as the
    cleaned tree of such variables does. *)
Theorem variables_field_parses_back (query variables : value)
    (files : list FileEntry) :
  defined variables = true ->
  canonical_numbers variables = true ->
  well_formed variables = true ->
  exists text,
    FormData_get (createMultipartFormData query variables files) "variables" =
      Some (Text text) /\
    JSON_parse text = Some (toJSON variables) /\
    (plain_json variables = true -> JSON_parse text = Some variables).
Proof.
  intros Hd Hc Hw. exists (serialized variables). split; [| split].
  - rewrite createMultipartFormData_entries. unfold FormData_get.
    rewrite !entry_value_JSON_stringify, (serialized_defined _ Hd). reflexivity.
  - now apply JSON_parse_serialized.
  - intros Hp. rewrite <- (toJSON_plain _ Hp) at 2.
    now apply JSON_parse_serialized.
Qed.

Lemma obj_get_written (k : string) (x : value) (fields : list (string * value)) :
  obj_get k fields = Some x -> defined x = true ->
  obj_get k (map member_read (written fields)) = Some (toJSON x).
Proof.
  intros H Hx. induction fields as [| [k1 y] fields IH]; [discriminate |].
  cbn [obj_get] in H. cbn [written filter snd]. fold (written fields).
  destruct (k1 =? k) eqn:E.
  - injection H as ->. rewrite Hx. cbn [map member_read fst snd obj_get].
    now rewrite E.
  - destruct (defined y); [| now apply IH].
    cbn [map member_read fst snd obj_get]. rewrite E. now apply IH.
Qed.

Lemma parsed_query_serialized (fields : list (string * value)) (query : string) :
  obj_get "query" fields = Some (VStr query) ->
  canonical_numbers (VObj fields) = true ->
  well_formed (VObj fields) = true ->
  parsed_query (serialized (VObj fields)) = Some (VStr query).
Proof.
  intros Hq Hc Hw. unfold parsed_query.
  rewrite (JSON_parse_serialized _ Hc Hw), written_read.
  now rewrite (obj_get_written _ _ _ Hq eq_refl).
Qed.

(** X13.  A request with a file in its variables whose body is the text
    [JSON.stringify] writes for an object with a string [query], with
    numbers in canonical form and no key twice in one object, is always
    transformed, never passed through: the body is parsed without error, and
    the field [query] of the multipart form is the query string of the body
    converted to a [USVString], which is the query string itself, character
    for character, when it has no surrogate without partner. *)
Theorem serialized_body_is_transformed (existing : option RequestMiddleware)
    (request processed : Request) (fields : list (string * value))
    (query : string) :
  run_existing existing request = Resolved processed ->
  hasFiles (variables processed) = true ->
  body processed = BodyValue (VStr (serialized (VObj fields))) ->
  obj_get "query" fields = Some (VStr query) ->
  canonical_numbers (VObj fields) = true ->
  well_formed (VObj fields) = true ->
  exists formData,
    createFileUploadMiddleware existing request =
      Resolved (multipart_request processed (VStr query)) /\
    body (multipart_request processed (VStr query)) = BodyFormData formData /\
    FormData_get formData "query" = Some (Text (USVString query)) /\
    (lone_free query = true ->
     FormData_get formData "query" = Some (Text query)).
Proof.
  intros Hrun Hf Hb Hq Hc Hw.
  pose proof (parsed_query_serialized fields query Hq Hc Hw) as Hp.
  assert (Ht : transforms processed = true).
  { unfold transforms. rewrite Hf, Hb, Hp.
    unfold hasFiles in Hf. now destruct (truthy (variables processed)). }
  destruct (middleware_transformed existing request processed Hrun Ht)
    as (b & q & Hb' & Hq' & Hres).
  rewrite Hb in Hb'. injection Hb' as <-. rewrite Hp in Hq'. injection Hq' as <-.
  eexists. split; [exact Hres |]. split; [reflexivity |].
  rewrite createMultipartFormData_entries.
  split; [reflexivity |].
  intros Hl. unfold FormData_get. cbn [obj_get entry_value ToString].
  change ("query" =? "query") with true. cbv iota.
  now rewrite (lone_free_fixed _ Hl).
Qed.

Lemma serialized_body_is_transformed_witness :
  let query := "mutation ($file: File!) { add_file (file: $file) { id } }" in
  let request := upload_request (graphql_body query (VObj [("file", VFile fileA)])) in
  exists formData,
    createFileUploadMiddleware None request =
      Resolved (multipart_request request (VStr query)) /\
    body (multipart_request request (VStr query)) = BodyFormData formData /\
    FormData_get formData "query" = Some (Text (USVString query)) /\
    (lone_free query = true ->
     FormData_get formData "query" = Some (Text query)).
Proof.
  intros query request.
  apply (serialized_body_is_transformed None request request
           [("query", VStr query); ("variables", VObj [("file", VFile fileA)])]
           query); reflexivity.
Defined.

Lemma variables_field_parses_back_witness :
  let variables := nullify mixed_tree in
  exists text,
    FormData_get (createMultipartFormData (VStr "query") variables []) "variables" =
      Some (Text text) /\
    JSON_parse text = Some (toJSON variables) /\
    (plain_json variables = true -> JSON_parse text = Some variables).
Proof.
  intros variables.
  apply (variables_field_parses_back (VStr "query") variables []); reflexivity.
Defined.
